(** * remapjson: sealed webhook configurations and the relay handler

    A shallow embedding of the Go packages [pkg/config] (the [Sealer]) and
    [pkg/rest] (the webhook relay), together with the functions of the Go
    standard library they call: [encoding/base64], [crypto/sha256],
    [crypto/aes], [crypto/cipher] (GCM), [unicode/utf8], [strconv] and
    [encoding/json].  The template engine and the HTTP transport are
    parameters of the relay; of [text/template] the fragment of text and
    field actions is modelled.

    Conventions.
    - A Go [string] is a [string] (a sequence of bytes, not of runes); a
      [[]byte] is a [list byte]; [[]byte(s)] is [list_byte_of_string s].
    - A Go function returning [(T, error)] returns a pair [T * option error];
      [None] is the [nil] error.
    - A run-time panic is the [Panic] outcome; a function that cannot panic
      returns its value directly.
    - Arithmetic inside the primitives is on [N], reduced to the width of the
      Go type where the Go code relies on it. *)

From Stdlib Require Import List String Ascii NArith ZArith Lia Bool DecimalString.
From Stdlib.Strings Require Import Byte.
From stdpp Require Import gmap strings.
Import ListNotations.

(** ** Outcomes, errors and bytes *)

Inductive outcome (A : Type) : Type :=
| Return (a : A)
| Panic (msg : string).
Arguments Return {A} a.
Arguments Panic {A} msg.

Definition bind {A B : Type} (m : outcome A) (k : A -> outcome B) : outcome B :=
  match m with
  | Return a => k a
  | Panic msg => Panic msg
  end.

Notation "x <- m ;; k" := (bind m (fun x => k))
  (at level 100, m at next level, right associativity).

(** The error values that flow through the two packages.  [Error] below is
    the text of Go's [err.Error()]. *)
Inductive error : Type :=
| errors_New (text : string)
| fmt_Errorf (prefix : string) (err : error)
| base64_CorruptInputError (offset : N)
| aes_KeySizeError (size : N)
| json_SyntaxError (msg : string)
| json_UnmarshalTypeError (Value Type_ Struct Field : string).

(** A Go result [(T, error)] of which exactly one component is set. *)
Inductive result (A : Type) : Type :=
| Ok (a : A)
| Err (e : error).
Arguments Ok {A} a.
Arguments Err {A} e.

Definition itoa (n : N) : string := NilZero.string_of_uint (N.to_uint n).

Fixpoint Error (e : error) : string :=
  match e with
  | errors_New text => text
  | fmt_Errorf prefix err => prefix ++ Error err
  | base64_CorruptInputError offset =>
      "illegal base64 data at input byte " ++ itoa offset
  | aes_KeySizeError size => "crypto/aes: invalid key size " ++ itoa size
  | json_SyntaxError msg => msg
  | json_UnmarshalTypeError v t s f =>
      if (String.eqb s "" && String.eqb f "")%bool
      then "json: cannot unmarshal " ++ v ++ " into Go value of type " ++ t
      else "json: cannot unmarshal " ++ v ++ " into Go struct field "
           ++ s ++ "." ++ f ++ " of type " ++ t
  end%string.

Definition byte_of_N (n : N) : byte :=
  match Byte.of_N (n mod 256) with
  | Some b => b
  | None => x00
  end.

Definition byte_xor (a b : byte) : byte :=
  byte_of_N (N.lxor (Byte.to_N a) (Byte.to_N b)).

(** [subtle.ConstantTimeCompare(a, b) == 1]: equal lengths and equal bytes. *)
Fixpoint ConstantTimeCompare (a b : list byte) : bool :=
  match a, b with
  | [], [] => true
  | x :: a', y :: b' => Byte.eqb x y && ConstantTimeCompare a' b'
  | _, _ => false
  end.

(** [s[lo:]] and [s[:hi]] on a slice: out of range is a run-time panic. *)
Definition slice_to (s : list byte) (hi : nat) : outcome (list byte) :=
  if (hi <=? length s)%nat then Return (firstn hi s)
  else Panic "slice bounds out of range".

Definition slice_from (s : list byte) (lo : nat) : outcome (list byte) :=
  if (lo <=? length s)%nat then Return (skipn lo s)
  else Panic "slice bounds out of range".

(** ** encoding/base64: [URLEncoding] (padded, not strict) *)
Module base64.
Local Open Scope N_scope.

Definition encodeURL : list byte :=
  list_byte_of_string
    "ABCDEFGHIJKLMNOPQRSTUVWXYZabcdefghijklmnopqrstuvwxyz0123456789-_".

Definition padChar : byte := "="%byte.

Definition encode (v : N) : byte := nth (N.to_nat v) encodeURL x00.

Fixpoint index_of (c : byte) (l : list byte) (i : N) : option N :=
  match l with
  | [] => None
  | x :: l' => if Byte.eqb c x then Some i else index_of c l' (i + 1)
  end.

(** [decodeMap[c]]; [None] stands for the 0xff entries. *)
Definition decodeMap (c : byte) : option N := index_of c encodeURL 0.

(** [val := src[0]<<16 | src[1]<<8 | src[2]]: the fields do not overlap, so
    the shifts and ors are written as sums and quotients. *)
Definition val3 (a b c : byte) : N :=
  Byte.to_N a * 65536 + Byte.to_N b * 256 + Byte.to_N c.

Fixpoint Encode (src : list byte) : list byte :=
  match src with
  | [] => []
  | [a] =>
      let val := val3 a x00 x00 in
      [encode (val / 262144 mod 64); encode (val / 4096 mod 64);
       padChar; padChar]
  | [a; b] =>
      let val := val3 a b x00 in
      [encode (val / 262144 mod 64); encode (val / 4096 mod 64);
       encode (val / 64 mod 64); padChar]
  | a :: b :: c :: rest =>
      let val := val3 a b c in
      encode (val / 262144 mod 64) :: encode (val / 4096 mod 64)
      :: encode (val / 64 mod 64) :: encode (val mod 64) :: Encode rest
  end.

Definition EncodeToString (src : list byte) : string :=
  string_of_list_byte (Encode src).

Definition is_newline (c : byte) : bool :=
  Byte.eqb c "010"%byte || Byte.eqb c "013"%byte.

(** The bytes of one quantum of [dlen] characters (2, 3 or 4):
    [val := dbuf[0]<<18 | dbuf[1]<<12 | dbuf[2]<<6 | dbuf[3]]. *)
Definition quantum (dlen : nat) (v0 v1 v2 v3 : N) : list byte :=
  let val := v0 * 262144 + v1 * 4096 + v2 * 64 + v3 in
  firstn (dlen - 1)
    [byte_of_N (val / 65536); byte_of_N (val / 256); byte_of_N val].

(** The run of newlines at the head of [src], dropped; with their number. *)
Fixpoint skip_newlines (src : list byte) (si : N) : list byte * N :=
  match src with
  | c :: rest => if is_newline c then skip_newlines rest (si + 1) else (src, si)
  | [] => (src, si)
  end.

Definition trailing_garbage (src : list byte) (si : N) : option error :=
  let (rest, si') := skip_newlines src si in
  match rest with
  | [] => None
  | _ :: _ => Some (base64_CorruptInputError si')
  end.

(** [Decode], quantum by quantum as [decodeQuantum] reads it: [si] is the
    index of the head of [src] in the whole input and [dbuf] the characters
    of the current quantum decoded so far. *)
Fixpoint decode (src : list byte) (si : N) (dbuf : list N)
  : list byte * option error :=
  match src with
  | [] =>
      match dbuf with
      | [] => ([], None)
      | _ => ([], Some (base64_CorruptInputError (si - N.of_nat (length dbuf))))
      end
  | c :: rest =>
      match decodeMap c with
      | Some v =>
          match dbuf with
          | [v0; v1; v2] =>
              let (out, err) := decode rest (si + 1) [] in
              (quantum 4 v0 v1 v2 v ++ out, err)
          | _ => decode rest (si + 1) (dbuf ++ [v])
          end
      | None =>
          if is_newline c then decode rest (si + 1) dbuf
          else if negb (Byte.eqb c padChar)
          then ([], Some (base64_CorruptInputError si))
          else
            match dbuf with
            | [v0; v1] =>
                let (rest', si') := skip_newlines rest (si + 1) in
                match rest' with
                | [] => ([], Some (base64_CorruptInputError si'))
                | c' :: rest'' =>
                    if negb (Byte.eqb c' padChar)
                    then ([], Some (base64_CorruptInputError (si' - 1)))
                    else (quantum 2 v0 v1 0 0, trailing_garbage rest'' (si' + 1))
                end
            | [v0; v1; v2] =>
                (quantum 3 v0 v1 v2 0, trailing_garbage rest (si + 1))
            | _ => ([], Some (base64_CorruptInputError si))
            end
      end
  end.

Definition DecodeString (s : string) : list byte * option error :=
  decode (list_byte_of_string s) 0 [].

End base64.

(** ** crypto/sha256 *)
Module sha256.
Local Open Scope N_scope.

Definition Size : nat := 32.
Definition BlockSize : nat := 64.

Definition w32 (x : N) : N := x mod 4294967296.
Definition add32 (a b : N) : N := w32 (a + b).
Definition rotr (x n : N) : N :=
  N.lor (N.shiftr x n) (w32 (N.shiftl x (32 - n))).

(** The round constants, four to a row. *)
Definition _K : list N :=
  [0x428a2f98; 0x71374491; 0xb5c0fbcf; 0xe9b5dba5]
  ++ [0x3956c25b; 0x59f111f1; 0x923f82a4; 0xab1c5ed5]
  ++ [0xd807aa98; 0x12835b01; 0x243185be; 0x550c7dc3]
  ++ [0x72be5d74; 0x80deb1fe; 0x9bdc06a7; 0xc19bf174]
  ++ [0xe49b69c1; 0xefbe4786; 0x0fc19dc6; 0x240ca1cc]
  ++ [0x2de92c6f; 0x4a7484aa; 0x5cb0a9dc; 0x76f988da]
  ++ [0x983e5152; 0xa831c66d; 0xb00327c8; 0xbf597fc7]
  ++ [0xc6e00bf3; 0xd5a79147; 0x06ca6351; 0x14292967]
  ++ [0x27b70a85; 0x2e1b2138; 0x4d2c6dfc; 0x53380d13]
  ++ [0x650a7354; 0x766a0abb; 0x81c2c92e; 0x92722c85]
  ++ [0xa2bfe8a1; 0xa81a664b; 0xc24b8b70; 0xc76c51a3]
  ++ [0xd192e819; 0xd6990624; 0xf40e3585; 0x106aa070]
  ++ [0x19a4c116; 0x1e376c08; 0x2748774c; 0x34b0bcb5]
  ++ [0x391c0cb3; 0x4ed8aa4a; 0x5b9cca4f; 0x682e6ff3]
  ++ [0x748f82ee; 0x78a5636f; 0x84c87814; 0x8cc70208]
  ++ [0x90befffa; 0xa4506ceb; 0xbef9a3f7; 0xc67178f2].

(** The eight words of the chaining value. *)
Definition digest : Type := (N * N * N * N * N * N * N * N)%type.

Definition init : digest :=
  (0x6a09e667, 0xbb67ae85, 0x3c6ef372, 0xa54ff53a,
   0x510e527f, 0x9b05688c, 0x1f83d9ab, 0x5be0cd19).

(** One round: [w] is the message-schedule word, [k] the round constant. *)
Definition round (st : digest) (k w : N) : digest :=
  let '(a, b, c, d, e, f, g, h) := st in
  let t1 := add32 (add32 (add32 (add32 h
              (N.lxor (N.lxor (rotr e 6) (rotr e 11)) (rotr e 25)))
              (N.lxor (N.land e f) (N.land (N.lxor e 0xffffffff) g))) k) w in
  let t2 := add32 (N.lxor (N.lxor (rotr a 2) (rotr a 13)) (rotr a 22))
              (N.lxor (N.lxor (N.land a b) (N.land a c)) (N.land b c)) in
  (add32 t1 t2, a, b, c, add32 d t1, e, f, g).

(** The next word of the message schedule from the sixteen before it. *)
Definition schedule (win : list N) : N :=
  let w n := nth n win 0 in
  let v1 := w 14%nat in
  let v2 := w 1%nat in
  let t1 := N.lxor (N.lxor (rotr v1 17) (rotr v1 19)) (N.shiftr v1 10) in
  let t2 := N.lxor (N.lxor (rotr v2 7) (rotr v2 18)) (N.shiftr v2 3) in
  add32 (add32 (add32 t1 (w 9%nat)) t2) (w 0%nat).

(** Rounds 16..63: [win] holds the last sixteen schedule words. *)
Fixpoint rounds (ks : list N) (win : list N) (st : digest) : digest :=
  match ks with
  | [] => st
  | k :: ks' =>
      let w := schedule win in
      rounds ks' (skipn 1 win ++ [w]) (round st k w)
  end.

(** Rounds 0..15 take the block's own words. *)
Fixpoint rounds16 (ks ws : list N) (st : digest) : digest :=
  match ks, ws with
  | k :: ks', w :: ws' => rounds16 ks' ws' (round st k w)
  | _, _ => st
  end.

Definition block (st : digest) (ws : list N) : digest :=
  let '(a, b, c, d, e, f, g, h) := st in
  let '(a', b', c', d', e', f', g', h') :=
    rounds (skipn 16 _K) ws (rounds16 (firstn 16 _K) ws st) in
  (add32 a a', add32 b b', add32 c c', add32 d d',
   add32 e e', add32 f f', add32 g g', add32 h h').

(** Big-endian words of a byte string whose length is a multiple of 4. *)
Fixpoint words (p : list byte) : list N :=
  match p with
  | b0 :: b1 :: b2 :: b3 :: rest =>
      (Byte.to_N b0 * 16777216 + Byte.to_N b1 * 65536
       + Byte.to_N b2 * 256 + Byte.to_N b3) :: words rest
  | _ => []
  end.

(** [n] as [k] big-endian bytes. *)
Definition be_bytes (k : nat) (n : N) : list byte :=
  map (fun i => byte_of_N (N.shiftr n (8 * N.of_nat (k - 1 - i)))) (seq 0 k).

(** The padding [checkSum] writes: 0x80, zeros up to 56 mod 64, and the
    length in bits as eight big-endian bytes. *)
Definition padding (len : nat) : list byte :=
  x80 :: repeat x00 ((119 - len mod 64) mod 64)
  ++ be_bytes 8 (8 * N.of_nat len).

Fixpoint blocks (n : nat) (ws : list N) (st : digest) : digest :=
  match n with
  | O => st
  | S n' => blocks n' (skipn 16 ws) (block st (firstn 16 ws))
  end.

(** [sha256.Sum256(data)]: a [[32]byte] array. *)
Definition Sum256 (data : list byte) : list byte :=
  let p := data ++ padding (length data) in
  let '(a, b, c, d, e, f, g, h) := blocks (length p / 64) (words p) init in
  let hs := [a; b; c; d; e; f; g; h] in
  map (fun i => byte_of_N (N.shiftr (nth (i / 4) hs 0)
                              (8 * N.of_nat (3 - i mod 4))))
      (seq 0 Size).

(** The streaming interface ([hash.Hash]): the state is the message written
    so far. *)
Definition New : list byte := [].
Definition Write (h p : list byte) : list byte := h ++ p.
Definition Sum (h b : list byte) : list byte := b ++ Sum256 h.

End sha256.

(** ** encoding/hex as [fmt.Sprintf("%x", b)] prints a byte slice *)
Module hex.
Local Open Scope N_scope.

Definition digit (v : N) : byte :=
  nth (N.to_nat v) (list_byte_of_string "0123456789abcdef") x00.

Definition EncodeToString (src : list byte) : string :=
  string_of_list_byte
    (flat_map (fun b => [digit (Byte.to_N b / 16); digit (Byte.to_N b mod 16)])
              src).

End hex.

(** ** crypto/cipher: the [Block] interface and Galois/Counter Mode
    (NIST SP 800-38D)

    Only what [NewGCM] builds: the standard 12-byte nonce and 16-byte tag, no
    additional data.  Messages stay far below GCM's limit of 2^36-32 bytes
    (the router caps a request at 1 MiB), so the size check of [Seal] and
    [Open] is left out. *)
Module cipher.
Local Open Scope N_scope.

(** [cipher.Block]: a block size and the encryption of one block. *)
Record Block : Type := {
  BlockSize : nat;
  Encrypt : list byte -> list byte
}.

Definition gcmBlockSize : nat := 16.
Definition gcmTagSize : nat := 16.
Definition gcmStandardNonceSize : nat := 12.

Record AEAD : Type := {
  cipher : Block;
  nonceSize : nat;
  tagSize : nat
}.

Definition errOpen : error := errors_New "cipher: message authentication failed".

(** [cipher.NewGCM(block)]. *)
Definition NewGCM (b : Block) : result AEAD :=
  if (BlockSize b =? gcmBlockSize)%nat
  then Ok {| cipher := b; nonceSize := gcmStandardNonceSize;
             tagSize := gcmTagSize |}
  else Err (errors_New "cipher: NewGCM requires 128-bit block cipher").

Definition NonceSize (g : AEAD) : nat := nonceSize g.

(** A 16-byte block as a 128-bit number, first byte most significant. *)
Definition block_N (b : list byte) : N :=
  fold_left (fun acc x => acc * 256 + Byte.to_N x) b 0.

(** The product in GF(2^128), bit 0 being the most significant bit. *)
Fixpoint gf_mul_aux (n : nat) (x v z : N) : N :=
  match n with
  | O => z
  | S n' =>
      let z' := if N.testbit x (N.of_nat n') then N.lxor z v else z in
      let v' := if N.testbit v 0
                then N.lxor (N.shiftr v 1) 0xe1000000000000000000000000000000
                else N.shiftr v 1 in
      gf_mul_aux n' x v' z'
  end.

Definition gf_mul (x y : N) : N := gf_mul_aux 128 x y 0.

(** GHASH over the 16-byte blocks of [data], the last one zero-padded. *)
Fixpoint ghash (fuel : nat) (h y : N) (data : list byte) : N :=
  match fuel, data with
  | S fuel', _ :: _ =>
      let blk := firstn 16 data in
      let x := block_N (blk ++ repeat x00 (16 - length blk)) in
      ghash fuel' h (gf_mul (N.lxor y x) h) (skipn 16 data)
  | _, _ => y
  end.

(** The counter block: the nonce and a 32-bit big-endian counter. *)
Definition counter_block (nonce : list byte) (ctr : N) : list byte :=
  nonce ++ sha256.be_bytes 4 (ctr mod 4294967296).

Fixpoint xor_bytes (a b : list byte) : list byte :=
  match a, b with
  | x :: a', y :: b' => byte_xor x y :: xor_bytes a' b'
  | _, _ => []
  end.

(** [counterCrypt]: [src] xored with the key stream from counter [ctr] on. *)
Fixpoint counterCrypt (fuel : nat) (g : AEAD) (nonce : list byte) (ctr : N)
    (src : list byte) : list byte :=
  match fuel, src with
  | S fuel', _ :: _ =>
      xor_bytes (firstn 16 src) (Encrypt (cipher g) (counter_block nonce ctr))
      ++ counterCrypt fuel' g nonce (ctr + 1) (skipn 16 src)
  | _, _ => []
  end.

(** The tag of [ciphertext]: GHASH of the ciphertext and the length block,
    masked with the encryption of the first counter block. *)
Definition auth (g : AEAD) (nonce ciphertext : list byte) : list byte :=
  let h := block_N (Encrypt (cipher g) (repeat x00 16)) in
  let y := ghash (length ciphertext) h 0 ciphertext in
  let s := gf_mul (N.lxor y (8 * N.of_nat (length ciphertext))) h in
  firstn (tagSize g)
    (xor_bytes (sha256.be_bytes 16 s)
               (Encrypt (cipher g) (counter_block nonce 1))).

(** [g.Seal(dst, nonce, plaintext, nil)]. *)
Definition Seal (g : AEAD) (dst nonce plaintext : list byte)
  : outcome (list byte) :=
  if negb (length nonce =? nonceSize g)%nat
  then Panic "crypto/cipher: incorrect nonce length given to GCM"
  else
    let ct := counterCrypt (length plaintext) g nonce 2 plaintext in
    Return (dst ++ ct ++ auth g nonce ct).

(** [g.Open(dst, nonce, ciphertext, nil)]. *)
Definition Open (g : AEAD) (dst nonce ciphertext : list byte)
  : outcome (list byte * option error) :=
  if negb (length nonce =? nonceSize g)%nat
  then Panic "crypto/cipher: incorrect nonce length given to GCM"
  else if (length ciphertext <? tagSize g)%nat
  then Return ([], Some errOpen)
  else
    let tag := skipn (length ciphertext - tagSize g) ciphertext in
    let ct := firstn (length ciphertext - tagSize g) ciphertext in
    if negb (ConstantTimeCompare (auth g nonce ct) tag)
    then Return ([], Some errOpen)
    else Return (dst ++ counterCrypt (length ct) g nonce 2 ct, None).

End cipher.

(** ** crypto/aes (FIPS 197) *)
Module aes.
Local Open Scope N_scope.

(** Multiplication by x and by a constant in GF(2^8) modulo x^8+x^4+x^3+x+1. *)
Definition xtime (a : N) : N :=
  let d := N.shiftl a 1 in
  if N.testbit a 7 then N.lxor (d mod 256) 0x1b else d.

Fixpoint gmul_aux (n : nat) (a b : N) : N :=
  match n with
  | O => 0
  | S n' =>
      N.lxor (if N.testbit b 0 then a else 0)
             (gmul_aux n' (xtime a) (N.shiftr b 1))
  end.

Definition gmul (a b : N) : N := gmul_aux 8 a b.

Fixpoint gpow (a : N) (n : nat) : N :=
  match n with
  | O => 1
  | S n' => gmul a (gpow a n')
  end.

Definition rotl8 (b k : N) : N :=
  N.lor (N.shiftl b k mod 256) (N.shiftr b (8 - k)).

(** The S-box: the affine transformation of the inverse in GF(2^8). *)
Definition sbox_of (x : N) : N :=
  let b := gpow x 254 in
  N.lxor (N.lxor (N.lxor (N.lxor (N.lxor b (rotl8 b 1)) (rotl8 b 2))
                         (rotl8 b 3)) (rotl8 b 4)) 0x63.

Definition sbox0 : list N :=
  Eval vm_compute in map (fun i => sbox_of (N.of_nat i)) (seq 0 256).

Definition sbox (x : N) : N := nth (N.to_nat x) sbox0 0.

Definition subw (w : N) : N :=
  sbox (N.shiftr w 24 mod 256) * 16777216 + sbox (N.shiftr w 16 mod 256) * 65536
  + sbox (N.shiftr w 8 mod 256) * 256 + sbox (w mod 256).

Definition rotw (w : N) : N :=
  N.lor (N.shiftl w 8 mod 4294967296) (N.shiftr w 24).

(** [expandKeyGo]: [acc] holds the words so far, the latest first. *)
Fixpoint expand (n : nat) (nk i : nat) (rcon : N) (acc : list N) : list N :=
  match n with
  | O => rev acc
  | S n' =>
      let t := nth 0 acc 0 in
      let t' :=
        if (i mod nk =? 0)%nat then N.lxor (subw (rotw t)) (N.shiftl rcon 24)
        else if ((6 <? nk) && (i mod nk =? 4))%nat then subw t
        else t in
      expand n' nk (S i)
        (if (i mod nk =? 0)%nat then xtime rcon else rcon)
        (N.lxor (nth (nk - 1) acc 0) t' :: acc)
  end.

Definition expandKey (key : list byte) : list N :=
  let nk := (length key / 4)%nat in
  expand (4 * (nk + 7) - nk) nk nk 1 (rev (sha256.words key)).

(** The state is the sixteen bytes of the block in input order (column by
    column). *)
Definition addRoundKey (st : list N) (rk : list N) : list N :=
  map (fun i =>
         N.lxor (nth i st 0)
                (N.shiftr (nth (i / 4) rk 0) (8 * N.of_nat (3 - i mod 4)) mod 256))
      (seq 0 16).

Definition subBytes (st : list N) : list N := map sbox st.

Definition shiftRows (st : list N) : list N :=
  map (fun i => nth (i mod 4 + 4 * ((i / 4 + i mod 4) mod 4)) st 0) (seq 0 16).

Definition mixColumns (st : list N) : list N :=
  map (fun i =>
         let c := (4 * (i / 4))%nat in
         let a k := nth (c + (i + k) mod 4) st 0 in
         N.lxor (N.lxor (N.lxor (gmul 2 (a 0%nat)) (gmul 3 (a 1%nat)))
                        (a 2%nat)) (a 3%nat))
      (seq 0 16).

Fixpoint encRounds (n : nat) (st : list N) (w : list N) : list N :=
  match n with
  | O => addRoundKey (shiftRows (subBytes st)) w
  | S n' =>
      encRounds n' (addRoundKey (mixColumns (shiftRows (subBytes st)))
                                (firstn 4 w)) (skipn 4 w)
  end.

Definition encryptBlock (w : list N) (src : list byte) : list byte :=
  let st := addRoundKey (map Byte.to_N src) (firstn 4 w) in
  let out := encRounds (length w / 4 - 2) st (skipn 4 w) in
  map (fun i => byte_of_N (nth i out 0)) (seq 0 16).

Definition BlockSize : nat := 16.

(** [aes.NewCipher(key)]. *)
Definition NewCipher (key : list byte) : result cipher.Block :=
  match length key with
  | 16%nat | 24%nat | 32%nat =>
      Ok {| cipher.BlockSize := BlockSize;
            cipher.Encrypt := encryptBlock (expandKey key) |}
  | k => Err (aes_KeySizeError (N.of_nat k))
  end.

End aes.

(** ** unicode/utf8 and unicode/utf16

    Masks and shifts of disjoint bit fields are written as remainders,
    quotients and sums. *)
Module utf8.
Local Open Scope N_scope.

Definition RuneError : N := 0xFFFD.
Definition RuneSelf : N := 0x80.
Definition MaxRune : N := 0x10FFFF.

Definition in_range (lo hi : N) (b : byte) : bool :=
  (lo <=? Byte.to_N b) && (Byte.to_N b <=? hi).

Definition cont (b : byte) : N := Byte.to_N b mod 64.

(** The accept range of the second byte, by the first one. *)
Definition accept (p0 : N) : N * N :=
  if p0 =? 0xE0 then (0xA0, 0xBF)
  else if p0 =? 0xED then (0x80, 0x9F)
  else if p0 =? 0xF0 then (0x90, 0xBF)
  else if p0 =? 0xF4 then (0x80, 0x8F)
  else (0x80, 0xBF).

(** [utf8.DecodeRune(p)]: the rune and its width in bytes; an invalid or
    short encoding is [(RuneError, 1)]. *)
Definition DecodeRune (p : list byte) : N * nat :=
  match p with
  | [] => (RuneError, 0%nat)
  | b0 :: rest =>
      let p0 := Byte.to_N b0 in
      if p0 <? RuneSelf then (p0, 1%nat)
      else if (p0 <? 0xC2) || (0xF4 <? p0) then (RuneError, 1%nat)
      else
        let (lo, hi) := accept p0 in
        match rest with
        | b1 :: rest1 =>
            if negb (in_range lo hi b1) then (RuneError, 1%nat)
            else if p0 <? 0xE0 then (p0 mod 32 * 64 + cont b1, 2%nat)
            else
              match rest1 with
              | b2 :: rest2 =>
                  if negb (in_range 0x80 0xBF b2) then (RuneError, 1%nat)
                  else if p0 <? 0xF0
                  then (p0 mod 16 * 4096 + cont b1 * 64 + cont b2, 3%nat)
                  else
                    match rest2 with
                    | b3 :: _ =>
                        if negb (in_range 0x80 0xBF b3) then (RuneError, 1%nat)
                        else (p0 mod 8 * 262144 + cont b1 * 4096
                              + cont b2 * 64 + cont b3, 4%nat)
                    | [] => (RuneError, 1%nat)
                    end
              | [] => (RuneError, 1%nat)
              end
        | [] => (RuneError, 1%nat)
        end
  end.

Definition encode3 (r : N) : list byte :=
  [byte_of_N (0xE0 + r / 4096); byte_of_N (0x80 + r / 64 mod 64);
   byte_of_N (0x80 + r mod 64)].

(** [utf8.AppendRune(nil, r)]. *)
Definition EncodeRune (r : N) : list byte :=
  if r <=? 0x7F then [byte_of_N r]
  else if r <=? 0x7FF then [byte_of_N (0xC0 + r / 64); byte_of_N (0x80 + r mod 64)]
  else if (MaxRune <? r) || ((0xD800 <=? r) && (r <=? 0xDFFF))
  then encode3 RuneError
  else if r <=? 0xFFFF then encode3 r
  else [byte_of_N (0xF0 + r / 262144); byte_of_N (0x80 + r / 4096 mod 64);
        byte_of_N (0x80 + r / 64 mod 64); byte_of_N (0x80 + r mod 64)].

(** [utf8.Valid(p)]. *)
Fixpoint Valid_aux (fuel : nat) (p : list byte) : bool :=
  match fuel, p with
  | _, [] => true
  | O, _ :: _ => false
  | S fuel', _ :: _ =>
      let (r, size) := DecodeRune p in
      if (r =? RuneError) && (size =? 1)%nat then false
      else Valid_aux fuel' (skipn size p)
  end.

Definition Valid (p : list byte) : bool := Valid_aux (length p) p.

Definition ValidString (s : string) : bool := Valid (list_byte_of_string s).

(** [s] with every byte that begins no valid encoding replaced by U+FFFD, one
    replacement per byte. *)
Fixpoint coerce_aux (fuel : nat) (p : list byte) : list byte :=
  match fuel, p with
  | S fuel', _ :: _ =>
      let (r, size) := DecodeRune p in
      if (r =? RuneError) && (size =? 1)%nat
      then EncodeRune RuneError ++ coerce_aux fuel' (skipn 1 p)
      else firstn size p ++ coerce_aux fuel' (skipn size p)
  | _, _ => []
  end.

Definition coerce (s : string) : string :=
  let p := list_byte_of_string s in
  string_of_list_byte (coerce_aux (length p) p).

End utf8.

Module utf16.
Local Open Scope N_scope.

Definition IsSurrogate (r : N) : bool := (0xD800 <=? r) && (r <? 0xE000).

(** [utf16.DecodeRune(r1, r2)]; [r2 = None] is [getu4]'s -1. *)
Definition DecodeRune (r1 : N) (r2 : option N) : N :=
  match r2 with
  | Some r2 =>
      if (0xD800 <=? r1) && (r1 <? 0xDC00) && (0xDC00 <=? r2) && (r2 <? 0xE000)
      then (r1 - 0xD800) * 1024 + (r2 - 0xDC00) + 0x10000
      else utf8.RuneError
  | None => utf8.RuneError
  end.

End utf16.

(** ** strconv: the quoting of one character in a syntax error *)
Module strconv.
Local Open Scope N_scope.

(** [strconv.IsPrint] below U+0100. *)
Definition IsPrint (r : N) : bool :=
  ((0x20 <=? r) && (r <=? 0x7E))
  || ((0xA1 <=? r) && (r <=? 0xFF) && negb (r =? 0xAD)).

Definition hex2 (r : N) : list byte := [hex.digit (r / 16); hex.digit (r mod 16)].

(** [strconv.Quote(string(rune(c)))] without its two quotes, for a byte [c]
    other than the double quote. *)
Definition escapedRune (c : byte) : list byte :=
  let r := Byte.to_N c in
  if r =? 0x5C then [x5c; x5c]
  else if IsPrint r then utf8.EncodeRune r
  else if r =? 7 then [x5c; "a"%byte]
  else if r =? 8 then [x5c; "b"%byte]
  else if r =? 12 then [x5c; "f"%byte]
  else if r =? 10 then [x5c; "n"%byte]
  else if r =? 13 then [x5c; "r"%byte]
  else if r =? 9 then [x5c; "t"%byte]
  else if r =? 11 then [x5c; "v"%byte]
  else if (r <? 0x20) || (r =? 0x7F) then [x5c; "x"%byte] ++ hex2 r
  else [x5c; "u"%byte; "0"%byte; "0"%byte] ++ hex2 r.

(** The leading decimal digits of [s] appended to [acc], their count added
    to [count], and what follows them. *)
Fixpoint readDigits (s : list byte) (acc count : Z) : Z * Z * list byte :=
  match s with
  | c :: rest =>
      if (48 <=? Byte.to_N c) && (Byte.to_N c <=? 57)
      then readDigits rest (10 * acc + Z.of_N (Byte.to_N c - 48)) (count + 1)
      else (acc, count, s)
  | [] => (acc, count, [])
  end.

(** The digits of an exponent, as [readFloat] and [decimal.set] add them
    up: [if e < 10000 { e = e*10 + int(s[i]) - '0' }], so that a digit
    read when [e] has reached 10000 is dropped. *)
Fixpoint readExponent (s : list byte) (e : Z) : Z :=
  match s with
  | c :: rest =>
      if (48 <=? Byte.to_N c) && (Byte.to_N c <=? 57)
      then readExponent rest
             (if (e <? 10000)%Z then (e * 10 + Z.of_N (Byte.to_N c - 48))%Z else e)
      else e
  | [] => e
  end.

(** [readFloat] on a number literal of JSON, without the truncation to 19
    digits: the literal is read as [mantissa * 10^exp] up to its sign,
    with the exponent of [readExponent]. *)
Definition readFloat (s : string) : Z * Z :=
  let s0 := list_byte_of_string s in
  let s1 := match s0 with "-"%byte :: r => r | _ => s0 end in
  let '(int, _, s2) := readDigits s1 0 0 in
  let '(mantissa, dp, s3) :=
    match s2 with
    | "."%byte :: r => readDigits r int 0
    | _ => (int, 0%Z, s2)
    end in
  let e :=
    match s3 with
    | _ :: "-"%byte :: r => (- readExponent r 0)%Z
    | _ :: "+"%byte :: r => readExponent r 0
    | _ :: r => readExponent r 0
    | [] => 0%Z
    end in
  (mantissa, (e - dp)%Z).

(** Whether [ParseFloat(s, 64)] returns [ErrRange] for a number literal of
    JSON.  The conversion rounds what [readFloat] read to the nearest
    [float64], ties to even, and the error is given when the result is an
    infinity: from [2^1024 - 2^970] on, halfway between the largest
    [float64] and [2^1024].  A literal that rounds to zero is no error. *)
Definition rangeError (s : string) : bool :=
  let (mantissa, exp) := readFloat s in
  let limit := (2 ^ 1024 - 2 ^ 970)%Z in
  if (0 <=? exp)%Z then (limit <=? mantissa * 10 ^ exp)%Z
  else (limit * 10 ^ (- exp) <=? mantissa)%Z.

End strconv.

(** ** encoding/json

    [Unmarshal] first checks the whole input with the scanner and then
    decodes it; here one recursive-descent pass does both, reporting the
    scanner's [SyntaxError].  A number keeps its literal: of its conversion
    to [float64] the range check alone is modelled. *)
Module json.
Local Open Scope N_scope.

(** A decoded JSON value ([any]): strings and keys are unquoted. *)
#[local] Set Warnings "-register-all".
Inductive value : Type :=
| Null
| Bool (b : bool)
| Number (literal : string)
| String (s : string)
| Array (elems : list value)
| Object (members : list (string * value)).

Definition maxNestingDepth : N := 10000.

Definition isSpace (c : byte) : bool :=
  Byte.eqb c " "%byte || Byte.eqb c "009"%byte
  || Byte.eqb c "013"%byte || Byte.eqb c "010"%byte.

(** [quoteChar(c)]. *)
Definition quoteChar (c : byte) : list byte :=
  if Byte.eqb c "'"%byte then [x27; x5c; x27; x27]
  else if Byte.eqb c x22 then [x27; x22; x27]
  else [x27] ++ strconv.escapedRune c ++ [x27].

(** [s.error(c, context)]. *)
Definition syntax (c : byte) (context : string) : error :=
  json_SyntaxError
    ("invalid character " ++ string_of_list_byte (quoteChar c) ++ " " ++ context).

Definition unexpected_end : error :=
  json_SyntaxError "unexpected end of JSON input".

(** At the end of the input the scanner is stepped once more with a space:
    a state that refuses it reports the space. *)
Definition at_end (context : string) : error := syntax " "%byte context.

Fixpoint skip_space (p : list byte) : list byte :=
  match p with
  | c :: rest => if isSpace c then skip_space rest else p
  | [] => []
  end.

Definition hex_value (c : byte) : option N :=
  let n := Byte.to_N c in
  if (48 <=? n) && (n <=? 57) then Some (n - 48)
  else if (97 <=? n) && (n <=? 102) then Some (n - 87)
  else if (65 <=? n) && (n <=? 70) then Some (n - 55)
  else None.

Definition in_u : string := "in \u hexadecimal character escape".

(** The four hexadecimal digits after [\u]. *)
Definition hex4 (p : list byte) : result (N * list byte) :=
  match p with
  | [] => Err (at_end in_u)
  | c1 :: p1 =>
    match hex_value c1, p1 with
    | None, _ => Err (syntax c1 in_u)
    | Some _, [] => Err (at_end in_u)
    | Some v1, c2 :: p2 =>
      match hex_value c2, p2 with
      | None, _ => Err (syntax c2 in_u)
      | Some _, [] => Err (at_end in_u)
      | Some v2, c3 :: p3 =>
        match hex_value c3, p3 with
        | None, _ => Err (syntax c3 in_u)
        | Some _, [] => Err (at_end in_u)
        | Some v3, c4 :: p4 =>
          match hex_value c4 with
          | None => Err (syntax c4 in_u)
          | Some v4 => Ok (v1 * 4096 + v2 * 256 + v3 * 16 + v4, p4)
          end
        end
      end
    end
  end.

(** [getu4(s)]: the rune of a [\uXXXX] at the head of [s], if there is one. *)
Definition getu4 (p : list byte) : option N :=
  match p with
  | b :: u :: rest =>
      if Byte.eqb b x5c && Byte.eqb u "u"%byte
      then match hex4 rest with Ok (r, _) => Some r | Err _ => None end
      else None
  | _ => None
  end.

(** A string literal after its opening quote, unquoted as [unquoteBytes]
    does; with the input after the closing quote. *)
Fixpoint string_lit (fuel : nat) (p : list byte) : result (list byte * list byte) :=
  match fuel with
  | O => Err unexpected_end
  | S fuel' =>
    let more (out : list byte) (rest : list byte) :=
      match string_lit fuel' rest with
      | Ok (s, rest') => Ok (out ++ s, rest')
      | Err e => Err e
      end in
    match p with
    | [] => Err unexpected_end
    | c :: rest =>
      if Byte.eqb c x22 then Ok ([], rest)
      else if Byte.eqb c x5c then
        match rest with
        | [] => Err (at_end "in string escape code")
        | e :: rest' =>
          if Byte.eqb e x22 || Byte.eqb e x5c || Byte.eqb e "/"%byte
          then more [e] rest'
          else if Byte.eqb e "b"%byte then more [x08] rest'
          else if Byte.eqb e "f"%byte then more [x0c] rest'
          else if Byte.eqb e "n"%byte then more [x0a] rest'
          else if Byte.eqb e "r"%byte then more [x0d] rest'
          else if Byte.eqb e "t"%byte then more [x09] rest'
          else if Byte.eqb e "u"%byte then
            match hex4 rest' with
            | Err err => Err err
            | Ok (rr, rest'') =>
              if utf16.IsSurrogate rr then
                let dec := utf16.DecodeRune rr (getu4 rest'') in
                if negb (dec =? utf8.RuneError)
                then more (utf8.EncodeRune dec) (skipn 6 rest'')
                else more (utf8.EncodeRune utf8.RuneError) rest''
              else more (utf8.EncodeRune rr) rest''
            end
          else Err (syntax e "in string escape code")
        end
      else if Byte.to_N c <? 0x20 then Err (syntax c "in string literal")
      else if Byte.to_N c <? utf8.RuneSelf then more [c] rest
      else
        let (rr, size) := utf8.DecodeRune p in
        more (utf8.EncodeRune rr) (skipn size p)
    end
  end.

Definition isDigit (c : byte) : bool :=
  (48 <=? Byte.to_N c) && (Byte.to_N c <=? 57).

Fixpoint digits (p : list byte) : list byte * list byte :=
  match p with
  | c :: rest =>
      if isDigit c then let (ds, r) := digits rest in (c :: ds, r) else ([], p)
  | [] => ([], [])
  end.

(** One digit at least, or the scanner's error in [context]. *)
Definition digits1 (context : string) (p : list byte)
  : result (list byte * list byte) :=
  match p with
  | [] => Err (at_end context)
  | c :: _ => if isDigit c then Ok (digits p) else Err (syntax c context)
  end.

(** The exponent of a number, if one follows. *)
Definition exponent (p : list byte) : result (list byte * list byte) :=
  match p with
  | e :: rest =>
      if Byte.eqb e "e"%byte || Byte.eqb e "E"%byte then
        let (sign, rest') :=
          match rest with
          | s :: r => if Byte.eqb s "+"%byte || Byte.eqb s "-"%byte
                      then ([s], r) else ([], rest)
          | [] => ([], rest)
          end in
        match digits1 "in exponent of numeric literal" rest' with
        | Ok (ds, r) => Ok (e :: sign ++ ds, r)
        | Err err => Err err
        end
      else Ok ([], p)
  | [] => Ok ([], p)
  end.

(** The fraction and exponent after the integer part. *)
Definition fraction (p : list byte) : result (list byte * list byte) :=
  match p with
  | d :: rest =>
      if Byte.eqb d "."%byte then
        match digits1 "after decimal point in numeric literal" rest with
        | Ok (ds, r) =>
            match exponent r with
            | Ok (ex, r') => Ok (d :: ds ++ ex, r')
            | Err err => Err err
            end
        | Err err => Err err
        end
      else exponent p
  | [] => Ok ([], p)
  end.

(** A number after its optional minus sign. *)
Definition unsigned (p : list byte) : result (list byte * list byte) :=
  match p with
  | [] => Err (at_end "in numeric literal")
  | c :: rest =>
      if Byte.eqb c "0"%byte then
        match fraction rest with
        | Ok (f, r) => Ok (c :: f, r)
        | Err err => Err err
        end
      else if isDigit c then
        let (ds, r) := digits p in
        match fraction r with
        | Ok (f, r') => Ok (ds ++ f, r')
        | Err err => Err err
        end
      else Err (syntax c "in numeric literal")
  end.

(** The rest of [true], [false] or [null] after its first letter. *)
Fixpoint literal (name : string) (expect : list byte) (p : list byte)
  : result (list byte) :=
  match expect with
  | [] => Ok p
  | x :: expect' =>
      let context :=
        ("in literal " ++ name ++ " (expecting '"
         ++ string_of_list_byte [x] ++ "')")%string in
      match p with
      | [] => Err (at_end context)
      | c :: rest =>
          if Byte.eqb c x then literal name expect' rest
          else Err (syntax c context)
      end
  end.

(** A value at the head of [p]; [depth] is the number of open arrays and
    objects. *)
Fixpoint parse_value (fuel : nat) (depth : N) (p : list byte) : result (value * list byte) :=
  match fuel with
  | O => Err unexpected_end
  | S fuel' =>
    match skip_space p with
    | [] => Err unexpected_end
    | c :: rest =>
      if Byte.eqb c "{"%byte then
        if maxNestingDepth <? depth + 1 then Err (syntax c "exceeded max depth")
        else
          match skip_space rest with
          | [] => Err unexpected_end
          | c' :: rest' =>
              if Byte.eqb c' "}"%byte then Ok (Object [], rest')
              else
                match parse_members fuel' (depth + 1) (c' :: rest') with
                | Ok (ms, r) => Ok (Object ms, r)
                | Err e => Err e
                end
          end
      else if Byte.eqb c "["%byte then
        if maxNestingDepth <? depth + 1 then Err (syntax c "exceeded max depth")
        else
          match skip_space rest with
          | [] => Err unexpected_end
          | c' :: rest' =>
              if Byte.eqb c' "]"%byte then Ok (Array [], rest')
              else
                match parse_elems fuel' (depth + 1) (c' :: rest') with
                | Ok (vs, r) => Ok (Array vs, r)
                | Err e => Err e
                end
          end
      else if Byte.eqb c x22 then
        match string_lit (length rest) rest with
        | Ok (s, r) => Ok (String (string_of_list_byte s), r)
        | Err e => Err e
        end
      else if Byte.eqb c "-"%byte then
        match unsigned rest with
        | Ok (n, r) => Ok (Number (string_of_list_byte (c :: n)), r)
        | Err e => Err e
        end
      else if isDigit c then
        match unsigned (c :: rest) with
        | Ok (n, r) => Ok (Number (string_of_list_byte n), r)
        | Err e => Err e
        end
      else if Byte.eqb c "t"%byte then
        match literal "true" (list_byte_of_string "rue") rest with
        | Ok r => Ok (Bool true, r)
        | Err e => Err e
        end
      else if Byte.eqb c "f"%byte then
        match literal "false" (list_byte_of_string "alse") rest with
        | Ok r => Ok (Bool false, r)
        | Err e => Err e
        end
      else if Byte.eqb c "n"%byte then
        match literal "null" (list_byte_of_string "ull") rest with
        | Ok r => Ok (Null, r)
        | Err e => Err e
        end
      else Err (syntax c "looking for beginning of value")
    end
  end

(** The elements of an array after its bracket, up to the closing one. *)
with parse_elems (fuel : nat) (depth : N) (p : list byte)
  : result (list value * list byte) :=
  match fuel with
  | O => Err unexpected_end
  | S fuel' =>
    match parse_value fuel' depth p with
    | Err e => Err e
    | Ok (v, r) =>
      match skip_space r with
      | [] => Err unexpected_end
      | c :: rest =>
          if Byte.eqb c ","%byte then
            match parse_elems fuel' depth rest with
            | Ok (vs, r') => Ok (v :: vs, r')
            | Err e => Err e
            end
          else if Byte.eqb c "]"%byte then Ok ([v], rest)
          else Err (syntax c "after array element")
      end
    end
  end

(** The members of an object after its brace, up to the closing one. *)
with parse_members (fuel : nat) (depth : N) (p : list byte)
  : result (list (string * value) * list byte) :=
  match fuel with
  | O => Err unexpected_end
  | S fuel' =>
    match skip_space p with
    | [] => Err unexpected_end
    | q :: rest =>
      if negb (Byte.eqb q x22)
      then Err (syntax q "looking for beginning of object key string")
      else
        match string_lit (length rest) rest with
        | Err e => Err e
        | Ok (k, r) =>
          match skip_space r with
          | [] => Err unexpected_end
          | c :: r1 =>
            if negb (Byte.eqb c ":"%byte) then Err (syntax c "after object key")
            else
              match parse_value fuel' depth r1 with
              | Err e => Err e
              | Ok (v, r2) =>
                match skip_space r2 with
                | [] => Err unexpected_end
                | c' :: r3 =>
                    if Byte.eqb c' ","%byte then
                      match parse_members fuel' depth r3 with
                      | Ok (ms, r') => Ok ((string_of_list_byte k, v) :: ms, r')
                      | Err e => Err e
                      end
                    else if Byte.eqb c' "}"%byte
                    then Ok ([(string_of_list_byte k, v)], r3)
                    else Err (syntax c' "after object key:value pair")
                end
              end
          end
        end
    end
  end.

(** The whole input as one value, as [checkValid] accepts it. *)
Definition parse (data : list byte) : result value :=
  match parse_value (2 * length data + 2) 0 data with
  | Err e => Err e
  | Ok (v, rest) =>
      match skip_space rest with
      | [] => Ok v
      | c :: _ => Err (syntax c "after top-level value")
      end
  end.

(** The [Value] of an [UnmarshalTypeError]. *)
Definition describe (v : value) : string :=
  match v with
  | Null => "null"
  | Bool _ => "bool"
  | Number _ => "number"
  | String _ => "string"
  | Array _ => "array"
  | Object _ => "object"
  end.

(** [htmlSafeSet[b]] for an ASCII byte. *)
Definition htmlSafe (b : byte) : bool :=
  let n := Byte.to_N b in
  (0x20 <=? n)
  && negb (Byte.eqb b x22 || Byte.eqb b x5c || Byte.eqb b "<"%byte
           || Byte.eqb b ">"%byte || Byte.eqb b "&"%byte).

(** The body of [appendString(dst, src, escapeHTML = true)], between the
    quotes. *)
Fixpoint escape (fuel : nat) (src : list byte) : list byte :=
  match fuel, src with
  | S fuel', b :: rest =>
      if Byte.to_N b <? utf8.RuneSelf then
        if htmlSafe b then b :: escape fuel' rest
        else if Byte.eqb b x5c || Byte.eqb b x22 then x5c :: b :: escape fuel' rest
        else if Byte.eqb b x08 then x5c :: "b"%byte :: escape fuel' rest
        else if Byte.eqb b x0c then x5c :: "f"%byte :: escape fuel' rest
        else if Byte.eqb b x0a then x5c :: "n"%byte :: escape fuel' rest
        else if Byte.eqb b x0d then x5c :: "r"%byte :: escape fuel' rest
        else if Byte.eqb b x09 then x5c :: "t"%byte :: escape fuel' rest
        else [x5c; "u"%byte; "0"%byte; "0"%byte] ++ strconv.hex2 (Byte.to_N b)
             ++ escape fuel' rest
      else
        let (c, size) := utf8.DecodeRune src in
        if (c =? utf8.RuneError) && (size =? 1)%nat
        then [x5c; "u"%byte; "f"%byte; "f"%byte; "f"%byte; "d"%byte] ++ escape fuel' rest
        else if (c =? 0x2028) || (c =? 0x2029)
        then [x5c; "u"%byte; "2"%byte; "0"%byte; "2"%byte; hex.digit (c mod 16)]
             ++ escape fuel' (skipn size src)
        else firstn size src ++ escape fuel' (skipn size src)
  | _, _ => []
  end.

Definition appendString (dst : list byte) (src : string) : list byte :=
  let s := list_byte_of_string src in
  dst ++ [x22] ++ escape (length s) s ++ [x22].

(** ASCII letters to upper case: [foldName] on a name without the letters k
    and s, whose fold orbits alone hold runes outside ASCII. *)
Definition upper (c : byte) : byte :=
  let n := Byte.to_N c in
  if (97 <=? n) && (n <=? 122) then byte_of_N (n - 32) else c.

Definition foldName (s : string) : string :=
  string_of_list_byte (map upper (list_byte_of_string s)).

(** The field a key names: the exact name first, else the name up to case. *)
Definition names (key name : string) : bool :=
  String.eqb key name || String.eqb (foldName key) (foldName name).

(** What [Unmarshal] stores into an [any]: [nil], [bool], [float64] (kept as
    its literal), [string], [[]any] and [map[string]any]. *)
Inductive any : Type :=
| nil
| bool_ (b : bool)
| float64 (literal : string)
| string_ (s : string)
| slice (elems : list any)
| mapping (m : gmap string any).

(** [d.saveError(err)]: the first error of a decoding is the one reported. *)
Definition saveError (saved : option error) (e : error) : option error :=
  match saved with
  | Some _ => saved
  | None => Some e
  end.

(** [d.convertNumber(s)]: a [float64], or a type error when the literal is
    out of its range. *)
Definition convertNumber (s : string) : any * option error :=
  if strconv.rangeError s
  then (nil, Some (json_UnmarshalTypeError ("number " ++ s) "float64" "" ""))
  else (float64 s, None).

(** [d.valueInterface()], with the saved error passed along: a number out
    of range is stored as [nil] and its error saved; in an object the last
    member of a key wins. *)
Fixpoint valueInterface (v : value) (saved : option error) : any * option error :=
  match v with
  | Null => (nil, saved)
  | Bool b => (bool_ b, saved)
  | Number l =>
      match convertNumber l with
      | (n, Some e) => (n, saveError saved e)
      | (n, None) => (n, saved)
      end
  | String s => (string_ s, saved)
  | Array vs =>
      let (elems, saved') :=
        fold_left (fun acc v => let (a, saved') := valueInterface v (snd acc) in
                                (fst acc ++ [a], saved'))
                  vs ([], saved) in
      (slice elems, saved')
  | Object ms =>
      let (m, saved') :=
        fold_left (fun acc kv => let (a, saved') := valueInterface (snd kv) (snd acc) in
                                 (<[fst kv := a]> (fst acc), saved'))
                  ms (∅, saved) in
      (mapping m, saved')
  end.

(** A [map[string]any]; [None] is the nil map. *)
Definition object : Type := option (gmap string any).

(** [json.Unmarshal(data, &m)] for [m] of type [map[string]any]: [null]
    makes the map nil, an object stores its members into it, any other value
    is a type error; the error saved while the members were stored is
    returned at the end. *)
Definition UnmarshalMap (data : list byte) (m : object) : object * option error :=
  match parse data with
  | Err e => (m, Some e)
  | Ok Null => (None, None)
  | Ok (Object ms) =>
      let (m', saved) :=
        fold_left (fun acc kv => let (a, saved') := valueInterface (snd kv) (snd acc) in
                                 (<[fst kv := a]> (fst acc), saved'))
                  ms (match m with Some m0 => m0 | None => ∅ end, None) in
      (Some m', saved)
  | Ok v =>
      (m, Some (json_UnmarshalTypeError (describe v)
                  "map[string]interface {}" "" ""))
  end.

End json.

(** ** crypto/rand

    The random source is an explicit input: the bytes it will deliver, in
    order, and whether reading it fails. *)
Module rand.

Record Reader : Type := {
  stream : nat -> byte;
  failure : option error
}.

(** [rand.Read(b)] for a buffer of [n] bytes: the bytes read, the error, and
    the source after the read. *)
Definition Read (n : nat) (r : Reader) : (list byte * option error) * Reader :=
  match failure r with
  | Some e => ((repeat x00 n, Some e), r)
  | None =>
      ((map (stream r) (seq 0 n), None),
       {| stream := fun i => stream r (n + i); failure := None |})
  end.

End rand.

(** ** pkg/config: the Sealer *)
Module config.

(** [Sealer] provides methods to seal and unseal webhook configurations. *)
Record Sealer : Type := { Secret : string }.

Record sealedConfig : Type := {
  URL : string;   (* `json:"url"` *)
  Tmpl : string   (* `json:"tmpl"` *)
}.

(** [json.Marshal] of a [sealedConfig]: [{"url":...,"tmpl":...}]. *)
Definition Marshal (cfg : sealedConfig) : list byte * option error :=
  let key (name : string) := [x22] ++ list_byte_of_string name ++ [x22; x3a] in
  (json.appendString
     (json.appendString ([x7b] ++ key "url") (URL cfg) ++ [x2c] ++ key "tmpl")
     (Tmpl cfg) ++ [x7d],
   None).

(** One member of a JSON object stored into a [sealedConfig]: a string sets
    the field its key names, [null] leaves it, any other value is a type
    error; a key that names no field is skipped. *)
Definition store (st : sealedConfig * option error) (m : string * json.value)
  : sealedConfig * option error :=
  let (cfg, saved) := st in
  let (key, v) := m in
  let mismatch (field : string) :=
    json.saveError saved
      (json_UnmarshalTypeError (json.describe v) "string" "sealedConfig" field) in
  if json.names key "url" then
    match v with
    | json.String s => ({| URL := s; Tmpl := Tmpl cfg |}, saved)
    | json.Null => (cfg, saved)
    | _ => (cfg, mismatch "url")
    end
  else if json.names key "tmpl" then
    match v with
    | json.String s => ({| URL := URL cfg; Tmpl := s |}, saved)
    | json.Null => (cfg, saved)
    | _ => (cfg, mismatch "tmpl")
    end
  else (cfg, saved).

(** [json.Unmarshal(data, &cfg)]. *)
Definition Unmarshal (data : list byte) (cfg : sealedConfig)
  : sealedConfig * option error :=
  match json.parse data with
  | Err e => (cfg, Some e)
  | Ok json.Null => (cfg, None)
  | Ok (json.Object members) => fold_left store members (cfg, None)
  | Ok v =>
      (cfg, Some (json_UnmarshalTypeError (json.describe v)
                    "config.sealedConfig" "" ""))
  end.

(** [Seal] takes a URL and a template string, encrypts them, and returns a
    token that can be used to retrieve the original values later. *)
Definition Seal (s : Sealer) (urlStr tmplStr : string) (rd : rand.Reader)
  : outcome (string * option error) * rand.Reader :=
  let key := sha256.Sum256 (list_byte_of_string (Secret s)) in
  match aes.NewCipher key with
  | Err err => (Return (""%string, Some (fmt_Errorf "create cipher: " err)), rd)
  | Ok block =>
    match cipher.NewGCM block with
    | Err err => (Return (""%string, Some (fmt_Errorf "create GCM: " err)), rd)
    | Ok gcm =>
      match Marshal {| URL := urlStr; Tmpl := tmplStr |} with
      | (_, Some err) =>
          (Return (""%string, Some (fmt_Errorf "marshal config: " err)), rd)
      | (plaintext, None) =>
        match rand.Read (cipher.NonceSize gcm) rd with
        | ((_, Some err), rd') =>
            (Return (""%string, Some (fmt_Errorf "generate nonce: " err)), rd')
        | ((nonce, None), rd') =>
            (ciphertext <- cipher.Seal gcm nonce nonce plaintext ;;
             Return (base64.EncodeToString ciphertext, None),
             rd')
        end
      end
    end
  end.

(** [Unseal] decodes the token and returns the original URL and template
    strings. *)
Definition Unseal (s : Sealer) (token : string)
  : outcome (string * string * option error) :=
  match base64.DecodeString token with
  | (_, Some err) =>
      Return (""%string, ""%string, Some (fmt_Errorf "decode token: " err))
  | (data, None) =>
    let key := sha256.Sum256 (list_byte_of_string (Secret s)) in
    match aes.NewCipher key with
    | Err err =>
        Return (""%string, ""%string, Some (fmt_Errorf "create cipher: " err))
    | Ok block =>
      match cipher.NewGCM block with
      | Err err =>
          Return (""%string, ""%string, Some (fmt_Errorf "create GCM: " err))
      | Ok gcm =>
        let nonceSize := cipher.NonceSize gcm in
        if (length data <? nonceSize)%nat
        then Return (""%string, ""%string, Some (errors_New "token too short"))
        else
          nonce <- slice_to data nonceSize ;;
          ciphertext <- slice_from data nonceSize ;;
          opened <- cipher.Open gcm [] nonce ciphertext ;;
          match opened with
          | (_, Some err) =>
              Return (""%string, ""%string,
                      Some (fmt_Errorf "decrypt token: " err))
          | (plaintext, None) =>
            match Unmarshal plaintext {| URL := ""; Tmpl := "" |} with
            | (_, Some err) =>
                Return (""%string, ""%string,
                        Some (fmt_Errorf "unmarshal config: " err))
            | (cfg, None) => Return (URL cfg, Tmpl cfg, None)
            end
          end
      end
    end
  end.

End config.

(** ** text/template, as a capability

    The engine is not modelled: [Parse] and [Execute] are what the package
    offers the relay.  [Execute] returns the bytes written to the buffer. *)
Module text_template.

Record Engine : Type := {
  Template : Type;
  Parse : string -> result Template;
  Execute : Template -> json.object -> list byte * option error
}.

(** The fragment of the engine without actions: a template in which no
    [{{] occurs is one text node and executes to its text, whatever the
    data.  A template with an action is outside the fragment. *)
Fixpoint has_action (s : list byte) : bool :=
  match s with
  | a :: (b :: _) as rest =>
      (Byte.eqb a "{"%byte && Byte.eqb b "{"%byte) || has_action rest
  | _ => false
  end.

Definition text_only : Engine := {|
  Template := string;
  Parse := fun s =>
    if has_action (list_byte_of_string s)
    then Err (errors_New "template: action outside the text fragment")
    else Ok s;
  Execute := fun t _ => (list_byte_of_string t, None)
|}.

(** The fragment of the engine with field actions: text, and actions of
    one field chain, [{{.a.b}}], with spaces around the chain and names of
    ASCII letters, digits and underscores.  Everything else (trim markers,
    comments, pipelines, functions, variables, control structures) is
    outside the fragment. *)
Inductive node : Type :=
| TextNode (text : list byte)
| FieldNode (ident : list string).

(** [isSpace(r)] and [isAlphaNumeric(r)] of the lexer, on ASCII. *)
Definition isSpace (c : byte) : bool :=
  Byte.eqb c " "%byte || Byte.eqb c "009"%byte
  || Byte.eqb c "013"%byte || Byte.eqb c "010"%byte.

Definition isLetter (c : byte) : bool :=
  let n := Byte.to_N c in
  Byte.eqb c "_"%byte
  || ((65 <=? n) && (n <=? 90))%N || ((97 <=? n) && (n <=? 122))%N.

Definition isAlphaNumeric (c : byte) : bool :=
  let n := Byte.to_N c in
  isLetter c || ((48 <=? n) && (n <=? 57))%N.

(** Where the lexer is: in text ([lexText]); in an action before its chain
    ([lexInsideAction], [lexSpace]); after the dot of a field; in the name
    of a field ([lexFieldOrVariable]); after the chain, before the right
    delimiter. *)
Inductive state : Type :=
| inText (text : list byte)
| inAction
| afterDot (ident : list string)
| inField (ident : list string) (name : list byte)
| afterField (ident : list string).

(** [itemText] is emitted when it is not empty. *)
Definition text_node (text : list byte) : list node :=
  match text with
  | [] => []
  | _ => [TextNode text]
  end.

(** The lexer and the parser on the fragment: the nodes of the tree, or
    [None] for a template outside the fragment. *)
Fixpoint lex (s : list byte) (st : state) : option (list node) :=
  match s with
  | [] =>
      match st with
      | inText text => Some (text_node text)
      | _ => None
      end
  | c :: rest =>
      let close (ident : list string) :=
        match rest with
        | c' :: rest' =>
            if Byte.eqb c "}"%byte && Byte.eqb c' "}"%byte
            then option_map (cons (FieldNode ident)) (lex rest' (inText []))
            else None
        | [] => None
        end in
      match st with
      | inText text =>
          match rest with
          | c' :: rest' =>
              if Byte.eqb c "{"%byte && Byte.eqb c' "{"%byte
              then option_map (app (text_node text)) (lex rest' inAction)
              else lex rest (inText (text ++ [c]))
          | [] => lex rest (inText (text ++ [c]))
          end
      | inAction =>
          if isSpace c then lex rest inAction
          else if Byte.eqb c "."%byte then lex rest (afterDot [])
          else None
      | afterDot ident =>
          if isLetter c then lex rest (inField ident [c]) else None
      | inField ident name =>
          if isAlphaNumeric c then lex rest (inField ident (name ++ [c]))
          else if Byte.eqb c "."%byte
          then lex rest (afterDot (ident ++ [string_of_list_byte name]))
          else if isSpace c
          then lex rest (afterField (ident ++ [string_of_list_byte name]))
          else close (ident ++ [string_of_list_byte name])
      | afterField ident =>
          if isSpace c then lex rest (afterField ident) else close ident
      end
  end.

(** A [reflect.Value] of the evaluation: the zero Value, the data of the
    execution (a [map[string]any], nil or not), or an element of a map (an
    [interface {}] with what it holds). *)
Inductive Value : Type :=
| zero
| data_ (m : json.object)
| element (a : json.any).

Definition outside : error := errors_New "template: outside the modelled fragment".

(** [receiver.MapIndex(nameVal)] with [missingkey=default]: a key that is
    not in the map, and every key of the nil map, gives the zero Value. *)
Definition MapIndex (m : json.object) (fieldName : string) : Value :=
  match m with
  | None => zero
  | Some g =>
      match g !! fieldName with
      | Some a => element a
      | None => zero
      end
  end.

(** [s.evalField(dot, fieldName, node, args, final, receiver)] without
    arguments: the zero Value stays the zero Value, a map is indexed.  A
    field of a nil interface or of a value that is no map is an execution
    error, whose text is not modelled. *)
Definition evalField (receiver : Value) (fieldName : string) : result Value :=
  match receiver with
  | zero => Ok zero
  | data_ m => Ok (MapIndex m fieldName)
  | element (json.mapping g) => Ok (MapIndex (Some g) fieldName)
  | element _ => Err outside
  end.

(** [s.evalFieldChain(dot, receiver, node, ident, args, final)]. *)
Fixpoint evalFieldChain (receiver : Value) (ident : list string) : result Value :=
  match ident with
  | [] => Ok receiver
  | fieldName :: ident' =>
      match evalField receiver fieldName with
      | Ok v => evalFieldChain v ident'
      | Err e => Err e
      end
  end.

(** [s.printValue(n, v)]: what [fmt.Fprint] writes for the value.  The
    zero Value and a nil interface are [<no value>], the nil map is
    [map[]]; the printing of a number, of an array and of any other map is
    not modelled. *)
Definition printValue (v : Value) : result (list byte) :=
  match v with
  | zero => Ok (list_byte_of_string "<no value>")
  | element json.nil => Ok (list_byte_of_string "<no value>")
  | element (json.string_ s) => Ok (list_byte_of_string s)
  | element (json.bool_ b) => Ok (list_byte_of_string (if b then "true" else "false"))
  | data_ None => Ok (list_byte_of_string "map[]")
  | _ => Err outside
  end.

(** [s.walk(dot, node)] over the nodes of the tree, writing to [wr]. *)
Fixpoint walk (nodes : list node) (dot : json.object) (wr : list byte)
  : list byte * option error :=
  match nodes with
  | [] => (wr, None)
  | TextNode text :: nodes' => walk nodes' dot (wr ++ text)
  | FieldNode ident :: nodes' =>
      match evalFieldChain (data_ dot) ident with
      | Err e => (wr, Some e)
      | Ok v =>
          match printValue v with
          | Ok out => walk nodes' dot (wr ++ out)
          | Err e => (wr, Some e)
          end
      end
  end.

Definition fields : Engine := {|
  Template := list node;
  Parse := fun s =>
    match lex (list_byte_of_string s) (inText []) with
    | Some nodes => Ok nodes
    | None => Err outside
    end;
  Execute := fun t data => walk t data []
|}.

End text_template.

(** ** net/http, as a capability *)
Module http.

Definition StatusBadRequest : N := 400.
Definition StatusInternalServerError : N := 500.

(** An outbound request as [NewRequestWithContext] builds it. *)
Record Request : Type := {
  Method : string;
  URL : string;
  Body : list byte
}.

(** A response of the target: its status and what reading its body gives. *)
Record Response : Type := {
  StatusCode : N;
  ResponseBody : list byte * option error
}.

(** What the package decides outside this model: whether a method and a URL
    are refused (an invalid method, a URL that does not parse), and the
    transport behind [Client.Do]. *)
Record Package : Type := {
  refuse : string -> string -> option error;
  Do : Request -> result Response
}.

(** [checkWriteHeaderCode(code)], the first step of [w.WriteHeader(code)]:
    a status outside 100..999 is a panic. *)
Definition checkWriteHeaderCode (code : N) : outcome unit :=
  if (code <? 100)%N || (999 <? code)%N
  then Panic ("invalid WriteHeader code " ++ itoa code)
  else Return tt.

(** [http.NewRequestWithContext(ctx, method, url, body)]. *)
Definition NewRequestWithContext (net : Package) (method url : string)
  (body : list byte) : result Request :=
  match refuse net method url with
  | Some err => Err err
  | None =>
      Ok {| Method := if String.eqb method "" then "GET"%string else method;
            URL := url;
            Body := body |}
  end.

End http.

(** ** pkg/rest: the relay *)
Module rest.

(** [Sealer] defines methods to crypt and decrypt webhook configurations. *)
Record Sealer : Type := {
  Seal : string -> string -> rand.Reader
         -> outcome (string * option error) * rand.Reader;
  Unseal : string -> outcome (string * string * option error)
}.

(** The [config.Sealer] of [cmd.Server.Execute]. *)
Definition config_Sealer (s : config.Sealer) : Sealer :=
  {| Seal := config.Seal s; Unseal := config.Unseal s |}.

(** An inbound request: its method, the [{token}] of its path, and what
    [io.ReadAll(r.Body)] returns. *)
Record Request : Type := {
  Method : string;
  PathValue_token : string;
  Body : list byte * option error
}.

(** What the handler wrote: [Envelope err] is the output of
    [fmt.Fprintf(w, `{"error": %q}`, err)], the quoted text of [Error err]
    in its envelope; [Copied b] the bytes of [io.Copy(w, resp.Body)]. *)
Inductive body : Type :=
| Envelope (err : error)
| Copied (bytes : list byte).

(** A response: the status the handler gave to [w.WriteHeader] and what it
    wrote after it. *)
Record Response : Type := {
  Code : N;
  Written : body
}.

Section Server.

Variable engine : text_template.Engine.
Variable net : http.Package.

(** [Server.templates]: the cache of parsed templates. *)
Definition cache : Type := gmap string (text_template.Template engine).

(** The fields of [Server] the relay reads. *)
Record Server : Type := {
  BaseURL : string;
  Sealer_ : Sealer
}.

(** What a handler leaves behind: the cache, the response it wrote and the
    outbound requests it sent, in order. *)
Record handled : Type := {
  templates : cache;
  response : Response;
  sent : list http.Request
}.

(** The cache key of [Server.template]. *)
Definition fingerprint (url tstr : string) : string :=
  let h := sha256.New in
  let h := sha256.Write h (list_byte_of_string url) in
  let h := sha256.Write h (list_byte_of_string tstr) in
  hex.EncodeToString (sha256.Sum h []).

(** [Server.template]. *)
Definition template (c : cache) (url tstr : string)
  : cache * result (text_template.Template engine) :=
  let key := fingerprint url tstr in
  match c !! key with
  | Some tmpl => (c, Ok tmpl)
  | None =>
      match text_template.Parse engine tstr with
      | Err err => (c, Err (fmt_Errorf "parse template: " err))
      | Ok tmpl => (<[key := tmpl]> c, Ok tmpl)
      end
  end.

(** [Server.error]: the status and the error in its envelope. *)
Definition error_ (c : cache) (status : N) (format : string) (err : error)
  (out : list http.Request) : handled :=
  {| templates := c;
     response := {| Code := status; Written := Envelope (fmt_Errorf format err) |};
     sent := out |}.

(** [Server.handleWebhook]: sends a request to the remote server, remapping
    the incoming JSON to the request, as specified by the sealed
    configuration token in the URL. *)
Definition handleWebhook (s : Server) (c : cache) (r : Request)
  : outcome handled :=
  unsealed <- Unseal (Sealer_ s) (PathValue_token r) ;;
  match unsealed with
  | (_, _, Some err) =>
      Return (error_ c http.StatusBadRequest "invalid token: " err [])
  | (remoteURL, rawTmpl, None) =>
    match Body r with
    | (_, Some err) =>
        Return (error_ c http.StatusBadRequest
                       "failed to read request body: " err [])
    | (body, None) =>
      match (if (0 <? length body)%nat then json.UnmarshalMap body None
             else (None, None)) with
      | (_, Some err) =>
          Return (error_ c http.StatusBadRequest "invalid JSON: " err [])
      | (data, None) =>
        match template c remoteURL rawTmpl with
        | (c', Err err) =>
            Return (error_ c' http.StatusBadRequest "invalid template: " err [])
        | (c', Ok tmpl) =>
          match text_template.Execute engine tmpl data with
          | (_, Some err) =>
              Return (error_ c' http.StatusInternalServerError
                             "failed to execute template: " err [])
          | (buf, None) =>
            match http.NewRequestWithContext net (Method r) remoteURL buf with
            | Err err =>
                Return (error_ c' http.StatusInternalServerError
                               "failed to create request: " err [])
            | Ok req =>
              match http.Do net req with
              | Err err =>
                  Return (error_ c' http.StatusInternalServerError
                                 "failed to send request: " err [req])
              | Ok resp =>
                  _ <- http.checkWriteHeaderCode (http.StatusCode resp) ;;
                  Return {| templates := c';
                            response :=
                              {| Code := http.StatusCode resp;
                                 Written := Copied (fst (http.ResponseBody resp)) |};
                            sent := [req] |}
              end
            end
          end
        end
      end
    end
  end.

End Server.

Arguments templates {engine} h.
Arguments response {engine} h.
Arguments sent {engine} h.

End rest.

(** ** strings and slices of strings *)

(** [s[lo:]] and [s[:hi]] on a string: out of range is a run-time panic. *)
Definition substr_from (s : string) (lo : Z) : outcome string :=
  if ((0 <=? lo) && (lo <=? Z.of_nat (String.length s)))%Z
  then Return (string_of_list_byte (skipn (Z.to_nat lo) (list_byte_of_string s)))
  else Panic "slice bounds out of range".

Definition substr_to (s : string) (hi : Z) : outcome string :=
  if ((0 <=? hi) && (hi <=? Z.of_nat (String.length s)))%Z
  then Return (string_of_list_byte (firstn (Z.to_nat hi) (list_byte_of_string s)))
  else Panic "slice bounds out of range".

Module gostrings.

Fixpoint hasPrefix (s prefix : list byte) {struct prefix} : bool :=
  match prefix, s with
  | [], _ => true
  | p :: prefix', c :: s' => Byte.eqb c p && hasPrefix s' prefix'
  | _ :: _, [] => false
  end.

(** The index of the last instance of [substr] in [s], if there is one: an
    instance further on wins over one at the head. *)
Fixpoint lastIndex (s substr : list byte) : option nat :=
  match s with
  | [] => if hasPrefix [] substr then Some O else None
  | _ :: rest =>
      match lastIndex rest substr with
      | Some i => Some (S i)
      | None => if hasPrefix s substr then Some O else None
      end
  end.

(** [strings.LastIndex(s, substr)]: the index of the last instance of
    [substr] in [s], or -1. *)
Definition LastIndex (s substr : string) : Z :=
  match lastIndex (list_byte_of_string s) (list_byte_of_string substr) with
  | Some i => Z.of_nat i
  | None => (-1)%Z
  end.

(** [strings.HasSuffix(s, suffix)]. *)
Definition HasSuffix (s suffix : string) : bool :=
  let p := list_byte_of_string s in
  let x := list_byte_of_string suffix in
  (length x <=? length p)%nat && hasPrefix (skipn (length p - length x) p) x.

(** [strings.TrimSuffix(s, suffix)]: [s] without the suffix, once. *)
Definition TrimSuffix (s suffix : string) : string :=
  if HasSuffix s suffix
  then string_of_list_byte
         (firstn (String.length s - String.length suffix) (list_byte_of_string s))
  else s.

(** [strings.Repeat(s, count)]. *)
Definition Repeat (s : string) (count : Z) : outcome string :=
  if (count <? 0)%Z then Panic "strings: negative Repeat count"
  else Return (string_of_list_byte
                 (concat (repeat (list_byte_of_string s) (Z.to_nat count)))).

(** [strconv.Itoa], the [%d] of an [int]. *)
Definition Itoa (z : Z) : string :=
  if (z <? 0)%Z then "-" ++ itoa (Z.to_N (- z)) else itoa (Z.to_N z).

End gostrings.

(** ** html *)
Module html.

(** [html.EscapeString(s)]: the replacer of the five characters. *)
Definition escape (b : byte) : list byte :=
  if Byte.eqb b "&"%byte then list_byte_of_string "&amp;"
  else if Byte.eqb b "'"%byte then list_byte_of_string "&#39;"
  else if Byte.eqb b "<"%byte then list_byte_of_string "&lt;"
  else if Byte.eqb b ">"%byte then list_byte_of_string "&gt;"
  else if Byte.eqb b x22 then list_byte_of_string "&#34;"
  else [b].

Definition EscapeString (s : string) : string :=
  string_of_list_byte (flat_map escape (list_byte_of_string s)).

End html.

(** ** pkg/rest: the handlers of the web UI *)
Module web.
Import rest.

(** A form request: what [r.ParseForm()] returns, what [r.FormValue(key)]
    and [r.Header.Get(key)] return after it. *)
Record Request : Type := {
  ParseForm : option error;
  FormValue : string -> string;
  Header_Get : string -> string
}.

(** What a handler wrote: [Envelope err] as [Server.error] writes it, or
    the bytes of its [fmt.Fprintf] and [Encode] calls, in order. *)
Inductive written : Type :=
| Envelope (err : error)
| Text (bytes : list byte).

(** A response: its status (200 when the handler sets none), the
    Content-Type the handler set (empty when it set none), and what it
    wrote. *)
Record Response : Type := {
  Code : N;
  ContentType : string;
  Written : written
}.

(** [Server.error] with a format that ends in [%v], and with none. *)
Definition error_ (status : N) (format : string) (err : error) : Response :=
  {| Code := status; ContentType := ""; Written := Envelope (fmt_Errorf format err) |}.

Definition error0 (status : N) (text : string) : Response :=
  {| Code := status; ContentType := ""; Written := Envelope (errors_New text) |}.

Definition quote : list byte := [x22].

(** [<span class="error">label text</span>], the text escaped. *)
Definition span_error (label text : string) : Response :=
  {| Code := 200;
     ContentType := "";
     Written :=
       Text (list_byte_of_string "<span class=" ++ quote
             ++ list_byte_of_string "error" ++ quote
             ++ list_byte_of_string ">" ++ list_byte_of_string label
             ++ list_byte_of_string (html.EscapeString text)
             ++ list_byte_of_string "</span>") |}.

(** The input and the copy button of the HTMX answer of [handleConfigure]. *)
Definition input_fragment (escaped : string) : list byte :=
  list_byte_of_string "<input type=" ++ quote ++ list_byte_of_string "text" ++ quote
  ++ list_byte_of_string " readonly value=" ++ quote
  ++ list_byte_of_string escaped ++ quote ++ list_byte_of_string ">"
  ++ list_byte_of_string "<button class=" ++ quote
  ++ list_byte_of_string "btn-copy" ++ quote
  ++ list_byte_of_string " onclick=" ++ quote
  ++ list_byte_of_string
       "navigator.clipboard.writeText(this.previousElementSibling.value)"
  ++ quote ++ list_byte_of_string ">Copy</button>".

(** One field of the answer of [handleUnseal]. *)
Definition field (label escaped : string) : list byte :=
  list_byte_of_string "<div class=" ++ quote ++ list_byte_of_string "field" ++ quote
  ++ list_byte_of_string "><div class=" ++ quote
  ++ list_byte_of_string "section-label" ++ quote
  ++ list_byte_of_string ">" ++ list_byte_of_string label
  ++ list_byte_of_string "</div><div class=" ++ quote
  ++ list_byte_of_string "preview-box" ++ quote
  ++ list_byte_of_string "><pre>" ++ list_byte_of_string escaped
  ++ list_byte_of_string "</pre></div></div>".

(** [json.NewEncoder(w).Encode(resp)] for the [resp] of [handleConfigure]:
    the object and a newline. *)
Definition Encode (webhookURL : string) : list byte :=
  json.appendString
    ([x7b; x22] ++ list_byte_of_string "webhook_url" ++ [x22; x3a]) webhookURL
  ++ [x7d; x0a].

Section Handlers.

Variable engine : text_template.Engine.

(** [Server.handleConfigure]: encode the provided URL and template,
    effectively preparing the webhook URL for future requests. *)
Definition handleConfigure (s : Server) (c : cache engine) (rd : rand.Reader)
  (r : Request) : outcome (Response * cache engine * rand.Reader) :=
  match ParseForm r with
  | Some err => Return (error_ http.StatusBadRequest "invalid form data: " err, c, rd)
  | None =>
    let urlStr := FormValue r "url" in
    let tmplStr := FormValue r "template" in
    if String.eqb urlStr "" || String.eqb tmplStr ""
    then Return (error0 http.StatusBadRequest "missing URL or template", c, rd)
    else
      match template engine c urlStr tmplStr with
      | (c', Err err) =>
          Return (error_ http.StatusBadRequest "invalid template: " err, c', rd)
      | (c', Ok _) =>
        match Seal (Sealer_ s) urlStr tmplStr rd with
        | (Panic msg, _) => Panic msg
        | (Return (_, Some err), rd') =>
            Return (error_ http.StatusInternalServerError
                           "failed to seal configuration: " err, c', rd')
        | (Return (token, None), rd') =>
          let webhookURL := (BaseURL s ++ "/wh/" ++ token)%string in
          if String.eqb (Header_Get r "HX-Request") "true"
          then Return ({| Code := 200;
                          ContentType := "text/html; charset=utf-8";
                          Written := Text (input_fragment
                                             (html.EscapeString webhookURL)) |},
                       c', rd')
          else Return ({| Code := 200;
                          ContentType := "application/json";
                          Written := Text (Encode webhookURL) |},
                       c', rd')
        end
      end
  end.

(** [Server.handleRender]: renders a Go template with example JSON data
    and returns an HTML preview. *)
Definition handleRender (r : Request) : Response :=
  match ParseForm r with
  | Some err => span_error "invalid form: " (Error err)
  | None =>
    let tmplStr := FormValue r "template" in
    let dataStr := FormValue r "data" in
    if String.eqb tmplStr ""
    then {| Code := 200; ContentType := ""; Written := Text [] |}
    else
      match (if negb (String.eqb dataStr "")
             then json.UnmarshalMap (list_byte_of_string dataStr) None
             else (None, None)) with
      | (_, Some err) => span_error "example data: " (Error err)
      | (data, None) =>
        match text_template.Parse engine tmplStr with
        | Err err => span_error "template: " (Error err)
        | Ok tmpl =>
          match text_template.Execute engine tmpl data with
          | (_, Some err) => span_error "render: " (Error err)
          | (buf, None) =>
              {| Code := 200;
                 ContentType := "text/html; charset=utf-8";
                 Written :=
                   Text (list_byte_of_string "<pre>"
                         ++ list_byte_of_string
                              (html.EscapeString (string_of_list_byte buf))
                         ++ list_byte_of_string "</pre>") |}
          end
        end
      end
  end.

(** The token of [handleUnseal]: a full webhook URL is cut after its last
    [/wh/], a bare token is taken as it is. *)
Definition token_of_raw (raw : string) : outcome string :=
  let idx := gostrings.LastIndex raw "/wh/" in
  if negb (idx =? -1)%Z
  then substr_from raw (idx + Z.of_nat (String.length "/wh/"))
  else Return raw.

(** [Server.handleUnseal]: decodes a token (or full webhook URL) and
    returns the target URL and template. *)
Definition handleUnseal (s : Server) (r : Request) : outcome Response :=
  match ParseForm r with
  | Some err => Return (span_error "invalid form: " (Error err))
  | None =>
    let raw := FormValue r "token" in
    if String.eqb raw ""
    then Return {| Code := 200; ContentType := ""; Written := Text [] |}
    else
      token <- token_of_raw raw ;;
      unsealed <- Unseal (Sealer_ s) token ;;
      match unsealed with
      | (_, _, Some err) => Return (span_error "" (Error err))
      | (urlStr, tmplStr, None) =>
          Return {| Code := 200;
                    ContentType := "text/html; charset=utf-8";
                    Written :=
                      Text (field "Target URL" (html.EscapeString urlStr)
                            ++ field "Template" (html.EscapeString tmplStr)) |}
      end
  end.

End Handlers.

End web.

(** ** main: the source attribute of the debug logger *)
Module main.

(** A [slog.Attr], by the kind of its value. *)
Inductive Value : Type :=
| SourceValue (File : string) (Line : Z)
| StringValue (s : string)
| AnyValue.

Record Attr : Type := { Key : string; Value_ : Value }.

Definition SourceKey : string := "source".

(** The [ReplaceAttr] of [setupLog] in debug mode: shorten source to just
    file:line and trim or extend to 15 characters. *)
Definition ReplaceAttr (json : bool) (a : Attr) : outcome Attr :=
  if negb (String.eqb (Key a) SourceKey) then Return a
  else
    match Value_ a with
    | SourceValue File Line =>
        file <- substr_from File (gostrings.LastIndex File "/" + 1) ;;
        let s := (file ++ ":" ++ gostrings.Itoa Line)%string in
        if json then Return {| Key := "s"; Value_ := StringValue s |}
        else if (15 <? String.length s)%nat
        then s' <- substr_to s 15 ;;
             Return {| Key := "s"; Value_ := StringValue s' |}
        else if (String.length s <? 15)%nat
        then pad <- gostrings.Repeat " " (15 - Z.of_nat (String.length s)) ;;
             Return {| Key := "s"; Value_ := StringValue (s ++ pad) |}
        else Return {| Key := "s"; Value_ := StringValue s |}
    | _ => Panic "interface conversion: interface {} is not *slog.Source"
    end.

End main.

(** ** cmd: the server the [server] command runs *)
Module cmd.

(** The options of [Server] the relay is built from. *)
Record Server : Type := {
  BaseURL : string;
  Secret : string
}.

(** The [rest.Server] of [Server.Execute]. *)
Definition srv (c : Server) : rest.Server :=
  {| rest.BaseURL := gostrings.TrimSuffix (BaseURL c) "/";
     rest.Sealer_ := rest.config_Sealer {| config.Secret := Secret c |} |}.

End cmd.

(** * Auxiliary definitions

    What the statements and proofs below name: the pieces of a token, the
    shapes of the JSON text [Marshal] writes, and the sealer, server,
    random sources and requests of the examples. *)

(** The key, block cipher and AEAD a sealer derives from its secret. *)
Definition key_of (s : config.Sealer) : list byte :=
  sha256.Sum256 (list_byte_of_string (config.Secret s)).

Definition block_of (s : config.Sealer) : cipher.Block :=
  {| cipher.BlockSize := aes.BlockSize;
     cipher.Encrypt := aes.encryptBlock (aes.expandKey (key_of s)) |}.

Definition gcm_of (s : config.Sealer) : cipher.AEAD :=
  {| cipher.cipher := block_of s;
     cipher.nonceSize := cipher.gcmStandardNonceSize;
     cipher.tagSize := cipher.gcmTagSize |}.

(** The token [Seal] mints from the nonce [nonce]. *)
Definition token_of (s : config.Sealer) (nonce : list byte) (u t : string) : string :=
  base64.EncodeToString
    (nonce ++
     let pt := fst (config.Marshal {| config.URL := u; config.Tmpl := t |}) in
     let ct := cipher.counterCrypt (length pt) (gcm_of s) nonce 2 pt in
     ct ++ cipher.auth (gcm_of s) nonce ct).

(** An escape of four hexadecimal digits in a JSON string. *)
Definition u_escape (a b c d : byte) : list byte := [x5c; "u"%byte; a; b; c; d].

(** The JSON string literal [appendString] writes for [s]. *)
Definition quoted (s : string) : list byte :=
  let p := list_byte_of_string s in [x22] ++ json.escape (length p) p ++ [x22].

(** One member of the object [Marshal] writes, and the byte after it. *)
Definition member (key value : string) (next : byte) : list byte :=
  quoted key ++ [x3a] ++ quoted value ++ [next].



(** All bytes, and all byte strings of a length. *)
Definition all_bytes : list byte :=
  map (fun i => byte_of_N (N.of_nat i)) (seq 0 256).

Fixpoint all_lists (n : nat) : list (list byte) :=
  match n with
  | O => [[]]
  | S n' => flat_map (fun b => map (cons b) (all_lists n')) all_bytes
  end.

(** A transport whose target is down, and one whose target answers 200 with
    the body it was sent. *)
Definition refusing : http.Package :=
  {| http.refuse := fun _ _ => None;
     http.Do := fun _ => Err (errors_New "connection refused") |}.

Definition echo : http.Package :=
  {| http.refuse := fun _ _ => None;
     http.Do := fun req =>
       Ok {| http.StatusCode := 200; http.ResponseBody := (http.Body req, None) |} |}.

(** The sealer and the server of the tests. *)
Definition test_sealer : config.Sealer := {| config.Secret := "test-secret" |}.

Definition test_server : rest.Server :=
  {| rest.BaseURL := "http://localhost:8080";
     rest.Sealer_ := rest.config_Sealer test_sealer |}.

(** Two random sources: one that delivers zero bytes only, one that counts. *)
Definition zeros : rand.Reader :=
  {| rand.stream := fun _ => x00; rand.failure := None |}.

Definition counting : rand.Reader :=
  {| rand.stream := fun i => byte_of_N (N.of_nat i); rand.failure := None |}.

(** The scenario of the static template: its target, its token, a POST with
    a token and a body, the outbound request and the cache it leaves. *)
Definition hook : string := "https://example.com/hook".

Definition static_token : string :=
  token_of test_sealer (repeat x00 12) hook "static-payload".

Definition post (token : string) (body : list byte) : rest.Request :=
  {| rest.Method := "POST"; rest.PathValue_token := token; rest.Body := (body, None) |}.

Definition static_request : http.Request :=
  {| http.Method := "POST"; http.URL := hook;
     http.Body := list_byte_of_string "static-payload" |}.

Definition static_cache : rest.cache text_template.text_only :=
  <[rest.fingerprint hook "static-payload" := "static-payload"%string]> ∅.

(** The decoded bytes of the static token, and [data] with one bit of its
    byte [k] flipped. *)
Definition static_data : list byte := fst (base64.DecodeString static_token).

Definition flip_bit (k : nat) (bit : N) (data : list byte) : list byte :=
  firstn k data
  ++ match skipn k data with
     | b :: rest => byte_of_N (N.lxor (Byte.to_N b) (2 ^ bit)) :: rest
     | [] => []
     end.

(** The text of the error of an [Unseal], empty when it succeeds. *)
Definition failure_text (o : outcome (string * string * option error)) : string :=
  match o with
  | Return (_, _, Some e) => Error e
  | Return (_, _, None) => ""
  | Panic p => p
  end.

(** Two configurations whose URL and template concatenate to the same
    text, and their tokens. *)
Definition token_a_bc : string :=
  token_of test_sealer (repeat x00 12) "https://example.com/a" "bc".

Definition token_ab_c : string :=
  token_of test_sealer (repeat x00 12) "https://example.com/ab" "c".

(** ** Auxiliary definitions of the web handlers *)

(** The characters of a token: the URL alphabet of base64 and the padding. *)
Definition urlSafe (b : byte) : bool :=
  existsb (Byte.eqb b) base64.encodeURL || Byte.eqb b base64.padChar.

(** The bytes that open or close HTML markup or an attribute value. *)
Definition markup (b : byte) : bool :=
  Byte.eqb b "<"%byte || Byte.eqb b ">"%byte || Byte.eqb b x22 || Byte.eqb b "'"%byte.

(** How often a byte occurs. *)
Fixpoint count (b : byte) (l : list byte) : nat :=
  match l with
  | [] => 0
  | c :: l' => (if Byte.eqb b c then 1 else 0) + count b l'
  end.

(** The bytes a response wrote, an envelope apart. *)
Definition text_of (w : web.written) : list byte :=
  match w with
  | web.Text bytes => bytes
  | web.Envelope _ => []
  end.

(** The successful answer of [handleRender] for the output [buf]. *)
Definition preview (buf : list byte) : web.Response :=
  {| web.Code := 200;
     web.ContentType := "text/html; charset=utf-8";
     web.Written :=
       web.Text (list_byte_of_string "<pre>"
                 ++ list_byte_of_string (html.EscapeString (string_of_list_byte buf))
                 ++ list_byte_of_string "</pre>") |}.

(** A transport whose target answers every request with one status and one
    body. *)
Definition answering (status : N) (body : list byte) : http.Package :=
  {| http.refuse := fun _ _ => None;
     http.Do := fun _ =>
       Ok {| http.StatusCode := status; http.ResponseBody := (body, None) |} |}.

(** A form that parsed, with its fields and its [HX-Request] header. *)
Definition form (fields : list (string * string)) (hx : string) : web.Request :=
  {| web.ParseForm := None;
     web.FormValue := fun key =>
       match find (fun kv => String.eqb (fst kv) key) fields with
       | Some kv => snd kv
       | None => ""%string
       end;
     web.Header_Get := fun key =>
       if String.eqb key "HX-Request" then hx else ""%string |}.

(** The form of the static scenario. *)
Definition static_form : web.Request :=
  form [("url"%string, hook); ("template"%string, "static-payload"%string)] "".









(** * Proofs *)

Section Bytes.
Local Open Scope N_scope.

Lemma to_N_byte_of_N (n : N) : Byte.to_N (byte_of_N n) = n mod 256.
Proof.
  unfold byte_of_N.
  destruct (Byte.of_N (n mod 256)) as [b|] eqn:E.
  - apply Byte.to_of_N; exact E.
  - apply Byte.of_N_None_iff in E.
    pose proof (N.mod_upper_bound n 256). lia.
Qed.

Lemma byte_of_N_to_N (b : byte) : byte_of_N (Byte.to_N b) = b.
Proof.
  unfold byte_of_N.
  rewrite N.mod_small by (pose proof (Byte.to_N_bounded b); lia).
  now rewrite Byte.of_to_N.
Qed.

Lemma to_N_lt (b : byte) : Byte.to_N b < 256.
Proof. pose proof (Byte.to_N_bounded b); lia. Qed.

Lemma lxor_lt_256 (a b : N) : a < 256 -> b < 256 -> N.lxor a b < 256.
Proof.
  intros Ha Hb.
  destruct (N.eq_dec (N.lxor a b) 0) as [->|Hz]; [lia|].
  apply N.log2_lt_pow2 with (b := 8); [lia|].
  eapply N.le_lt_trans; [apply N.log2_lxor|].
  apply N.max_lub_lt.
  - destruct (N.eq_dec a 0) as [->|]; [reflexivity|]. apply N.log2_lt_pow2; lia.
  - destruct (N.eq_dec b 0) as [->|]; [reflexivity|]. apply N.log2_lt_pow2; lia.
Qed.

Lemma byte_xor_involutive (a b : byte) : byte_xor (byte_xor a b) b = a.
Proof.
  unfold byte_xor. rewrite to_N_byte_of_N.
  rewrite N.mod_small by (apply lxor_lt_256; apply to_N_lt).
  rewrite N.lxor_assoc, N.lxor_nilpotent, N.lxor_0_r.
  apply byte_of_N_to_N.
Qed.

Lemma ConstantTimeCompare_refl (a : list byte) : ConstantTimeCompare a a = true.
Proof.
  induction a as [|x a IH]; simpl; [reflexivity|].
  rewrite IH, andb_true_r. now apply Byte.byte_dec_lb.
Qed.

Lemma ConstantTimeCompare_eq (a b : list byte) :
  ConstantTimeCompare a b = true -> a = b.
Proof.
  revert b; induction a as [|x a IH]; intros [|y b]; simpl; try discriminate.
  - reflexivity.
  - intros H. apply andb_true_iff in H as [H1 H2].
    apply Byte.byte_dec_bl in H1. f_equal; auto.
Qed.
End Bytes.

Section Base64.
Local Open Scope N_scope.
Import base64.

Ltac Zify.zify_post_hook ::= Z.to_euclidean_division_equations.

Lemma byte_of_N_mod (n : N) : byte_of_N (n mod 256) = byte_of_N n.
Proof. unfold byte_of_N. now rewrite N.Div0.mod_mod. Qed.

Lemma byte_of_N_spec (n : N) (b : byte) : n mod 256 = Byte.to_N b -> byte_of_N n = b.
Proof. intros H. rewrite <- byte_of_N_mod, H. apply byte_of_N_to_N. Qed.

Lemma decodeMap_encode (v : N) : v < 64 -> decodeMap (encode v) = Some v.
Proof.
  intros Hv.
  assert (H : forallb (fun i => match decodeMap (encode (N.of_nat i)) with
                                | Some w => w =? N.of_nat i
                                | None => false
                                end) (seq 0 64) = true) by (vm_compute; reflexivity).
  rewrite forallb_forall in H.
  specialize (H (N.to_nat v)).
  rewrite N2Nat.id in H.
  destruct (decodeMap (encode v)) as [w|].
  - f_equal. apply N.eqb_eq. apply H. apply in_seq. lia.
  - discriminate H. apply in_seq. lia.
Qed.

Lemma quantum4 (a b c : byte) :
  let val := val3 a b c in
  quantum 4 (val / 262144 mod 64) (val / 4096 mod 64) (val / 64 mod 64) (val mod 64)
  = [a; b; c].
Proof.
  intros val. unfold quantum. simpl firstn.
  pose proof (to_N_lt a). pose proof (to_N_lt b). pose proof (to_N_lt c).
  subst val; unfold val3.
  f_equal; [|f_equal; [|f_equal]]; apply byte_of_N_spec; lia.
Qed.

Lemma quantum3 (a b : byte) :
  let val := val3 a b x00 in
  quantum 3 (val / 262144 mod 64) (val / 4096 mod 64) (val / 64 mod 64) 0 = [a; b].
Proof.
  intros val. unfold quantum. simpl firstn.
  pose proof (to_N_lt a). pose proof (to_N_lt b).
  subst val; unfold val3. change (Byte.to_N x00) with 0.
  f_equal; [|f_equal]; apply byte_of_N_spec; lia.
Qed.

Lemma quantum2 (a : byte) :
  let val := val3 a x00 x00 in
  quantum 2 (val / 262144 mod 64) (val / 4096 mod 64) 0 0 = [a].
Proof.
  intros val. unfold quantum. simpl firstn.
  pose proof (to_N_lt a).
  subst val; unfold val3. change (Byte.to_N x00) with 0.
  f_equal; apply byte_of_N_spec; lia.
Qed.

Lemma mod64_lt (n : N) : n mod 64 < 64.
Proof. apply N.mod_upper_bound. lia. Qed.

Lemma decode_Encode (bs : list byte) :
  forall si, decode (Encode bs) si [] = (bs, None).
Proof.
  remember (length bs) as n eqn:Hn. revert bs Hn.
  induction n as [n IH] using lt_wf_ind. intros bs Hn si.
  destruct bs as [|a [|b [|c rest]]].
  - reflexivity.
  - cbn [Encode decode].
    rewrite !decodeMap_encode by apply mod64_lt.
    cbn -[quantum val3 N.div N.modulo N.add].
    now rewrite quantum2.
  - cbn [Encode decode].
    rewrite !decodeMap_encode by apply mod64_lt.
    cbn -[quantum val3 N.div N.modulo N.add].
    now rewrite quantum3.
  - cbn [Encode decode].
    rewrite !decodeMap_encode by apply mod64_lt. cbn [app].
    rewrite (IH (length rest)) by (simpl in Hn; lia || reflexivity).
    now rewrite quantum4.
Qed.

Lemma DecodeString_EncodeToString (bs : list byte) :
  DecodeString (EncodeToString bs) = (bs, None).
Proof.
  unfold DecodeString, EncodeToString.
  rewrite list_byte_of_string_of_list_byte. apply decode_Encode.
Qed.

Lemma EncodeToString_inj (a b : list byte) :
  EncodeToString a = EncodeToString b -> a = b.
Proof.
  intros H. pose proof (DecodeString_EncodeToString a) as Ha.
  rewrite H, DecodeString_EncodeToString in Ha. congruence.
Qed.
End Base64.

Section GCM.
Import cipher.

Lemma length_xor_bytes (a b : list byte) :
  length (xor_bytes a b) = Nat.min (length a) (length b).
Proof.
  revert b; induction a as [|x a IH]; intros [|y b]; simpl; auto.
Qed.

Lemma xor_bytes_involutive (a k : list byte) :
  length a <= length k -> xor_bytes (xor_bytes a k) k = a.
Proof.
  revert k; induction a as [|x a IH]; intros [|y k] H; simpl in *; try lia; auto.
  rewrite byte_xor_involutive, IH by lia. reflexivity.
Qed.

Lemma length_be_bytes (k : nat) (n : N) : length (sha256.be_bytes k n) = k.
Proof. unfold sha256.be_bytes. now rewrite length_map, length_seq. Qed.

Variable g : AEAD.
Hypothesis Encrypt_length : forall b, length (Encrypt (cipher g) b) = 16.

Lemma length_counterCrypt (nonce : list byte) :
  forall fuel ctr src, length src <= fuel ->
    length (counterCrypt fuel g nonce ctr src) = length src.
Proof.
  induction fuel as [|fuel IH]; intros ctr [|x src] H;
    try reflexivity; [simpl in H; lia|].
  cbn [counterCrypt].
  rewrite length_app, length_xor_bytes, Encrypt_length.
  rewrite IH by (rewrite length_skipn; simpl in *; lia).
  rewrite length_firstn, length_skipn. lia.
Qed.

Lemma counterCrypt_step (nonce : list byte) (fuel : nat) (ctr : N) (src : list byte) :
  src <> [] ->
  counterCrypt (S fuel) g nonce ctr src
  = xor_bytes (firstn 16 src) (Encrypt (cipher g) (counter_block nonce ctr))
    ++ counterCrypt fuel g nonce (ctr + 1) (skipn 16 src).
Proof. destruct src; [congruence|reflexivity]. Qed.

Lemma counterCrypt_nil (nonce : list byte) (fuel : nat) (ctr : N) :
  counterCrypt fuel g nonce ctr [] = [].
Proof. now destruct fuel. Qed.

Lemma counterCrypt_involutive (nonce : list byte) :
  forall f1 f2 ctr src, length src <= f1 -> length src <= f2 ->
    counterCrypt f2 g nonce ctr (counterCrypt f1 g nonce ctr src) = src.
Proof.
  induction f1 as [|f1 IH]; intros f2 ctr src H1 H2.
  - destruct src; simpl in *; [|lia]. now destruct f2.
  - destruct src as [|x src]; [now destruct f2|].
    destruct f2 as [|f2]; [simpl in H2; lia|].
    rewrite (@counterCrypt_step nonce f1 ctr (x :: src)) by discriminate.
    set (blk := firstn 16 (x :: src)).
    set (ks := Encrypt (cipher g) (counter_block nonce ctr)).
    set (tail := counterCrypt f1 g nonce (ctr + 1) (skipn 16 (x :: src))).
    assert (Hblk : length blk <= length ks).
    { unfold blk, ks. rewrite Encrypt_length, length_firstn. lia. }
    assert (Hlen : length (xor_bytes blk ks) = length blk).
    { rewrite length_xor_bytes. lia. }
    assert (Hpos : 1 <= length blk).
    { unfold blk. rewrite length_firstn. simpl. lia. }
    assert (Hne : xor_bytes blk ks ++ tail <> []).
    { intros E. apply (f_equal (@length byte)) in E.
      rewrite length_app, Hlen in E. cbn [length] in E. lia. }
    rewrite (@counterCrypt_step nonce f2 ctr _ Hne).
    fold ks.
    assert (Hcase : firstn 16 (xor_bytes blk ks ++ tail) = xor_bytes blk ks
                    /\ skipn 16 (xor_bytes blk ks ++ tail) = tail).
    { destruct (Nat.le_gt_cases 16 (length (x :: src))) as [Hge|Hlt].
      - assert (H16 : length blk = 16) by (unfold blk; rewrite length_firstn; lia).
        rewrite firstn_app, skipn_app, Hlen, H16, Nat.sub_diag.
        rewrite firstn_all2, skipn_all2 by lia.
        cbn [firstn skipn app]. now rewrite app_nil_r.
      - assert (Ht : tail = []).
        { unfold tail. rewrite skipn_all2 by lia. apply counterCrypt_nil. }
        rewrite Ht, app_nil_r.
        assert (length blk <= 16) by (unfold blk; rewrite length_firstn; lia).
        rewrite firstn_all2, skipn_all2 by lia. auto. }
    destruct Hcase as [-> ->].
    rewrite xor_bytes_involutive by exact Hblk.
    unfold tail. rewrite IH by (rewrite length_skipn; simpl in *; lia).
    apply firstn_skipn.
Qed.

Hypothesis tagSize_16 : tagSize g = 16.

Lemma length_auth (nonce ct : list byte) : length (auth g nonce ct) = 16.
Proof.
  unfold auth. rewrite length_firstn, length_xor_bytes, length_be_bytes,
    Encrypt_length, tagSize_16. reflexivity.
Qed.

Lemma Open_Seal (dst nonce pt sealed : list byte) :
  Seal g dst nonce pt = Return sealed ->
  exists box, sealed = dst ++ box /\ Open g [] nonce box = Return (pt, None).
Proof.
  unfold Seal, Open. destruct (negb (length nonce =? nonceSize g)); [discriminate|].
  intros [= <-].
  set (ct := counterCrypt (length pt) g nonce 2 pt).
  exists (ct ++ auth g nonce ct). split; [reflexivity|].
  assert (Hct : length ct = length pt) by (apply length_counterCrypt; lia).
  rewrite length_app, length_auth, tagSize_16.
  replace (length ct + 16 <? 16) with false by (symmetry; apply Nat.ltb_ge; lia).
  replace (length ct + 16 - 16) with (length ct) by lia.
  rewrite firstn_app, skipn_app, Nat.sub_diag, firstn_all, skipn_all.
  cbn [firstn skipn app]. rewrite app_nil_r.
  rewrite ConstantTimeCompare_refl. cbn [negb].
  unfold ct at 2. rewrite Hct, counterCrypt_involutive by lia. reflexivity.
Qed.

End GCM.

Lemma length_encryptBlock (w : list N) (src : list byte) :
  length (aes.encryptBlock w src) = 16.
Proof. unfold aes.encryptBlock. now rewrite length_map, length_seq. Qed.

Lemma length_Sum256 (data : list byte) : length (sha256.Sum256 data) = 32.
Proof.
  unfold sha256.Sum256.
  destruct (sha256.blocks _ _ _) as [[[[[[[a b] c] d] e] f] g] h].
  now rewrite length_map, length_seq.
Qed.

Local Open Scope N_scope.

Ltac split_if :=
  match goal with
  | |- context [if ?c then _ else _] =>
      let E := fresh "E" in destruct c eqn:E
  | H : context [if ?c then _ else _] |- _ =>
      let E := fresh "E" in destruct c eqn:E
  end.

Ltac bool_to_prop :=
  repeat match goal with
  | H : (_ && _)%bool = true |- _ => apply andb_true_iff in H as [? ?]
  | H : (_ || _)%bool = false |- _ => apply orb_false_iff in H as [? ?]
  | H : (_ && _)%bool = false |- _ => apply andb_false_iff in H
  | H : (_ || _)%bool = true |- _ => apply orb_true_iff in H
  | H : negb _ = true |- _ => apply negb_true_iff in H
  | H : negb _ = false |- _ => apply negb_false_iff in H
  | H : (_ <? _) = true |- _ => apply N.ltb_lt in H
  | H : (_ <? _) = false |- _ => apply N.ltb_ge in H
  | H : (_ <=? _) = true |- _ => apply N.leb_le in H
  | H : (_ <=? _) = false |- _ => apply N.leb_gt in H
  | H : (_ =? _) = true |- _ => apply N.eqb_eq in H
  | H : (_ =? _) = false |- _ => apply N.eqb_neq in H
  | H : _ \/ _ |- _ => destruct H
  end.

Ltac split_match H :=
  match type of H with
  | context [match ?l with [] => _ | _ :: _ => _ end] => is_var l; destruct l
  | context [if ?c then _ else _] => let E := fresh "E" in destruct c eqn:E
  end.

Local Close Scope N_scope.

Section UTF8.
Local Open Scope N_scope.
Import utf8.

Ltac Zify.zify_post_hook ::= Z.to_euclidean_division_equations.

Lemma byte_of_N_id (n : N) (b : byte) : n = Byte.to_N b -> byte_of_N n = b.
Proof. intros ->. apply byte_of_N_to_N. Qed.

Lemma accept_cases (p0 : N) :
  accept p0 = (if p0 =? 0xE0 then 0xA0 else if p0 =? 0xF0 then 0x90 else 0x80,
               if p0 =? 0xED then 0x9F else if p0 =? 0xF4 then 0x8F else 0xBF).
Proof.
  unfold accept.
  destruct (N.eqb_spec p0 0xE0) as [->|]; [reflexivity|].
  destruct (N.eqb_spec p0 0xED) as [->|]; [reflexivity|].
  destruct (N.eqb_spec p0 0xF0) as [->|]; [reflexivity|].
  destruct (N.eqb_spec p0 0xF4) as [->|]; reflexivity.
Qed.

Lemma DecodeRune_well_formed (p : list byte) (c : N) (size : nat) :
  DecodeRune p = (c, size) ->
  ((c =? RuneError) && (size =? 1)%nat)%bool = false ->
  p <> [] ->
  length (firstn size p) = size
  /\ EncodeRune c = firstn size p
  /\ forall q, DecodeRune (firstn size p ++ q) = (c, size).
Proof.
  intros H Hwf Hne.
  destruct p as [|b0 p]; [congruence|clear Hne].
  unfold DecodeRune in H. rewrite accept_cases in H.
  unfold RuneSelf, RuneError in *.
  pose proof (to_N_lt b0) as Hb0.
  repeat split_match H;
    try (injection H as <- <-);
    try (vm_compute in Hwf; discriminate Hwf);
    (split; [reflexivity|split;
      [ | intros q; cbn [firstn app]; unfold DecodeRune, RuneSelf, RuneError;
          rewrite accept_cases;
          repeat (split_if; try congruence); reflexivity ]]).
  all: clear Hwf; unfold in_range, cont in *; cbn [firstn].
  all: repeat match goal with b : byte |- _ =>
         lazymatch goal with
         | H : Byte.to_N b < 256 |- _ => fail
         | _ => pose proof (to_N_lt b)
         end end.
  all: bool_to_prop.
  all: unfold EncodeRune, encode3, MaxRune, RuneError in *.
  all: repeat (split_if; bool_to_prop; try lia).
  all: repeat (f_equal; try (apply byte_of_N_id; lia)).
Qed.

End UTF8.

Section JSONString.
Local Open Scope N_scope.
Import json.

Lemma eqb_false_of_N (a b : byte) : Byte.to_N a <> Byte.to_N b -> Byte.eqb a b = false.
Proof.
  intros H. destruct (Byte.eqb a b) eqn:E; [|reflexivity].
  apply Byte.byte_dec_bl in E. congruence.
Qed.

Lemma escape_nil (fuel : nat) : escape fuel [] = [].
Proof. now destruct fuel. Qed.

Lemma coerce_aux_nil (fuel : nat) : utf8.coerce_aux fuel [] = [].
Proof. now destruct fuel. Qed.

Lemma DecodeRune_pos (p : list byte) (c : N) (size : nat) :
  utf8.DecodeRune p = (c, size) ->
  ((c =? utf8.RuneError) && (size =? 1)%nat)%bool = false ->
  p <> [] -> (1 <= size)%nat.
Proof.
  intros H Hwf Hne.
  destruct (DecodeRune_well_formed p c size H Hwf Hne) as (_ & _ & Hq).
  destruct size; [|lia].
  specialize (Hq [x00]). cbn in Hq. discriminate Hq.
Qed.

Lemma escape_ascii (fuel : nat) (b : byte) (s : list byte) :
  (Byte.to_N b <? utf8.RuneSelf) = true ->
  escape (S fuel) (b :: s) = escape 1 [b] ++ escape fuel s.
Proof.
  intros H. cbn [escape]. rewrite H, ?escape_nil.
  repeat split_if; reflexivity.
Qed.

Lemma escape_ascii_length (b : byte) :
  (Byte.to_N b <? utf8.RuneSelf) = true -> (1 <= length (escape 1 [b]))%nat.
Proof.
  intros H. cbn [escape]. rewrite H, ?escape_nil.
  repeat split_if; cbn [length app]; lia.
Qed.

Lemma string_lit_ascii (b : byte) (f : nat) (q : list byte) :
  (Byte.to_N b <? utf8.RuneSelf) = true ->
  string_lit (S f) (escape 1 [b] ++ q)
  = match string_lit f q with
    | Ok (s, r) => Ok (b :: s, r)
    | Err e => Err e
    end.
Proof.
  intros H.
  destruct b; try (vm_compute in H; discriminate H); reflexivity.
Qed.

Lemma coerce_aux_ascii (fuel : nat) (b : byte) (s : list byte) :
  (Byte.to_N b <? utf8.RuneSelf) = true ->
  utf8.coerce_aux (S fuel) (b :: s) = b :: utf8.coerce_aux fuel s.
Proof.
  intros H. cbn [utf8.coerce_aux utf8.DecodeRune]. rewrite H.
  replace (Byte.to_N b =? utf8.RuneError) with false; [reflexivity|].
  symmetry. apply N.eqb_neq. apply N.ltb_lt in H.
  unfold utf8.RuneSelf, utf8.RuneError in *. lia.
Qed.

Lemma string_lit_ufffd (f : nat) (q : list byte) :
  string_lit (S f) (u_escape "f" "f" "f" "d" ++ q)
  = match string_lit f q with
    | Ok (s, r) => Ok (utf8.EncodeRune utf8.RuneError ++ s, r)
    | Err e => Err e
    end.
Proof. reflexivity. Qed.

Lemma string_lit_u2028 (f : nat) (q : list byte) :
  string_lit (S f) (u_escape "2" "0" "2" "8" ++ q)
  = match string_lit f q with
    | Ok (s, r) => Ok (utf8.EncodeRune 0x2028 ++ s, r)
    | Err e => Err e
    end.
Proof. reflexivity. Qed.

Lemma string_lit_u2029 (f : nat) (q : list byte) :
  string_lit (S f) (u_escape "2" "0" "2" "9" ++ q)
  = match string_lit f q with
    | Ok (s, r) => Ok (utf8.EncodeRune 0x2029 ++ s, r)
    | Err e => Err e
    end.
Proof. reflexivity. Qed.

Lemma string_lit_raw (b : byte) (tail : list byte) (f : nat) :
  (Byte.to_N b <? utf8.RuneSelf) = false ->
  string_lit (S f) (b :: tail)
  = match string_lit f (skipn (snd (utf8.DecodeRune (b :: tail))) (b :: tail)) with
    | Ok (s, r) => Ok (utf8.EncodeRune (fst (utf8.DecodeRune (b :: tail))) ++ s, r)
    | Err e => Err e
    end.
Proof.
  intros H. pose proof H as H'. apply N.ltb_ge in H'. unfold utf8.RuneSelf in H'.
  cbn [string_lit].
  rewrite (eqb_false_of_N b x22) by (change (Byte.to_N x22) with 34; lia).
  rewrite (eqb_false_of_N b x5c) by (change (Byte.to_N x5c) with 92; lia).
  replace (Byte.to_N b <? 32) with false by (symmetry; apply N.ltb_ge; lia).
  rewrite H. now destruct (utf8.DecodeRune (b :: tail)).
Qed.

(** Decoding the escaped text of [s] up to the closing quote gives [s]
    coerced to valid UTF-8. *)
Lemma string_lit_escape :
  forall fuel s rest f',
    (length s <= fuel)%nat ->
    (length (escape fuel s) < f')%nat ->
    string_lit f' (escape fuel s ++ x22 :: rest)
    = Ok (utf8.coerce_aux fuel s, rest).
Proof.
  induction fuel as [|fuel IH]; intros s rest f' Hs Hf.
  - destruct s; [|simpl in Hs; lia].
    destruct f'; [simpl in Hf; lia|]. reflexivity.
  - destruct s as [|b s].
    + destruct f'; [simpl in Hf; lia|]. reflexivity.
    + assert (Hs' : (length s <= fuel)%nat) by (simpl in Hs; lia).
      destruct (Byte.to_N b <? utf8.RuneSelf) eqn:Hascii.
      * (* an ASCII byte *)
        rewrite escape_ascii in Hf |- * by exact Hascii.
        pose proof (escape_ascii_length b Hascii).
        rewrite length_app in Hf.
        destruct f' as [|f'']; [lia|].
        rewrite <- app_assoc, string_lit_ascii by exact Hascii.
        rewrite IH by (try assumption; lia).
        now rewrite coerce_aux_ascii.
      * (* a byte outside ASCII *)
        set (p := b :: s) in *.
        destruct (utf8.DecodeRune p) as [c size] eqn:HD.
        destruct ((c =? utf8.RuneError) && (size =? 1)%nat)%bool eqn:Hwf.
        -- (* no valid encoding starts here *)
           assert (He : escape (S fuel) p = u_escape "f" "f" "f" "d" ++ escape fuel s).
           { unfold p. cbn [escape]. fold p. now rewrite Hascii, HD, Hwf. }
           rewrite He in Hf |- *. rewrite length_app in Hf. cbn [length u_escape] in Hf.
           destruct f' as [|f'']; [lia|].
           rewrite <- app_assoc, string_lit_ufffd.
           rewrite IH by (try assumption; lia).
           unfold p. cbn [utf8.coerce_aux]. fold p. now rewrite HD, Hwf.
        -- destruct (DecodeRune_well_formed p c size HD Hwf ltac:(discriminate))
             as (Hlen & Henc & Hpre).
           pose proof (DecodeRune_pos p c size HD Hwf ltac:(discriminate)) as Hpos.
           assert (Hrest : (length (skipn size p) <= fuel)%nat).
           { rewrite length_skipn. unfold p in *. cbn [length] in *. lia. }
           assert (Hco : utf8.coerce_aux (S fuel) p
                         = firstn size p ++ utf8.coerce_aux fuel (skipn size p)).
           { unfold p. cbn [utf8.coerce_aux]. fold p. now rewrite HD, Hwf. }
           rewrite Hco.
           destruct ((c =? 0x2028) || (c =? 0x2029))%bool eqn:Hsep.
           ++ assert (He : escape (S fuel) p
                          = u_escape "2" "0" "2" (hex.digit (c mod 16))
                            ++ escape fuel (skipn size p)).
              { unfold p. cbn [escape]. fold p. now rewrite Hascii, HD, Hwf, Hsep. }
              rewrite He in Hf |- *. rewrite length_app in Hf.
              cbn [length u_escape] in Hf.
              destruct f' as [|f'']; [lia|].
              rewrite <- app_assoc, <- Henc.
              apply orb_true_iff in Hsep as [Hc|Hc]; apply N.eqb_eq in Hc; subst c.
              ** change (hex.digit (0x2028 mod 16)) with "8"%byte.
                 rewrite string_lit_u2028, IH by (try assumption; lia). reflexivity.
              ** change (hex.digit (0x2029 mod 16)) with "9"%byte.
                 rewrite string_lit_u2029, IH by (try assumption; lia). reflexivity.
           ++ assert (He : escape (S fuel) p
                          = firstn size p ++ escape fuel (skipn size p)).
              { unfold p. cbn [escape]. fold p. now rewrite Hascii, HD, Hwf, Hsep. }
              rewrite He in Hf |- *. rewrite length_app, Hlen in Hf.
              destruct f' as [|f'']; [lia|].
              rewrite <- app_assoc.
              set (q := escape fuel (skipn size p) ++ x22 :: rest).
              assert (Hhd : exists t, firstn size p ++ q = b :: t).
              { unfold p. destruct size; [lia|]. cbn [firstn app]. eauto. }
              destruct Hhd as [t Ht]. rewrite Ht.
              rewrite string_lit_raw by exact Hascii.
              rewrite <- Ht, Hpre. cbn [fst snd].
              rewrite skipn_app, Hlen, Nat.sub_diag, skipn_all2 by lia.
              unfold q. rewrite skipn_O. cbn [app].
              rewrite IH by (try assumption; lia).
              now rewrite Henc.
Qed.

Lemma coerce_aux_valid :
  forall fuel p, (length p <= fuel)%nat ->
    utf8.Valid_aux fuel p = true -> utf8.coerce_aux fuel p = p.
Proof.
  induction fuel as [|fuel IH]; intros p Hp Hv.
  - destruct p; [reflexivity|simpl in Hp; lia].
  - destruct p as [|b s]; [reflexivity|].
    set (p := b :: s) in *.
    unfold p in Hv |- *. cbn [utf8.Valid_aux utf8.coerce_aux] in Hv |- *. fold p in Hv |- *.
    destruct (utf8.DecodeRune p) as [c size] eqn:HD.
    destruct ((c =? utf8.RuneError) && (size =? 1)%nat)%bool eqn:Hwf; [discriminate|].
    pose proof (DecodeRune_pos p c size HD Hwf ltac:(discriminate)) as Hpos.
    rewrite IH; [apply firstn_skipn| |exact Hv].
    rewrite length_skipn. unfold p in *. cbn [length] in *. lia.
Qed.

Lemma coerce_valid (s : string) : utf8.ValidString s = true -> utf8.coerce s = s.
Proof.
  unfold utf8.ValidString, utf8.Valid, utf8.coerce. intros H.
  rewrite coerce_aux_valid by (auto; lia).
  apply string_of_list_byte_of_string.
Qed.

(** Coercion never shortens, and lengthens what is not valid: a byte that
    begins no encoding becomes the three bytes of U+FFFD. *)
Lemma length_coerce_aux :
  forall fuel p, (length p <= fuel)%nat ->
    (length p <= length (utf8.coerce_aux fuel p))%nat
    /\ (utf8.Valid_aux fuel p = false ->
        (length p < length (utf8.coerce_aux fuel p))%nat).
Proof.
  induction fuel as [|fuel IH]; intros p Hp.
  - destruct p; [split; [cbn; lia|discriminate]|simpl in Hp; lia].
  - destruct p as [|b s]; [split; [cbn; lia|discriminate]|].
    set (p := b :: s) in *.
    unfold p. cbn [utf8.Valid_aux utf8.coerce_aux]. fold p.
    destruct (utf8.DecodeRune p) as [c size] eqn:HD.
    destruct ((c =? utf8.RuneError) && (size =? 1)%nat)%bool eqn:Hwf.
    + destruct (IH s) as [H1 _]; [unfold p in Hp; cbn [length] in Hp; lia|].
      rewrite length_app. unfold p. cbn [skipn length] in *.
      change (length (utf8.EncodeRune utf8.RuneError)) with 3%nat.
      rewrite skipn_O. split; intros; lia.
    + pose proof (DecodeRune_pos p c size HD Hwf ltac:(discriminate)) as Hpos.
      destruct (DecodeRune_well_formed p c size HD Hwf ltac:(discriminate))
        as (Hl & _ & _).
      assert (Hsplit : length p = (size + length (skipn size p))%nat).
      { rewrite <- (firstn_skipn size p) at 1. now rewrite length_app, Hl. }
      destruct (IH (skipn size p)) as [H1 H2]; [lia|].
      rewrite length_app, Hl. split; [lia|].
      intros Hv. specialize (H2 Hv). lia.
Qed.

Lemma coerce_invalid (s : string) : utf8.ValidString s = false -> utf8.coerce s <> s.
Proof.
  unfold utf8.ValidString, utf8.Valid, utf8.coerce. intros H E.
  apply (f_equal list_byte_of_string) in E.
  rewrite list_byte_of_string_of_list_byte in E.
  apply (f_equal (@length byte)) in E.
  destruct (length_coerce_aux (length (list_byte_of_string s))
              (list_byte_of_string s) (Nat.le_refl _)) as [_ H2].
  specialize (H2 H). lia.
Qed.

(** Coercion leaves exactly the valid strings as they are. *)
Lemma coerce_fixed (s : string) : utf8.coerce s = s <-> utf8.ValidString s = true.
Proof.
  split; [|apply coerce_valid].
  intros E. destruct (utf8.ValidString s) eqn:H; [reflexivity|].
  now apply coerce_invalid in H.
Qed.

End JSONString.

Section JSONObject.
Local Open Scope N_scope.
Import json.

Lemma appendString_quoted (dst : list byte) (s : string) :
  appendString dst s = dst ++ quoted s.
Proof. reflexivity. Qed.

Lemma string_lit_quoted (s : string) (rest : list byte) :
  let p := list_byte_of_string s in
  string_lit (length (escape (length p) p ++ x22 :: rest))
             (escape (length p) p ++ x22 :: rest)
  = Ok (list_byte_of_string (utf8.coerce s), rest).
Proof.
  intros p. rewrite string_lit_escape.
  - unfold utf8.coerce. fold p. now rewrite list_byte_of_string_of_list_byte.
  - lia.
  - rewrite length_app. cbn [length]. lia.
Qed.

Lemma parse_value_quoted (f : nat) (d : N) (s : string) (rest : list byte) :
  parse_value (S f) d (quoted s ++ rest) = Ok (String (utf8.coerce s), rest).
Proof.
  unfold quoted. cbn [app]. rewrite <- app_assoc. cbn [app].
  cbn [parse_value skip_space].
  change (isSpace x22) with false. cbv iota.
  change (Byte.eqb x22 "{") with false.
  change (Byte.eqb x22 "[") with false.
  change (Byte.eqb x22 x22) with true. cbv iota.
  rewrite string_lit_quoted.
  now rewrite string_of_list_byte_of_string.
Qed.

Lemma parse_members_step (f : nat) (d : N) (key value : string) (next : byte)
    (rest : list byte) :
  isSpace next = false ->
  parse_members (S (S f)) d (member key value next ++ rest)
  = if Byte.eqb next ","
    then match parse_members (S f) d rest with
         | Ok (ms, r') => Ok ((utf8.coerce key, String (utf8.coerce value)) :: ms, r')
         | Err e => Err e
         end
    else if Byte.eqb next "}"
    then Ok ([(utf8.coerce key, String (utf8.coerce value))], rest)
    else Err (syntax next "after object key:value pair").
Proof.
  intros Hnext.
  unfold member, quoted. cbn [app]. rewrite <- !app_assoc. cbn [app].
  rewrite <- !app_assoc. cbn [app].
  cbn [parse_members skip_space].
  change (isSpace x22) with false. cbv iota.
  change (Byte.eqb x22 x22) with true. cbn [negb]. cbv iota.
  rewrite string_lit_quoted.
  cbn [skip_space]. change (isSpace x3a) with false. cbv iota.
  change (Byte.eqb x3a ":") with true. cbn [negb]. cbv iota.
  pose proof (parse_value_quoted f d value (next :: rest)) as Hv.
  unfold quoted in Hv. cbn [app] in Hv. rewrite <- !app_assoc in Hv. cbn [app] in Hv.
  rewrite Hv. cbn [skip_space]. rewrite Hnext.
  now rewrite string_of_list_byte_of_string.
Qed.

Import config.

Lemma Marshal_members (cfg : sealedConfig) :
  Marshal cfg
  = ([x7b] ++ member "url" (URL cfg) "," ++ member "tmpl" (Tmpl cfg) "}", None).
Proof.
  unfold Marshal, member. rewrite !appendString_quoted.
  f_equal. rewrite <- !app_assoc. reflexivity.
Qed.

Lemma parse_value_members (f : nat) (u t : string) :
  parse_value (4 + f) 0 ([x7b] ++ member "url" u "," ++ member "tmpl" t "}")
  = Ok (Object [("url"%string, String (utf8.coerce u));
                ("tmpl"%string, String (utf8.coerce t))], []).
Proof.
  change (4 + f)%nat with (S (S (S (S f)))).
  remember (member "tmpl" t "}") as m2 eqn:Hm2.
  assert (Hhd : exists tl, member "url" u "," ++ m2 = x22 :: tl) by (eexists; reflexivity).
  destruct Hhd as [tl Htl].
  cbn [app parse_value skip_space].
  change (isSpace x7b) with false. cbv iota.
  change (Byte.eqb x7b "{") with true. cbv iota.
  change (maxNestingDepth <? 0 + 1) with false. cbv iota.
  rewrite Htl. cbn [skip_space]. change (isSpace x22) with false. cbv iota.
  change (Byte.eqb x22 "}") with false. cbv iota.
  rewrite <- Htl.
  rewrite parse_members_step by reflexivity.
  change (Byte.eqb "," ",") with true. cbv iota.
  subst m2. rewrite <- (app_nil_r (member "tmpl" t "}")).
  rewrite parse_members_step by reflexivity.
  change (Byte.eqb "}" ",") with false. change (Byte.eqb "}" "}") with true.
  cbv iota. reflexivity.
Qed.

Lemma parse_Marshal (cfg : sealedConfig) :
  parse (fst (Marshal cfg))
  = Ok (Object [("url"%string, String (utf8.coerce (URL cfg)));
                ("tmpl"%string, String (utf8.coerce (Tmpl cfg)))]).
Proof.
  rewrite Marshal_members. cbn [fst]. unfold parse.
  set (data := [x7b] ++ _).
  assert (Hlen : (1 <= length data)%nat) by (unfold data; cbn [app length]; lia).
  replace (2 * length data + 2)%nat with (4 + (2 * length data - 2))%nat by lia.
  unfold data. rewrite parse_value_members. reflexivity.
Qed.

(** Unmarshalling what [Marshal] wrote gives the configuration back, its
    strings coerced to valid UTF-8. *)
Lemma Unmarshal_Marshal (cfg init : sealedConfig) :
  Unmarshal (fst (Marshal cfg)) init
  = ({| URL := utf8.coerce (URL cfg); Tmpl := utf8.coerce (Tmpl cfg) |}, None).
Proof.
  unfold Unmarshal. rewrite parse_Marshal. reflexivity.
Qed.

End JSONObject.

Section Numbers.
Import json.









(** The exponent [readFloat] reads stays below 100000, however many digits
    the literal has. *)
Lemma readExponent_bound (s : list byte) :
  forall e, (0 <= e < 100000)%Z -> (0 <= strconv.readExponent s e < 100000)%Z.
Proof.
  induction s as [|c s IH]; intros e He; [exact He|].
  cbn [strconv.readExponent].
  destruct ((48 <=? Byte.to_N c) && (Byte.to_N c <=? 57))%N eqn:Hd; [|exact He].
  apply andb_true_iff in Hd as [H0 H9].
  apply N.leb_le in H0, H9.
  apply IH. destruct (e <? 10000)%Z eqn:Hlt; [|exact He].
  apply Z.ltb_lt in Hlt. lia.
Qed.

(** The sixth digit of an exponent is dropped: [e100400] is read as
    [e10040]. *)
Example readExponent_six_digits :
  strconv.readExponent (list_byte_of_string "100400") 0 = 10040%Z
  /\ strconv.readFloat "1e100400" = (1%Z, 10040%Z).
Proof. split; reflexivity. Qed.

End Numbers.

Section Sealer.
Import config.

Lemma NewCipher_key (s : Sealer) : aes.NewCipher (key_of s) = Ok (block_of s).
Proof.
  unfold aes.NewCipher, key_of. rewrite length_Sum256. reflexivity.
Qed.

Lemma NewGCM_block (s : Sealer) : cipher.NewGCM (block_of s) = Ok (gcm_of s).
Proof. reflexivity. Qed.

Lemma gcm_of_Encrypt_length (s : Sealer) (b : list byte) :
  length (cipher.Encrypt (cipher.cipher (gcm_of s)) b) = 16.
Proof. apply length_encryptBlock. Qed.

Lemma length_Read (n : nat) (rd : rand.Reader) :
  length (fst (fst (rand.Read n rd))) = n.
Proof.
  unfold rand.Read. destruct (rand.failure rd); cbn [fst].
  - apply repeat_length.
  - now rewrite length_map, length_seq.
Qed.

(** [Seal] once the key schedule is done: the nonce is read, the
    configuration marshalled and sealed, the result encoded. *)
Lemma Seal_unfold (s : Sealer) (u t : string) (rd : rand.Reader) :
  Seal s u t rd
  = match rand.Read 12 rd with
    | ((_, Some err), rd') =>
        (Return (""%string, Some (fmt_Errorf "generate nonce: " err)), rd')
    | ((nonce, None), rd') =>
        (ciphertext <- cipher.Seal (gcm_of s) nonce nonce
                         (fst (Marshal {| URL := u; Tmpl := t |})) ;;
         Return (base64.EncodeToString ciphertext, None), rd')
    end.
Proof.
  unfold Seal. fold (key_of s). rewrite NewCipher_key, NewGCM_block.
  rewrite Marshal_members. reflexivity.
Qed.

(** [Unseal] once the token is decoded and the key schedule done. *)
Lemma Unseal_unfold (s : Sealer) (token : string) (data : list byte) :
  base64.DecodeString token = (data, None) ->
  Unseal s token
  = if (length data <? 12)%nat
    then Return (""%string, ""%string, Some (errors_New "token too short"))
    else
      nonce <- slice_to data 12 ;;
      ciphertext <- slice_from data 12 ;;
      opened <- cipher.Open (gcm_of s) [] nonce ciphertext ;;
      match opened with
      | (_, Some err) =>
          Return (""%string, ""%string, Some (fmt_Errorf "decrypt token: " err))
      | (plaintext, None) =>
          match Unmarshal plaintext {| URL := ""; Tmpl := "" |} with
          | (_, Some err) =>
              Return (""%string, ""%string,
                      Some (fmt_Errorf "unmarshal config: " err))
          | (cfg, None) => Return (URL cfg, Tmpl cfg, None)
          end
      end.
Proof.
  intros H. unfold Unseal. rewrite H. fold (key_of s).
  rewrite NewCipher_key, NewGCM_block. reflexivity.
Qed.

Lemma Seal_token (s : Sealer) (u t : string) (rd : rand.Reader) :
  rand.failure rd = None ->
  Seal s u t rd
  = (Return (token_of s (map (rand.stream rd) (seq 0 12)) u t, None),
     snd (rand.Read 12 rd)).
Proof.
  intros Hrd. rewrite Seal_unfold. unfold rand.Read. rewrite Hrd.
  cbn [snd]. unfold cipher.Seal.
  replace (length (map (rand.stream rd) (seq 0 12)) =? cipher.nonceSize (gcm_of s))%nat
    with true by (now rewrite length_map, length_seq).
  reflexivity.
Qed.

Lemma Unseal_token (s : Sealer) (nonce : list byte) (u t : string) :
  length nonce = 12%nat ->
  Unseal s (token_of s nonce u t) = Return (utf8.coerce u, utf8.coerce t, None).
Proof.
  intros Hn. unfold token_of.
  set (pt := fst (Marshal {| URL := u; Tmpl := t |})).
  set (ct := cipher.counterCrypt (length pt) (gcm_of s) nonce 2 pt).
  cbv zeta. fold pt. fold ct.
  set (box := ct ++ cipher.auth (gcm_of s) nonce ct).
  rewrite (Unseal_unfold s _ _ (DecodeString_EncodeToString _)).
  assert (Hseal : cipher.Seal (gcm_of s) nonce nonce pt = Return (nonce ++ box)).
  { unfold cipher.Seal. rewrite Hn. reflexivity. }
  destruct (Open_Seal (gcm_of s) (gcm_of_Encrypt_length s) eq_refl
              nonce nonce pt _ Hseal) as (box' & Hbox & Hopen).
  apply app_inv_head in Hbox. subst box'.
  replace (length (nonce ++ box) <? 12)%nat with false
    by (symmetry; apply Nat.ltb_ge; rewrite length_app; lia).
  unfold slice_to, slice_from.
  replace (12 <=? length (nonce ++ box))%nat with true
    by (symmetry; apply Nat.leb_le; rewrite length_app; lia).
  cbn [bind].
  rewrite firstn_app, skipn_app, Hn, Nat.sub_diag.
  rewrite firstn_all2, skipn_all2 by lia.
  rewrite firstn_O, skipn_O, app_nil_r. cbn [app].
  rewrite Hopen. cbn [bind].
  unfold pt. rewrite Unmarshal_Marshal. reflexivity.
Qed.

End Sealer.

Section Authentication.
Import config.

Lemma Open_short (s : Sealer) (nonce box : list byte) :
  length nonce = 12 -> length box < 16 ->
  cipher.Open (gcm_of s) [] nonce box = Return ([], Some cipher.errOpen).
Proof.
  intros Hn Hb. unfold cipher.Open. rewrite Hn. cbn [negb].
  change (length nonce) with 12.
  replace (length box <? cipher.tagSize (gcm_of s))%nat with true
    by (symmetry; apply Nat.ltb_lt; exact Hb).
  reflexivity.
Qed.

Lemma Open_tagged (s : Sealer) (nonce ct tag : list byte) :
  length nonce = 12 -> length tag = 16 ->
  cipher.Open (gcm_of s) [] nonce (ct ++ tag)
  = if ConstantTimeCompare (cipher.auth (gcm_of s) nonce ct) tag
    then Return (cipher.counterCrypt (length ct) (gcm_of s) nonce 2 ct, None)
    else Return ([], Some cipher.errOpen).
Proof.
  intros Hn Ht. unfold cipher.Open. rewrite Hn. cbn [negb].
  change (cipher.tagSize (gcm_of s)) with 16.
  replace (length (ct ++ tag) <? 16)%nat with false
    by (symmetry; apply Nat.ltb_ge; rewrite length_app; lia).
  replace (length (ct ++ tag) - 16) with (length ct) by (rewrite length_app; lia).
  rewrite skipn_app, firstn_app, Nat.sub_diag, skipn_all, firstn_all, firstn_O, skipn_O.
  rewrite app_nil_r. cbn [app].
  destruct (ConstantTimeCompare _ tag); reflexivity.
Qed.

(** [Unseal] of a token that decodes to a nonce and a box. *)
Lemma Unseal_decoded (s : Sealer) (token : string) (nonce box : list byte) :
  base64.DecodeString token = (nonce ++ box, None) ->
  length nonce = 12 ->
  Unseal s token
  = (opened <- cipher.Open (gcm_of s) [] nonce box ;;
     match opened with
     | (_, Some err) =>
         Return (""%string, ""%string, Some (fmt_Errorf "decrypt token: " err))
     | (plaintext, None) =>
         match Unmarshal plaintext {| URL := ""; Tmpl := "" |} with
         | (_, Some err) =>
             Return (""%string, ""%string,
                     Some (fmt_Errorf "unmarshal config: " err))
         | (cfg, None) => Return (URL cfg, Tmpl cfg, None)
         end
     end).
Proof.
  intros Hd Hn. rewrite (Unseal_unfold s token _ Hd).
  replace (length (nonce ++ box) <? 12)%nat with false
    by (symmetry; apply Nat.ltb_ge; rewrite length_app; lia).
  unfold slice_to, slice_from.
  replace (12 <=? length (nonce ++ box))%nat with true
    by (symmetry; apply Nat.leb_le; rewrite length_app; lia).
  cbn [bind].
  rewrite firstn_app, skipn_app, Hn, Nat.sub_diag.
  rewrite firstn_all2, skipn_all2 by lia.
  rewrite firstn_O, skipn_O, app_nil_r. reflexivity.
Qed.

(** [Unseal] of a token that decodes to a nonce, a ciphertext and a tag. *)
Lemma Unseal_tagged (s : Sealer) (token : string) (nonce ct tag : list byte) :
  base64.DecodeString token = (nonce ++ ct ++ tag, None) ->
  length nonce = 12 -> length tag = 16 ->
  Unseal s token
  = if ConstantTimeCompare (cipher.auth (gcm_of s) nonce ct) tag
    then
      match Unmarshal (cipher.counterCrypt (length ct) (gcm_of s) nonce 2 ct)
                      {| URL := ""; Tmpl := "" |} with
      | (_, Some err) =>
          Return (""%string, ""%string, Some (fmt_Errorf "unmarshal config: " err))
      | (cfg, None) => Return (URL cfg, Tmpl cfg, None)
      end
    else Return (""%string, ""%string,
                 Some (fmt_Errorf "decrypt token: " cipher.errOpen)).
Proof.
  intros Hd Hn Ht. rewrite (Unseal_decoded s token nonce _ Hd Hn).
  rewrite (Open_tagged s nonce ct tag Hn Ht).
  destruct (ConstantTimeCompare _ tag); reflexivity.
Qed.

(** Every decoded token is too short, or a nonce and a box too short for a
    tag, or a nonce, a ciphertext and a tag. *)
Lemma decoded_cases (data : list byte) :
  length data < 12
  \/ (exists nonce box, data = nonce ++ box /\ length nonce = 12 /\ length box < 16)
  \/ (exists nonce ct tag,
        data = nonce ++ ct ++ tag /\ length nonce = 12 /\ length tag = 16).
Proof.
  destruct (Nat.lt_ge_cases (length data) 12) as [H|H]; [now left|right].
  destruct (Nat.lt_ge_cases (length (skipn 12 data)) 16) as [Hb|Hb].
  - left. exists (firstn 12 data), (skipn 12 data).
    rewrite firstn_skipn, length_firstn. split; [reflexivity|]. split; [lia|exact Hb].
  - right.
    exists (firstn 12 data),
           (firstn (length (skipn 12 data) - 16) (skipn 12 data)),
           (skipn (length (skipn 12 data) - 16) (skipn 12 data)).
    rewrite !firstn_skipn, length_firstn, !length_skipn.
    rewrite length_skipn in Hb.
    split; [reflexivity|]. split; lia.
Qed.

(** Authentication, as the code has it.  [Unseal]
    does not panic, and with an error it returns two empty strings, never a
    part of the data.  It succeeds exactly on a token that decodes to a
    12-byte nonce, a ciphertext and the GCM tag of the two under the key of
    the secret in use, and whose decrypted text unmarshals.  A token whose
    last 16 decoded bytes are not that tag, because a byte of them was
    altered or because another key computed them, gets the decryption
    error. *)
Theorem Unseal_authenticates (s : Sealer) (token : string) :
  (exists url tmpl err,
      Unseal s token = Return (url, tmpl, err)
      /\ (err = None \/ (url = ""%string /\ tmpl = ""%string)))
  /\ (forall url tmpl,
        Unseal s token = Return (url, tmpl, None) <->
        exists nonce ct,
          base64.DecodeString token
          = (nonce ++ ct ++ cipher.auth (gcm_of s) nonce ct, None)
          /\ length nonce = 12
          /\ Unmarshal (cipher.counterCrypt (length ct) (gcm_of s) nonce 2 ct)
                       {| URL := ""; Tmpl := "" |}
             = ({| URL := url; Tmpl := tmpl |}, None))
  /\ (forall nonce ct tag,
        base64.DecodeString token = (nonce ++ ct ++ tag, None) ->
        length nonce = 12 -> length tag = 16 ->
        tag <> cipher.auth (gcm_of s) nonce ct ->
        Unseal s token
        = Return (""%string, ""%string,
                  Some (fmt_Errorf "decrypt token: " cipher.errOpen))).
Proof.
  assert (Hauth : forall nonce ct, length (cipher.auth (gcm_of s) nonce ct) = 16).
  { intros. apply length_auth; [apply gcm_of_Encrypt_length|reflexivity]. }
  assert (Hsucc : forall url tmpl,
    (exists nonce ct,
          base64.DecodeString token
          = (nonce ++ ct ++ cipher.auth (gcm_of s) nonce ct, None)
          /\ length nonce = 12
          /\ Unmarshal (cipher.counterCrypt (length ct) (gcm_of s) nonce 2 ct)
                       {| URL := ""; Tmpl := "" |}
             = ({| URL := url; Tmpl := tmpl |}, None)) ->
    Unseal s token = Return (url, tmpl, None)).
  { intros url tmpl (nonce & ct & Hd & Hn & Hu).
    rewrite (Unseal_tagged s token nonce ct _ Hd Hn (Hauth _ _)).
    now rewrite ConstantTimeCompare_refl, Hu. }
  assert (Htag : forall nonce ct tag,
        base64.DecodeString token = (nonce ++ ct ++ tag, None) ->
        length nonce = 12 -> length tag = 16 ->
        tag <> cipher.auth (gcm_of s) nonce ct ->
        Unseal s token
        = Return (""%string, ""%string,
                  Some (fmt_Errorf "decrypt token: " cipher.errOpen))).
  { intros nonce ct tag Hd Hn Ht Hne.
    rewrite (Unseal_tagged s token nonce ct tag Hd Hn Ht).
    destruct (ConstantTimeCompare _ tag) eqn:E; [|reflexivity].
    apply ConstantTimeCompare_eq in E. congruence. }
  enough (H : exists url tmpl err,
      Unseal s token = Return (url, tmpl, err)
      /\ match err with
         | Some _ => url = ""%string /\ tmpl = ""%string
         | None =>
            exists nonce ct,
              base64.DecodeString token
              = (nonce ++ ct ++ cipher.auth (gcm_of s) nonce ct, None)
              /\ length nonce = 12
              /\ Unmarshal (cipher.counterCrypt (length ct) (gcm_of s) nonce 2 ct)
                           {| URL := ""; Tmpl := "" |}
                 = ({| URL := url; Tmpl := tmpl |}, None)
         end).
  { destruct H as (url & tmpl & err & HU & H). split; [|split].
    - exists url, tmpl, err. split; [exact HU|]. destruct err; [now right|now left].
    - intros url' tmpl'. split; [|apply Hsucc].
      intros HU'. rewrite HU in HU'. injection HU' as -> -> ->. exact H.
    - exact Htag. }
  destruct (base64.DecodeString token) as [data [e|]] eqn:Hd.
  { unfold Unseal. rewrite Hd. eexists _, _, _. split; [reflexivity|]. now split. }
  destruct (decoded_cases data) as [Hlen|[(nonce & box & -> & Hn & Hb)
                                         |(nonce & ct & tag & -> & Hn & Ht)]].
  - rewrite (Unseal_unfold s token data Hd).
    replace (length data <? 12)%nat with true by (symmetry; now apply Nat.ltb_lt).
    eexists _, _, _. split; [reflexivity|]. now split.
  - rewrite (Unseal_decoded s token nonce box Hd Hn), (Open_short s nonce box Hn Hb).
    eexists _, _, _. split; [reflexivity|]. now split.
  - rewrite (Unseal_tagged s token nonce ct tag Hd Hn Ht).
    destruct (ConstantTimeCompare _ tag) eqn:E.
    + apply ConstantTimeCompare_eq in E. subst tag.
      destruct (Unmarshal _ _) as [[u t] [e|]] eqn:HU.
      * eexists _, _, _. split; [reflexivity|]. now split.
      * eexists _, _, _. split; [reflexivity|]. exists nonce, ct. now rewrite HU.
    + eexists _, _, _. split; [reflexivity|]. now split.
Qed.

End Authentication.

Section SealerClaims.
Import config.

(** C9 (when [Seal] fails).  The key is 32 bytes for every secret, so the
    cipher and the GCM are created; [Marshal] reports no error; [Seal]
    returns a token when the random source does not fail, and the error
    [generate nonce: ...] when it does: no other error is returned, and
    [Seal] does not panic. *)
Theorem Seal_failure_conditions (s : Sealer) (u t : string) (rd : rand.Reader) :
  length (sha256.Sum256 (list_byte_of_string (Secret s))) = 32
  /\ (exists block gcm,
        aes.NewCipher (sha256.Sum256 (list_byte_of_string (Secret s))) = Ok block
        /\ cipher.NewGCM block = Ok gcm)
  /\ snd (Marshal {| URL := u; Tmpl := t |}) = None
  /\ match rand.failure rd with
     | None =>
         exists token,
           Seal s u t rd = (Return (token, None), snd (rand.Read 12 rd))
     | Some err =>
         Seal s u t rd
         = (Return (""%string, Some (fmt_Errorf "generate nonce: " err)), rd)
     end.
Proof.
  split; [apply length_Sum256|].
  split; [exists (block_of s), (gcm_of s); split;
          [apply NewCipher_key|apply NewGCM_block]|].
  split; [reflexivity|].
  destruct (rand.failure rd) as [err|] eqn:Hrd.
  - rewrite Seal_unfold. unfold rand.Read. rewrite Hrd. reflexivity.
  - eexists. apply Seal_token. exact Hrd.
Qed.

(** What [Unseal] returns for a token of [Seal]. *)
Lemma Unseal_Seal (s : Sealer) (u t : string) (rd : rand.Reader) :
  rand.failure rd = None ->
  exists token rd',
    Seal s u t rd = (Return (token, None), rd')
    /\ Unseal s token = Return (utf8.coerce u, utf8.coerce t, None).
Proof.
  intros Hrd. eexists _, _. split; [apply Seal_token; exact Hrd|].
  apply Unseal_token. now rewrite length_map, length_seq.
Qed.

Lemma Unseal_Seal_valid (s : Sealer) (u t : string) (rd : rand.Reader) :
  rand.failure rd = None ->
  utf8.ValidString u = true -> utf8.ValidString t = true ->
  exists token rd',
    Seal s u t rd = (Return (token, None), rd')
    /\ Unseal s token = Return (u, t, None).
Proof.
  intros Hrd Hu Ht.
  destruct (Unseal_Seal s u t rd Hrd) as (token & rd' & H1 & H2).
  exists token, rd'. split; [exact H1|].
  now rewrite (coerce_valid u Hu), (coerce_valid t Ht) in H2.
Qed.

(** C1 (round trip).  Under a random source that does not fail, [Seal]
    returns a token, and [Unseal] of it under the same secret succeeds and
    returns the URL and the template with every byte that begins no valid
    UTF-8 encoding replaced by U+FFFD, as [json.Marshal] writes them: these
    are the two strings themselves exactly when both are valid UTF-8. *)
Theorem Seal_Unseal_round_trip (s : Sealer) (u t : string) (rd : rand.Reader) :
  rand.failure rd = None ->
  exists token rd',
    Seal s u t rd = (Return (token, None), rd')
    /\ Unseal s token = Return (utf8.coerce u, utf8.coerce t, None)
    /\ (Unseal s token = Return (u, t, None)
        <-> utf8.ValidString u = true /\ utf8.ValidString t = true).
Proof.
  intros Hrd.
  destruct (Unseal_Seal s u t rd Hrd) as (token & rd' & H1 & H2).
  exists token, rd'. split; [exact H1|]. split; [exact H2|].
  rewrite H2, <- !coerce_fixed. split.
  - intros E. injection E as Eu Et. now split.
  - intros [Eu Et]. now rewrite Eu, Et.
Qed.

(** C1 at the URL of the one byte 0xFF: [Unseal] returns the three bytes of
    U+FFFD for it. *)
Lemma Unseal_Seal_invalid_utf8 :
  exists token rd',
    Seal test_sealer (string_of_list_byte [xff]) "x" zeros
    = (Return (token, None), rd')
    /\ Unseal test_sealer token
       = Return (string_of_list_byte [xef; xbf; xbd], "x"%string, None).
Proof.
  destruct (Seal_Unseal_round_trip test_sealer (string_of_list_byte [xff]) "x"
              zeros eq_refl) as (token & rd' & H1 & H2 & _).
  exists token, rd'. split; [exact H1|exact H2].
Defined.

(** Unseal never panics. *)
Lemma Unseal_returns (s : Sealer) (token : string) :
  exists r, Unseal s token = Return r.
Proof.
  destruct (base64.DecodeString token) as [data [err|]] eqn:Hd.
  - unfold Unseal. rewrite Hd. eauto.
  - rewrite (Unseal_unfold s token data Hd).
    destruct (length data <? 12)%nat eqn:Hlen; [eauto|].
    apply Nat.ltb_ge in Hlen.
    unfold slice_to, slice_from.
    replace (12 <=? length data)%nat with true by (symmetry; apply Nat.leb_le; lia).
    cbn [bind]. unfold cipher.Open.
    replace (length (firstn 12 data) =? cipher.nonceSize (gcm_of s))%nat with true
      by (rewrite length_firstn; symmetry; apply Nat.eqb_eq;
          change (cipher.nonceSize (gcm_of s)) with 12%nat; lia).
    cbn [negb].
    repeat first
      [ progress cbn [bind]
      | match goal with
        | |- context [if ?c then _ else _] => destruct c
        | |- context [match ?x with _ => _ end] => destruct x
        end ]; eauto.
Qed.

(** C6 (truncation check), as the code has it.  For a token that decodes,
    [Unseal] fails with [token too short] exactly when the decoded bytes are
    fewer than the 12 bytes of the nonce; the length of what follows the
    nonce is not what is checked. *)
Theorem Unseal_too_short (s : Sealer) (token : string) (data : list byte) :
  base64.DecodeString token = (data, None) ->
  (length data < 12
   <-> Unseal s token
       = Return (""%string, ""%string, Some (errors_New "token too short"))).
Proof.
  intros Hd. rewrite (Unseal_unfold s token data Hd).
  destruct (length data <? 12)%nat eqn:Hlen.
  - apply Nat.ltb_lt in Hlen. tauto.
  - apply Nat.ltb_ge in Hlen. split; [lia|].
    unfold slice_to, slice_from.
    replace (12 <=? length data)%nat with true by (symmetry; apply Nat.leb_le; lia).
    cbn [bind].
    destruct (cipher.Open _ _ _ _) as [[pt [e|]]|]; cbn [bind]; try discriminate.
    destruct (Unmarshal pt _) as [cfg [e|]]; discriminate.
Qed.

(** C6 as stated fails: sixteen letters A decode to 12 zero bytes, what
    follows the nonce is empty, shorter than the nonce, and the error is
    the decryption error of [Open], not [token too short]. *)
Lemma Unseal_short_remainder :
  exists data,
    base64.DecodeString "AAAAAAAAAAAAAAAA" = (data, None)
    /\ length (skipn 12 data) < 12
    /\ Unseal test_sealer "AAAAAAAAAAAAAAAA"
       = Return (""%string, ""%string,
                 Some (fmt_Errorf "decrypt token: " cipher.errOpen)).
Proof.
  exists (repeat x00 12). split; [reflexivity|]. split; [cbn; lia|].
  rewrite (Unseal_unfold test_sealer "AAAAAAAAAAAAAAAA" (repeat x00 12) eq_refl).
  reflexivity.
Qed.

Lemma map_seq_shift (f : nat -> byte) (a n : nat) :
  map (fun i => f (a + i)) (seq 0 n) = map f (seq a n).
Proof.
  enough (H : forall k, map (fun i => f (a + i)) (seq k n) = map f (seq (a + k) n))
    by (rewrite H, Nat.add_0_r; reflexivity).
  induction n as [|n IH]; intros k; [reflexivity|].
  cbn [seq map]. now rewrite IH, Nat.add_succ_r.
Qed.

Lemma token_of_inj (s : Sealer) (n1 n2 : list byte) (u t : string) :
  length n1 = 12 -> length n2 = 12 ->
  token_of s n1 u t = token_of s n2 u t -> n1 = n2.
Proof.
  intros H1 H2 H. apply EncodeToString_inj in H.
  apply (f_equal (firstn 12)) in H.
  rewrite !firstn_app, H1, H2, Nat.sub_diag, !firstn_O, !app_nil_r in H.
  now rewrite <- H1, firstn_all, H1, <- H2, firstn_all in H.
Qed.

(** The nonce of a token: the first 12 bytes it decodes to. *)
Lemma token_of_nonce (s : Sealer) (nonce : list byte) (u t : string) :
  length nonce = 12 ->
  firstn 12 (fst (base64.DecodeString (token_of s nonce u t))) = nonce.
Proof.
  intros Hn. unfold token_of. rewrite DecodeString_EncodeToString. cbn [fst].
  rewrite firstn_app, Hn, Nat.sub_diag, firstn_O, app_nil_r.
  now rewrite <- Hn, firstn_all.
Qed.

(** C3 (non-determinism).  Two calls of [Seal] on the same inputs under the
    same secret, the second reading the random source where the first left
    it, return two tokens; the nonce of each token is what its call drew,
    the first 12 bytes of the source and its next 12 bytes; and the two
    tokens are different whenever the two nonces drawn are different, and
    only then. *)
Theorem Seal_twice (s : Sealer) (u t : string) (rd : rand.Reader) :
  rand.failure rd = None ->
  exists t1 t2 rd1 rd2,
    Seal s u t rd = (Return (t1, None), rd1)
    /\ Seal s u t rd1 = (Return (t2, None), rd2)
    /\ (t1 = t2 <->
        map (rand.stream rd) (seq 0 12) = map (rand.stream rd) (seq 12 12))
    /\ (map (rand.stream rd) (seq 0 12) <> map (rand.stream rd) (seq 12 12) ->
        t1 <> t2)
    /\ firstn 12 (fst (base64.DecodeString t1)) = map (rand.stream rd) (seq 0 12)
    /\ firstn 12 (fst (base64.DecodeString t2)) = map (rand.stream rd) (seq 12 12).
Proof.
  intros Hrd.
  set (rd1 := snd (rand.Read 12 rd)).
  assert (Hrd1 : rand.failure rd1 = None).
  { unfold rd1, rand.Read. now rewrite Hrd. }
  assert (Hs1 : map (rand.stream rd1) (seq 0 12) = map (rand.stream rd) (seq 12 12)).
  { unfold rd1, rand.Read. rewrite Hrd. cbn [snd rand.stream]. apply map_seq_shift. }
  assert (Hiff : token_of s (map (rand.stream rd) (seq 0 12)) u t
                 = token_of s (map (rand.stream rd) (seq 12 12)) u t
                 <-> map (rand.stream rd) (seq 0 12) = map (rand.stream rd) (seq 12 12)).
  { split.
    - apply token_of_inj; now rewrite length_map, length_seq.
    - now intros ->. }
  eexists _, _, rd1, _. split; [apply Seal_token; exact Hrd|].
  split; [apply Seal_token; exact Hrd1|].
  rewrite Hs1. split; [exact Hiff|].
  split; [intros Hne E; apply Hne, Hiff, E|].
  split; apply token_of_nonce; now rewrite length_map, length_seq.
Qed.

End SealerClaims.

Section Pigeonhole.

Lemma In_all_bytes (b : byte) : In b all_bytes.
Proof.
  unfold all_bytes. apply in_map_iff. exists (N.to_nat (Byte.to_N b)). split.
  - rewrite N2Nat.id. apply byte_of_N_to_N.
  - apply in_seq. pose proof (to_N_lt b). lia.
Qed.

Lemma In_all_lists : forall n l, length l = n -> In l (all_lists n).
Proof.
  induction n as [|n IH]; intros l Hl.
  - destruct l; [now left|discriminate].
  - destruct l as [|b l]; [discriminate|].
    cbn [all_lists]. apply in_flat_map. exists b. split; [apply In_all_bytes|].
    apply in_map. apply IH. now injection Hl.
Qed.

Variable A : Type.
Hypothesis dec : forall x y : A, {x = y} + {x <> y}.
Variable f : nat -> A.

Lemma NoDup_snoc (l : list A) (x : A) :
  List.NoDup l -> ~ In x l -> List.NoDup (l ++ [x]).
Proof.
  induction 1 as [|y l Hy Hl IH]; intros Hx; cbn [app].
  - apply List.NoDup_cons; [intros []|apply List.NoDup_nil].
  - apply List.NoDup_cons.
    + rewrite in_app_iff. intros [H|[->|[]]]; [exact (Hy H)|apply Hx; now left].
    + apply IH. intros H. apply Hx. now right.
Qed.

Lemma repeats_or_NoDup (n : nat) :
  (exists i j, i < j < n /\ f i = f j) \/ List.NoDup (map f (seq 0 n)).
Proof.
  induction n as [|n [(i & j & Hij & E)|IH]].
  - right. apply List.NoDup_nil.
  - left. exists i, j. split; [lia|exact E].
  - destruct (in_dec dec (f n) (map f (seq 0 n))) as [Hin|Hout].
    + left. apply in_map_iff in Hin as (i & E & Hi). apply in_seq in Hi.
      exists i, n. split; [lia|exact E].
    + right. rewrite seq_S, map_app. cbn [map Nat.add].
      now apply NoDup_snoc.
Qed.

Lemma pigeonhole (L : list A) :
  (forall n, In (f n) L) -> exists i j, i < j /\ f i = f j.
Proof.
  intros HL.
  destruct (repeats_or_NoDup (S (length L))) as [(i & j & Hij & E)|Hnd].
  - exists i, j. split; [lia|exact E].
  - exfalso.
    assert (Hle : length (map f (seq 0 (S (length L)))) <= length L).
    { apply List.NoDup_incl_length; [exact Hnd|].
      intros x Hx. apply in_map_iff in Hx as (n & <- & _). apply HL. }
    rewrite length_map, length_seq in Hle. lia.
Qed.

End Pigeonhole.

Section Collision.
Import config.

(** Two different secrets with the same derived key exist: keys are 32
    bytes, secrets are unbounded. *)
Lemma key_collision :
  exists s1 s2 : Sealer, Secret s1 <> Secret s2 /\ key_of s1 = key_of s2.
Proof.
  set (secret := fun n => string_of_list_byte (repeat x00 n)).
  destruct (pigeonhole (list byte) (List.list_eq_dec Byte.byte_eq_dec)
              (fun n => key_of {| Secret := secret n |}) (all_lists 32))
    as (i & j & Hij & E).
  - intros n. apply In_all_lists. apply length_Sum256.
  - exists {| Secret := secret i |}, {| Secret := secret j |}.
    split; [|exact E].
    cbn [Secret]. unfold secret. intros Heq.
    apply (f_equal list_byte_of_string) in Heq.
    rewrite !list_byte_of_string_of_list_byte in Heq.
    apply (f_equal (@length byte)) in Heq. rewrite !repeat_length in Heq. lia.
Qed.

Lemma gcm_of_key (s1 s2 : Sealer) : key_of s1 = key_of s2 -> gcm_of s1 = gcm_of s2.
Proof. unfold gcm_of, block_of. now intros ->. Qed.

Lemma Unseal_key (s1 s2 : Sealer) (token : string) :
  key_of s1 = key_of s2 -> Unseal s1 token = Unseal s2 token.
Proof.
  intros Hk. destruct (base64.DecodeString token) as [data [err|]] eqn:Hd.
  - unfold Unseal. now rewrite Hd.
  - rewrite (Unseal_unfold s1 token data Hd), (Unseal_unfold s2 token data Hd).
    now rewrite (gcm_of_key s1 s2 Hk).
Qed.

(** Rejection under another secret cannot hold for all secrets: there are
    two different secrets with one SHA-256 key, and every token the one
    seals is unsealed by the other.  The two secrets are not exhibited. *)
Lemma Unseal_under_another_secret :
  exists s1 s2 : Sealer,
    Secret s1 <> Secret s2
    /\ forall u t rd, rand.failure rd = None ->
         exists token rd',
           Seal s1 u t rd = (Return (token, None), rd')
           /\ Unseal s2 token = Return (utf8.coerce u, utf8.coerce t, None).
Proof.
  destruct key_collision as (s1 & s2 & Hne & Hk).
  exists s1, s2. split; [exact Hne|].
  intros u t rd Hrd.
  destruct (Unseal_Seal s1 u t rd Hrd) as (token & rd' & H1 & H2).
  exists token, rd'. split; [exact H1|].
  now rewrite <- (Unseal_key s1 s2 token Hk).
Qed.

End Collision.

Section Cache.
Import rest.

Lemma list_byte_of_string_app (a b : string) :
  list_byte_of_string (a ++ b) = list_byte_of_string a ++ list_byte_of_string b.
Proof.
  unfold list_byte_of_string.
  induction a as [|c a IH]; [reflexivity|].
  simpl. now rewrite IH.
Qed.

(** The key depends on the concatenation of the URL and the template only. *)
Lemma fingerprint_append (url tstr : string) :
  fingerprint url tstr
  = hex.EncodeToString (sha256.Sum256 (list_byte_of_string (url ++ tstr))).
Proof.
  unfold fingerprint, sha256.Sum, sha256.Write, sha256.New.
  now rewrite list_byte_of_string_app.
Qed.

Lemma fingerprint_collision :
  fingerprint "https://example.com/a" "bc" = fingerprint "https://example.com/ab" "c".
Proof. now rewrite !fingerprint_append. Qed.

(** C4 (the cache key is reached by one configuration only) fails: the key
    hashes the URL and the template one after the other, with nothing in
    between.  After the template [bc] of the URL [https://example.com/a]
    was compiled, the template [c] of the URL [https://example.com/ab] is
    served the compiled [bc], where an empty cache compiles [c]. *)
Theorem template_serves_other_configuration :
  exists c,
    template text_template.text_only ∅ "https://example.com/a" "bc"
    = (c, Ok "bc"%string)
    /\ template text_template.text_only c "https://example.com/ab" "c"
       = (c, Ok "bc"%string)
    /\ template text_template.text_only ∅ "https://example.com/ab" "c"
       = (<[fingerprint "https://example.com/ab" "c" := "c"%string]> ∅,
          Ok "c"%string).
Proof.
  exists (<[fingerprint "https://example.com/a" "bc" := "bc"%string]> ∅).
  split; [|split].
  - unfold template, cache. now rewrite lookup_empty.
  - unfold template, cache. rewrite <- fingerprint_collision.
    now rewrite lookup_insert_eq.
  - unfold template, cache. now rewrite lookup_empty.
Qed.

End Cache.


Section Relay.
Import rest.

Variable engine : text_template.Engine.
Variable net : http.Package.

(** Stage 1: a token that fails to unseal. *)
Lemma handleWebhook_bad_token (s : Server) (c : cache engine) (r : Request)
    (url tmpl : string) (err : error) :
  Unseal (Sealer_ s) (PathValue_token r) = Return (url, tmpl, Some err) ->
  handleWebhook engine net s c r
  = Return {| templates := c;
              response := {| Code := 400;
                             Written := Envelope (fmt_Errorf "invalid token: " err) |};
              sent := [] |}.
Proof. intros H. unfold handleWebhook. rewrite H. reflexivity. Qed.

(** The handler returns when its sealer does, unless the target answered
    with a status that [WriteHeader] refuses: no other stage panics. *)
Lemma handleWebhook_outcome (s : Server) (c : cache engine) (r : Request) :
  (exists res, Unseal (Sealer_ s) (PathValue_token r) = Return res) ->
  (exists h, handleWebhook engine net s c r = Return h)
  \/ (exists req resp,
        http.Do net req = Ok resp
        /\ ((http.StatusCode resp <? 100) || (999 <? http.StatusCode resp))%N = true
        /\ handleWebhook engine net s c r
           = Panic ("invalid WriteHeader code " ++ itoa (http.StatusCode resp))).
Proof.
  intros [[[url tmpl] err] HU].
  unfold handleWebhook, error_, http.checkWriteHeaderCode. rewrite HU. cbn [bind].
  repeat match goal with
         | |- context [match ?x with _ => _ end] => destruct x eqn:?
         end; unfold bind;
    first [ left; eexists; reflexivity
          | right; eexists _, _; split; [eassumption|split; [eassumption|reflexivity]] ].
Qed.

(** The stages of a delivery up to the answer of the target. *)
Lemma handleWebhook_delivers (s : Server) (c : cache engine) (r : Request)
    (url tmpl : string) (body : list byte) (data : json.object)
    (c' : cache engine) (t : text_template.Template engine) (buf : list byte) :
  Unseal (Sealer_ s) (PathValue_token r) = Return (url, tmpl, None) ->
  Body r = (body, None) ->
  (if (0 <? length body)%nat then json.UnmarshalMap body None
   else (None, None)) = (data, None) ->
  template engine c url tmpl = (c', Ok t) ->
  text_template.Execute engine t data = (buf, None) ->
  http.refuse net (Method r) url = None ->
  handleWebhook engine net s c r
  = let req := {| http.Method := if String.eqb (Method r) "" then "GET"%string
                                 else Method r;
                  http.URL := url;
                  http.Body := buf |} in
    match http.Do net req with
    | Err err => Return (error_ engine c' 500 "failed to send request: " err [req])
    | Ok resp =>
        _ <- http.checkWriteHeaderCode (http.StatusCode resp) ;;
        Return {| templates := c';
                  response := {| Code := http.StatusCode resp;
                                 Written := Copied (fst (http.ResponseBody resp)) |};
                  sent := [req] |}
    end.
Proof.
  intros HU Hb Hd Ht Hx Hr.
  unfold handleWebhook. rewrite HU. cbn [bind]. rewrite Hb, Hd, Ht, Hx.
  unfold http.NewRequestWithContext. rewrite Hr. reflexivity.
Qed.

(** C7 (status codes of the relay).  When the sealer returns: a token that
    fails to unseal is answered 400 and nothing is sent; a body that is not
    empty and fails to decode as JSON is answered 400 and nothing is sent;
    a template that fails to compile is answered 400 and nothing is sent; a
    template that fails to execute is answered 500 and nothing is sent; a
    delivery that fails is answered 500, after the one outbound request
    that failed.  In each case the handler returns. *)
Theorem handleWebhook_status (s : Server) (c : cache engine) (r : Request) :
  (exists res, Unseal (Sealer_ s) (PathValue_token r) = Return res) ->
  (forall url tmpl err,
      Unseal (Sealer_ s) (PathValue_token r) = Return (url, tmpl, Some err) ->
      exists h, handleWebhook engine net s c r = Return h
                /\ Code (response h) = 400%N /\ sent h = [])
  /\ (forall body err,
      Body r = (body, None) -> body <> [] ->
      snd (json.UnmarshalMap body None) = Some err ->
      exists h, handleWebhook engine net s c r = Return h
                /\ Code (response h) = 400%N /\ sent h = [])
  /\ (forall url tmpl body data c' err,
      Unseal (Sealer_ s) (PathValue_token r) = Return (url, tmpl, None) ->
      Body r = (body, None) ->
      (if (0 <? length body)%nat then json.UnmarshalMap body None
       else (None, None)) = (data, None) ->
      template engine c url tmpl = (c', Err err) ->
      exists h, handleWebhook engine net s c r = Return h
                /\ Code (response h) = 400%N /\ sent h = [])
  /\ (forall url tmpl body data c' t out err,
      Unseal (Sealer_ s) (PathValue_token r) = Return (url, tmpl, None) ->
      Body r = (body, None) ->
      (if (0 <? length body)%nat then json.UnmarshalMap body None
       else (None, None)) = (data, None) ->
      template engine c url tmpl = (c', Ok t) ->
      text_template.Execute engine t data = (out, Some err) ->
      exists h, handleWebhook engine net s c r = Return h
                /\ Code (response h) = 500%N /\ sent h = [])
  /\ (forall url tmpl body data c' t buf req err,
      Unseal (Sealer_ s) (PathValue_token r) = Return (url, tmpl, None) ->
      Body r = (body, None) ->
      (if (0 <? length body)%nat then json.UnmarshalMap body None
       else (None, None)) = (data, None) ->
      template engine c url tmpl = (c', Ok t) ->
      text_template.Execute engine t data = (buf, None) ->
      http.NewRequestWithContext net (Method r) url buf = Ok req ->
      http.Do net req = Err err ->
      exists h, handleWebhook engine net s c r = Return h
                /\ Code (response h) = 500%N /\ sent h = [req]).
Proof.
  intros [[[url0 tmpl0] err0] HU0].
  split; [|split; [|split; [|split]]].
  - intros url tmpl err HU. unfold handleWebhook. rewrite HU. cbn [bind].
    eexists. split; [reflexivity|]. split; reflexivity.
  - intros body err Hb Hne He. unfold handleWebhook. rewrite HU0. cbn [bind].
    destruct err0 as [e0|].
    + eexists. split; [reflexivity|]. split; reflexivity.
    + rewrite Hb. destruct body as [|b body]; [congruence|].
      cbv beta iota delta [length Nat.ltb Nat.leb].
      destruct (json.UnmarshalMap (b :: body) None) as [d [e|]];
        [|discriminate He].
      eexists. split; [reflexivity|]. split; reflexivity.
  - intros url tmpl body data c' err HU Hb Hd Ht.
    unfold handleWebhook. rewrite HU. cbn [bind]. rewrite Hb, Hd, Ht.
    eexists. split; [reflexivity|]. split; reflexivity.
  - intros url tmpl body data c' t out err HU Hb Hd Ht Hx.
    unfold handleWebhook. rewrite HU. cbn [bind]. rewrite Hb, Hd, Ht, Hx.
    eexists. split; [reflexivity|]. split; reflexivity.
  - intros url tmpl body data c' t buf req err HU Hb Hd Ht Hx Hq Hdo.
    unfold handleWebhook. rewrite HU. cbn [bind]. rewrite Hb, Hd, Ht, Hx, Hq, Hdo.
    eexists. split; [reflexivity|]. split; reflexivity.
Qed.

(** C5 (error message of the webhook), as the code has it.  When the token
    fails to unseal, the handler answers 400, sends nothing, and writes the
    envelope of an error whose text is [invalid token: ] followed by the
    text of the error [Unseal] returned: the message is that of the check
    that failed. *)
Theorem handleWebhook_invalid_token (s : Server) (c : cache engine) (r : Request)
    (url tmpl : string) (err : error) :
  Unseal (Sealer_ s) (PathValue_token r) = Return (url, tmpl, Some err) ->
  exists h e,
    handleWebhook engine net s c r = Return h
    /\ Code (response h) = 400%N
    /\ sent h = []
    /\ Written (response h) = Envelope e
    /\ Error e = ("invalid token: " ++ Error err)%string.
Proof.
  intros H. rewrite (handleWebhook_bad_token s c r url tmpl err H).
  eexists _, _. repeat split; reflexivity.
Qed.

Lemma parse_nil : forall v, json.parse [] <> Ok v.
Proof. discriminate. Qed.







End Relay.

Section EmptyBody.
Import rest text_template.

Variable net : http.Package.








(** The field fragment on a template of two field actions and a text.
    Against the nil map both actions write [<no value>]; against a map the
    value of the key is written. *)
Example Execute_fields :
  Parse fields "{{ .user.name }} said {{.text}}"
  = Ok [FieldNode ["user"%string; "name"%string];
        TextNode (list_byte_of_string " said ");
        FieldNode ["text"%string]]
  /\ Execute fields
       [FieldNode ["user"%string; "name"%string];
        TextNode (list_byte_of_string " said ");
        FieldNode ["text"%string]] None
     = (list_byte_of_string "<no value> said <no value>", None)
  /\ Execute fields
       [FieldNode ["user"%string; "name"%string];
        TextNode (list_byte_of_string " said ");
        FieldNode ["text"%string]]
       (Some (<["text"%string := json.string_ "hi"]> ∅))
     = (list_byte_of_string "<no value> said hi", None).
Proof. repeat split; vm_compute; reflexivity. Qed.

End EmptyBody.

Section Witnesses.
Import rest.

Lemma Unseal_static_token :
  Unseal (Sealer_ test_server) static_token
  = Return (hook, "static-payload"%string, None).
Proof. exact (Unseal_token test_sealer (repeat x00 12) hook "static-payload" eq_refl). Qed.

Lemma template_static :
  template text_template.text_only ∅ hook "static-payload"
  = (static_cache, Ok "static-payload"%string).
Proof. unfold template, cache. now rewrite lookup_empty. Qed.





(** C7: a delivery that fails is a 500, after the one outbound request. *)
Lemma handleWebhook_delivery_refused :
  exists h,
    handleWebhook text_template.text_only refusing test_server ∅
      (post static_token []) = Return h
    /\ Code (response h) = 500%N
    /\ sent h = [static_request].
Proof.
  destruct (handleWebhook_status text_template.text_only refusing test_server ∅
              (post static_token []) (ex_intro _ _ Unseal_static_token))
    as (_ & _ & _ & _ & Hdo).
  exact (Hdo hook "static-payload"%string [] None static_cache
             "static-payload"%string (list_byte_of_string "static-payload")
             static_request (errors_New "connection refused")
             Unseal_static_token eq_refl eq_refl template_static eq_refl eq_refl
             eq_refl).
Defined.



(** C5 as stated fails: a token too short and a token that is not base64
    get two different messages, each naming the check that failed. *)
Lemma handleWebhook_reveals_failed_check :
  exists h1 h2 e1 e2,
    handleWebhook text_template.text_only refusing test_server ∅ (post "AAAA" [])
    = Return h1
    /\ handleWebhook text_template.text_only refusing test_server ∅ (post "!!!!" [])
       = Return h2
    /\ Code (response h1) = 400%N /\ Code (response h2) = 400%N
    /\ Written (response h1) = Envelope e1
    /\ Written (response h2) = Envelope e2
    /\ Error e1 = "invalid token: token too short"%string
    /\ Error e2
       = "invalid token: decode token: illegal base64 data at input byte 0"%string.
Proof.
  eexists _, _, _, _.
  split; [apply handleWebhook_bad_token with (url := ""%string) (tmpl := ""%string);
          vm_compute; reflexivity|].
  split; [apply handleWebhook_bad_token with (url := ""%string) (tmpl := ""%string);
          vm_compute; reflexivity|].
  repeat split; reflexivity.
Qed.

(** C5: a token too short, at the handler. *)
Lemma handleWebhook_token_too_short :
  exists h e,
    handleWebhook text_template.text_only refusing test_server ∅ (post "AAAA" [])
    = Return h
    /\ Code (response h) = 400%N
    /\ sent h = []
    /\ Written (response h) = Envelope e
    /\ Error e = ("invalid token: " ++ Error (errors_New "token too short"))%string.
Proof.
  refine (handleWebhook_invalid_token text_template.text_only refusing test_server ∅
            (post "AAAA" []) ""%string ""%string (errors_New "token too short") _).
  vm_compute. reflexivity.
Defined.

(** C6: three decoded bytes are too short. *)
Lemma Unseal_three_bytes :
  length [x00; x00; x00] < 12
  <-> config.Unseal test_sealer "AAAA"
      = Return (""%string, ""%string, Some (errors_New "token too short")).
Proof. exact (Unseal_too_short test_sealer "AAAA" [x00; x00; x00] eq_refl). Defined.

(** C3: two seals that draw the nonces 0..11 and 12..23 return two
    different tokens. *)
Lemma Seal_twice_counting :
  exists t1 t2 rd1 rd2,
    config.Seal test_sealer hook "static-payload" counting = (Return (t1, None), rd1)
    /\ config.Seal test_sealer hook "static-payload" rd1 = (Return (t2, None), rd2)
    /\ t1 <> t2.
Proof.
  destruct (Seal_twice test_sealer hook "static-payload" counting eq_refl)
    as (t1 & t2 & rd1 & rd2 & H1 & H2 & _ & Hne & _).
  exists t1, t2, rd1, rd2. split; [exact H1|]. split; [exact H2|].
  apply Hne. intros E. vm_compute in E. discriminate E.
Defined.

End Witnesses.

(** * The model on known answers *)
Section KnownAnswers.

(** FIPS 180-4, the digest of [abc]. *)
Example Sum256_abc :
  hex.EncodeToString (sha256.Sum256 (list_byte_of_string "abc"))
  = "ba7816bf8f01cfea414140de5dae2223b00361a396177a9cb410ff61f20015ad"%string.
Proof. vm_compute. reflexivity. Qed.

(** FIPS 197, appendix C.3: AES-256 on the key 00 01 ... 1f. *)
Example encryptBlock_FIPS197_C3 :
  match aes.NewCipher (map (fun i => byte_of_N (N.of_nat i)) (seq 0 32)) with
  | Ok b =>
      hex.EncodeToString
        (cipher.Encrypt b (map (fun i => byte_of_N (N.of_nat (17 * i))) (seq 0 16)))
  | Err _ => ""%string
  end
  = "8ea2b7ca516745bfeafc49904b496089"%string.
Proof. vm_compute. reflexivity. Qed.

(** The GCM specification, test case 14: AES-256, a key, a nonce and a
    block of zero bytes. *)
Example Seal_GCM_test_case_14 :
  match aes.NewCipher (repeat x00 32) with
  | Ok b =>
      match cipher.NewGCM b with
      | Ok g =>
          match cipher.Seal g [] (repeat x00 12) (repeat x00 16) with
          | Return sealed => hex.EncodeToString sealed
          | Panic p => p
          end
      | Err _ => ""%string
      end
  | Err _ => ""%string
  end
  = "cea7403d4d606b6e074ec5d3baf39d18d0d1c8a799996bf0265b98b5d48ab919"%string.
Proof. vm_compute. reflexivity. Qed.

(** The token [Seal] mints for the static scenario from a nonce of zero
    bytes. *)
Example static_token_text :
  static_token
  = ("AAAAAAAAAAAAAAAA9e4E1f4_u1WLweAxhgiju1rnurTBmm1PnvhacypZOLPDcqsYXtpmLew7"
     ++ "T783Ug2OQHhia0k7oTpqTZd-WPf2WHL69pHAC7SMkHE=")%string.
Proof. vm_compute. reflexivity. Qed.

End KnownAnswers.

(** * The tests of the repository, on the model *)
Section Tests.
Import rest.

(** [unseal with wrong secret fails]: a token of [secret-a] is rejected
    under [secret-b], with the decryption error. *)
Example Unseal_wrong_secret :
  config.Unseal {| config.Secret := "secret-b" |}
    (token_of {| config.Secret := "secret-a" |} (repeat x00 12)
       "https://example.com" "{{.v}}")
  = Return (""%string, ""%string,
            Some (fmt_Errorf "decrypt token: " cipher.errOpen)).
Proof. vm_compute. reflexivity. Qed.

(** [unseal tampered ciphertext fails], at every byte: each of the 86 bytes
    a static token decodes to, nonce, ciphertext and tag, with its lowest
    bit flipped, is rejected with the decryption error. *)
Example Unseal_bit_flips :
  length static_data = 86
  /\ forallb (fun k =>
         String.eqb
           (failure_text
              (config.Unseal test_sealer
                 (base64.EncodeToString (flip_bit k 0 static_data))))
           "decrypt token: cipher: message authentication failed")
       (seq 0 86) = true.
Proof. split; vm_compute; reflexivity. Qed.

(** With the sealer of [config], the handler returns on every request,
    unless the target answered with a status that [WriteHeader] refuses. *)
Lemma handleWebhook_config_outcome (engine : text_template.Engine)
    (net : http.Package) (base : string) (cs : config.Sealer)
    (c : cache engine) (r : Request) :
  (exists h,
      handleWebhook engine net
        {| BaseURL := base; Sealer_ := config_Sealer cs |} c r = Return h)
  \/ (exists req resp,
        http.Do net req = Ok resp
        /\ ((http.StatusCode resp <? 100) || (999 <? http.StatusCode resp))%N = true
        /\ handleWebhook engine net
             {| BaseURL := base; Sealer_ := config_Sealer cs |} c r
           = Panic ("invalid WriteHeader code " ++ itoa (http.StatusCode resp))).
Proof. apply handleWebhook_outcome. apply Unseal_returns. Qed.

(** A target that answers with the status 99: the handler panics in
    [WriteHeader], after the request was sent. *)
Example handleWebhook_status_99 :
  handleWebhook text_template.text_only (answering 99 []) test_server ∅
    (post static_token [])
  = Panic "invalid WriteHeader code 99".
Proof.
  unfold handleWebhook. cbn [post PathValue_token Body Method].
  rewrite Unseal_static_token. cbn [bind length Nat.ltb Nat.leb].
  unfold template, cache. rewrite lookup_empty. reflexivity.
Qed.

Lemma Unseal_token_a_bc :
  Unseal (Sealer_ test_server) token_a_bc
  = Return ("https://example.com/a"%string, "bc"%string, None).
Proof.
  exact (Unseal_token test_sealer (repeat x00 12) "https://example.com/a" "bc" eq_refl).
Qed.

Lemma Unseal_token_ab_c :
  Unseal (Sealer_ test_server) token_ab_c
  = Return ("https://example.com/ab"%string, "c"%string, None).
Proof.
  exact (Unseal_token test_sealer (repeat x00 12) "https://example.com/ab" "c" eq_refl).
Qed.

(** The shared cache key at the handler: after a delivery for the URL
    [https://example.com/a] and the template [bc], a delivery for the URL
    [https://example.com/ab] and the template [c] sends the body [bc]. *)
Example handleWebhook_cross_delivery :
  exists h1 h2,
    handleWebhook text_template.text_only echo test_server ∅ (post token_a_bc [])
    = Return h1
    /\ handleWebhook text_template.text_only echo test_server (templates h1)
         (post token_ab_c []) = Return h2
    /\ sent h2 = [{| http.Method := "POST"; http.URL := "https://example.com/ab";
                     http.Body := list_byte_of_string "bc" |}]
    /\ Written (response h2) = Copied (list_byte_of_string "bc").
Proof.
  eexists _, _. split; [|split].
  - unfold handleWebhook. cbn [post PathValue_token Body Method].
    rewrite Unseal_token_a_bc. cbn [bind length Nat.ltb Nat.leb].
    unfold template, cache. rewrite lookup_empty. reflexivity.
  - unfold handleWebhook. cbn [post PathValue_token Body Method templates].
    rewrite Unseal_token_ab_c. cbn [bind length Nat.ltb Nat.leb].
    unfold template, cache. rewrite <- fingerprint_collision, lookup_insert_eq.
    reflexivity.
  - split; reflexivity.
Qed.

End Tests.

(** * The web handlers, the command and the logger *)

Section Strings.

Lemma length_list_byte_of_string (s : string) :
  length (list_byte_of_string s) = String.length s.
Proof.
  unfold list_byte_of_string. induction s as [|c s IH]; [reflexivity|].
  cbn. now rewrite IH.
Qed.

Lemma length_string_of_list_byte (l : list byte) :
  String.length (string_of_list_byte l) = length l.
Proof. now rewrite <- length_list_byte_of_string, list_byte_of_string_of_list_byte. Qed.

Lemma string_of_list_byte_app (a b : list byte) :
  string_of_list_byte (a ++ b)
  = (string_of_list_byte a ++ string_of_list_byte b)%string.
Proof.
  rewrite <- (string_of_list_byte_of_string (_ ++ _)%string).
  now rewrite list_byte_of_string_app, !list_byte_of_string_of_list_byte.
Qed.

Lemma list_byte_of_string_inj (a b : string) :
  list_byte_of_string a = list_byte_of_string b -> a = b.
Proof.
  intros H. apply (f_equal string_of_list_byte) in H.
  now rewrite !string_of_list_byte_of_string in H.
Qed.

Lemma byte_eqb_refl (b : byte) : Byte.eqb b b = true.
Proof. now apply Byte.byte_dec_lb. Qed.

Lemma byte_eqb_eq (a b : byte) : Byte.eqb a b = true <-> a = b.
Proof. split; [apply Byte.byte_dec_bl|intros ->; apply byte_eqb_refl]. Qed.

Lemma byte_eqb_neq (a b : byte) : Byte.eqb a b = false <-> a <> b.
Proof.
  split.
  - intros H E. rewrite (proj2 (byte_eqb_eq a b) E) in H. discriminate.
  - intros H. destruct (Byte.eqb a b) eqn:E; [|reflexivity].
    now apply byte_eqb_eq in E.
Qed.

Import gostrings.

Lemma hasPrefix_app (sub rest : list byte) : hasPrefix (sub ++ rest) sub = true.
Proof.
  induction sub as [|c sub IH]; [now destruct rest|].
  cbn. now rewrite byte_eqb_refl, IH.
Qed.

Lemma hasPrefix_true (s sub : list byte) :
  hasPrefix s sub = true -> exists rest, s = sub ++ rest.
Proof.
  revert s. induction sub as [|c sub IH]; intros s H.
  - exists s. reflexivity.
  - destruct s as [|d s]; [discriminate|]. cbn in H.
    apply andb_true_iff in H as [H1 H2]. apply byte_eqb_eq in H1. subst d.
    destruct (IH s H2) as [rest ->]. now exists rest.
Qed.

(** An instance found: where it is, and that none follows it. *)
Lemma lastIndex_Some (s sub : list byte) (i : nat) :
  lastIndex s sub = Some i ->
  (i <= length s)%nat
  /\ hasPrefix (skipn i s) sub = true
  /\ (i < length s -> lastIndex (skipn (S i) s) sub = None)%nat.
Proof.
  revert i. induction s as [|c s IH]; intros i H.
  - cbn [lastIndex] in H. destruct (hasPrefix [] sub) eqn:E; [|discriminate].
    injection H as <-. cbn [length]. split; [lia|]. split; [rewrite skipn_O; exact E|lia].
  - cbn [lastIndex] in H. destruct (lastIndex s sub) as [j|] eqn:Hj.
    + injection H as <-. destruct (IH j eq_refl) as (H1 & H2 & H3).
      cbn [length skipn]. split; [lia|]. split; [exact H2|].
      intros Hlt. destruct s as [|d s']; [cbn in *; lia|]. apply H3. lia.
    + destruct (hasPrefix (c :: s) sub) eqn:E; [|discriminate].
      injection H as <-. cbn [length]. split; [lia|]. split; [rewrite skipn_O; exact E|].
      intros _. cbn [skipn]. rewrite skipn_O. exact Hj.
Qed.

Lemma lastIndex_None_skipn (s sub : list byte) (k : nat) :
  lastIndex s sub = None -> lastIndex (skipn k s) sub = None.
Proof.
  revert s. induction k as [|k IH]; intros s H; [now rewrite skipn_O|].
  destruct s as [|c s]; [exact H|]. cbn [skipn]. apply IH.
  cbn [lastIndex] in H. destruct (lastIndex s sub); [discriminate|reflexivity].
Qed.

(** No instance at all without the first byte of [sub]. *)
Lemma lastIndex_None_without (s sub : list byte) (c : byte) :
  ~ In c s -> lastIndex s (c :: sub) = None.
Proof.
  induction s as [|d s IH]; intros H; [reflexivity|].
  cbn [lastIndex]. rewrite IH by (intros Hin; apply H; now right).
  cbn [hasPrefix].
  replace (Byte.eqb d c) with false; [reflexivity|].
  symmetry. apply byte_eqb_neq. intros ->. apply H. now left.
Qed.

(** After a prefix, the last instance is the one that nothing follows. *)
Lemma lastIndex_app (base s sub : list byte) (i : nat) :
  lastIndex s sub = Some i -> lastIndex (base ++ s) sub = Some (length base + i)%nat.
Proof.
  intros H. induction base as [|b base IH]; [exact H|].
  cbn [app lastIndex length]. now rewrite IH.
Qed.

End Strings.

Section HTML.
Import html.

Lemma escape_no_markup (b : byte) : forallb (fun c => negb (markup c)) (escape b) = true.
Proof. destruct b; reflexivity. Qed.

Lemma EscapeString_no_markup (s : string) :
  forallb (fun c => negb (markup c)) (list_byte_of_string (EscapeString s)) = true.
Proof.
  unfold EscapeString. rewrite list_byte_of_string_of_list_byte.
  induction (list_byte_of_string s) as [|b l IH]; [reflexivity|].
  cbn [flat_map]. rewrite forallb_app, escape_no_markup. exact IH.
Qed.

End HTML.

Section Alphabet.
Import base64.
Local Open Scope N_scope.

Lemma urlSafe_encode (x : N) : urlSafe (encode (x mod 64)) = true.
Proof.
  assert (H : forallb (fun i => urlSafe (nth i encodeURL x00)) (seq 0 64) = true)
    by (vm_compute; reflexivity).
  rewrite forallb_forall in H. unfold encode. apply H. apply in_seq.
  pose proof (N.mod_upper_bound x 64 ltac:(discriminate)) as Hlt.
  remember (x mod 64) as y. clear Heqy. lia.
Qed.

Lemma urlSafe_Encode : forall bs, forallb urlSafe (Encode bs) = true.
Proof.
  intros bs. remember (length bs) as n eqn:Hn. revert bs Hn.
  induction n as [n IH] using lt_wf_ind. intros bs Hn.
  destruct bs as [|a [|b [|c rest]]]; [reflexivity| | |].
  - cbn [Encode forallb]. now rewrite !urlSafe_encode.
  - cbn [Encode forallb]. now rewrite !urlSafe_encode.
  - cbn [Encode forallb]. rewrite !urlSafe_encode.
    rewrite (IH (length rest)); [reflexivity| |reflexivity].
    subst n. cbn [length]. lia.
Qed.

Lemma urlSafe_EncodeToString (bs : list byte) :
  forallb urlSafe (list_byte_of_string (EncodeToString bs)) = true.
Proof.
  unfold EncodeToString. rewrite list_byte_of_string_of_list_byte. apply urlSafe_Encode.
Qed.

Lemma urlSafe_no_slash (l : list byte) : forallb urlSafe l = true -> ~ In "/"%byte l.
Proof.
  intros H Hin. rewrite forallb_forall in H. specialize (H _ Hin). discriminate H.
Qed.

End Alphabet.

Section TokenOfRaw.
Import gostrings web.

Lemma wh_bytes : list_byte_of_string "/wh/" = ["/"; "w"; "h"; "/"]%byte.
Proof. reflexivity. Qed.

(** No [/wh/] begins in [wh/] followed by a token without a slash. *)
Lemma lastIndex_tail (token : list byte) :
  ~ In "/"%byte token ->
  lastIndex (["w"; "h"; "/"]%byte ++ token) ["/"; "w"; "h"; "/"]%byte = None.
Proof.
  intros H.
  pose proof (lastIndex_None_without token ["w"; "h"; "/"]%byte "/"%byte H) as Hn.
  cbn [app lastIndex]. rewrite Hn.
  destruct token as [|t token]; [reflexivity|].
  cbn [hasPrefix].
  change (Byte.eqb "h" "/") with false. change (Byte.eqb "w" "/") with false.
  change (Byte.eqb "/" "/") with true. cbn [andb].
  replace (Byte.eqb t "w" && _) with false; [reflexivity|].
  symmetry. destruct token as [|t2 token]; [now rewrite andb_false_r|].
  destruct token as [|t3 token]; [cbn [hasPrefix]; now rewrite !andb_false_r|].
  cbn [hasPrefix].
  replace (Byte.eqb t3 "/") with false; [now rewrite !andb_false_r|].
  symmetry. apply byte_eqb_neq. intros ->. apply H. cbn. tauto.
Qed.

Lemma LastIndex_webhook_URL (base token : string) :
  ~ In "/"%byte (list_byte_of_string token) ->
  LastIndex (base ++ "/wh/" ++ token) "/wh/" = Z.of_nat (String.length base).
Proof.
  intros H. unfold LastIndex.
  rewrite !list_byte_of_string_app, wh_bytes.
  rewrite (lastIndex_app (list_byte_of_string base) _ _ 0).
  - now rewrite Nat.add_0_r, length_list_byte_of_string.
  - change (["/"; "w"; "h"; "/"]%byte ++ list_byte_of_string token)
      with ("/"%byte :: (["w"; "h"; "/"]%byte ++ list_byte_of_string token)).
    cbn [lastIndex]. rewrite (lastIndex_tail _ H).
    cbn [hasPrefix app]. now rewrite !byte_eqb_refl.
Qed.

Lemma LastIndex_bare (token : string) :
  ~ In "/"%byte (list_byte_of_string token) -> LastIndex token "/wh/" = (-1)%Z.
Proof.
  intros H. unfold LastIndex. rewrite wh_bytes.
  now rewrite (lastIndex_None_without _ _ _ H).
Qed.

(** A webhook URL and its bare token give the same token. *)
Lemma token_of_raw_webhook_URL (base token : string) :
  ~ In "/"%byte (list_byte_of_string token) ->
  token_of_raw (base ++ "/wh/" ++ token) = Return token
  /\ token_of_raw token = Return token.
Proof.
  intros H. unfold token_of_raw. split.
  - rewrite (LastIndex_webhook_URL base token H).
    replace (Z.of_nat (String.length base) =? -1)%Z with false
      by (symmetry; apply Z.eqb_neq; lia).
    cbn [negb]. unfold substr_from.
    rewrite <- !length_list_byte_of_string, !list_byte_of_string_app, !length_app.
    rewrite wh_bytes. cbn [length].
    replace ((0 <=? _) && (_ <=? _))%Z with true
      by (symmetry; apply andb_true_iff; split; apply Z.leb_le; lia).
    f_equal.
    replace (Z.to_nat _) with (length (list_byte_of_string base) + 4)%nat by lia.
    rewrite skipn_app, skipn_all2 by lia.
    replace (_ + 4 - _)%nat with 4%nat by lia.
    cbn [app skipn]. rewrite skipn_O. apply string_of_list_byte_of_string.
  - now rewrite (LastIndex_bare token H).
Qed.

(** What [token_of_raw] gives for any input: it does not panic; the token
    holds no [/wh/]; the input is the token, or ends in [/wh/] and the
    token. *)
Lemma token_of_raw_suffix (raw : string) :
  exists token,
    token_of_raw raw = Return token
    /\ LastIndex token "/wh/" = (-1)%Z
    /\ (raw = token \/ exists pre, raw = (pre ++ "/wh/" ++ token)%string).
Proof.
  unfold token_of_raw. cbv zeta.
  assert (HL : LastIndex raw "/wh/"
               = match lastIndex (list_byte_of_string raw)
                         (list_byte_of_string "/wh/") with
                 | Some i => Z.of_nat i
                 | None => (-1)%Z
                 end) by reflexivity.
  rewrite HL. clear HL.
  destruct (lastIndex (list_byte_of_string raw) (list_byte_of_string "/wh/"))
    as [i|] eqn:Hi.
  - destruct (lastIndex_Some _ _ _ Hi) as (Hle & Hpre & Hlast).
    apply hasPrefix_true in Hpre as [rest Hrest].
    replace (Z.of_nat i =? -1)%Z with false by (symmetry; apply Z.eqb_neq; lia).
    cbn [negb].
    assert (Hraw : list_byte_of_string raw
                   = firstn i (list_byte_of_string raw)
                     ++ list_byte_of_string "/wh/" ++ rest).
    { rewrite <- Hrest. symmetry. apply firstn_skipn. }
    assert (Hlen : (i + 4 <= length (list_byte_of_string raw))%nat).
    { rewrite Hraw at 1. rewrite !length_app, length_firstn, wh_bytes. cbn [length]. lia. }
    assert (Hsk : skipn (i + 4) (list_byte_of_string raw) = rest).
    { rewrite <- Nat.add_comm, <- skipn_skipn, Hrest. reflexivity. }
    exists (string_of_list_byte rest). split; [|split].
    + unfold substr_from. rewrite <- (length_list_byte_of_string raw).
      change (String.length "/wh/") with 4%nat.
      replace ((0 <=? _) && (_ <=? _))%Z with true
        by (symmetry; apply andb_true_iff; split; apply Z.leb_le; lia).
      f_equal. f_equal. rewrite <- Hsk. f_equal. lia.
    + unfold LastIndex. rewrite list_byte_of_string_of_list_byte.
      rewrite <- Hsk.
      replace (i + 4)%nat with (3 + S i)%nat by lia. rewrite <- skipn_skipn.
      rewrite lastIndex_None_skipn; [reflexivity|].
      apply Hlast. lia.
    + right. exists (string_of_list_byte (firstn i (list_byte_of_string raw))).
      apply list_byte_of_string_inj.
      rewrite !list_byte_of_string_app, !list_byte_of_string_of_list_byte.
      exact Hraw.
  - cbn [negb Z.eqb]. exists raw. split; [reflexivity|]. split; [|now left].
    unfold LastIndex. now rewrite Hi.
Qed.

End TokenOfRaw.

Section SealerMore.
Import config.

(** A token [Seal] returned is the token of the nonce it drew. *)
Lemma Seal_Return (s : Sealer) (u t : string) (rd : rand.Reader) (token : string) :
  fst (Seal s u t rd) = Return (token, None) ->
  rand.failure rd = None
  /\ token = token_of s (map (rand.stream rd) (seq 0 12)) u t.
Proof.
  intros H. destruct (rand.failure rd) as [err|] eqn:Hrd.
  - rewrite Seal_unfold in H. unfold rand.Read in H. rewrite Hrd in H.
    cbn [fst] in H. discriminate H.
  - split; [reflexivity|]. rewrite (Seal_token s u t rd Hrd) in H.
    cbn [fst] in H. now injection H as <-.
Qed.

(** X1 (the characters of a token).  Under a random source that does not
    fail, every character of the token [Seal] returns is a letter, a digit,
    [-], [_] or the padding [=]: the token can stand in a URL path. *)
Theorem Seal_token_alphabet (s : Sealer) (u t : string) (rd : rand.Reader) :
  rand.failure rd = None ->
  exists token rd',
    Seal s u t rd = (Return (token, None), rd')
    /\ forall b, In b (list_byte_of_string token) ->
         In b base64.encodeURL \/ b = base64.padChar.
Proof.
  intros Hrd. eexists _, _. split; [apply Seal_token; exact Hrd|].
  intros b Hb. unfold token_of in Hb.
  pose proof (urlSafe_EncodeToString
                (map (rand.stream rd) (seq 0 12) ++
                 (let pt := fst (Marshal {| URL := u; Tmpl := t |}) in
                  let ct := cipher.counterCrypt (length pt) (gcm_of s)
                              (map (rand.stream rd) (seq 0 12)) 2 pt in
                  ct ++ cipher.auth (gcm_of s) (map (rand.stream rd) (seq 0 12)) ct)))
    as Hsafe.
  rewrite forallb_forall in Hsafe. specialize (Hsafe b Hb).
  unfold urlSafe in Hsafe. apply orb_true_iff in Hsafe as [H|H].
  - left. apply existsb_exists in H as (x & Hx & E).
    apply byte_eqb_eq in E. now subst x.
  - right. now apply byte_eqb_eq in H.
Qed.

(** X3 (tokens too short for a tag).  A token that decodes to fewer than
    the 28 bytes of a nonce and a tag is rejected for every secret: with
    [token too short] below 12 bytes, with the decryption error from 12 to
    27 bytes. *)
Theorem Unseal_short (s : Sealer) (token : string) (data : list byte) :
  base64.DecodeString token = (data, None) ->
  length data < 28 ->
  Unseal s token
  = Return (""%string, ""%string,
            Some (if (length data <? 12)%nat then errors_New "token too short"
                  else fmt_Errorf "decrypt token: " cipher.errOpen)).
Proof.
  intros Hd Hlen. destruct (length data <? 12)%nat eqn:H12.
  - rewrite (Unseal_unfold s token data Hd), H12. reflexivity.
  - apply Nat.ltb_ge in H12.
    rewrite <- (firstn_skipn 12 data) in Hd.
    assert (Hn : length (firstn 12 data) = 12) by (rewrite length_firstn; lia).
    rewrite (Unseal_decoded s token _ _ Hd Hn).
    rewrite Open_short; [reflexivity|exact Hn|rewrite length_skipn; lia].
Qed.

(** X2 (one token, one configuration).  Two calls of [Seal] under one
    secret that return the same token sealed the same URL and the same
    template, up to the bytes [json.Marshal] replaces by U+FFFD: two
    configurations of valid UTF-8 with one token are equal. *)
Theorem Seal_injective (s : Sealer) (u t u' t' : string) (rd rd' : rand.Reader)
    (token : string) :
  fst (Seal s u t rd) = Return (token, None) ->
  fst (Seal s u' t' rd') = Return (token, None) ->
  utf8.coerce u = utf8.coerce u' /\ utf8.coerce t = utf8.coerce t'
  /\ (utf8.ValidString u = true -> utf8.ValidString t = true ->
      utf8.ValidString u' = true -> utf8.ValidString t' = true ->
      u = u' /\ t = t').
Proof.
  intros H1 H2.
  destruct (Seal_Return s u t rd token H1) as [_ E1].
  destruct (Seal_Return s u' t' rd' token H2) as [_ E2].
  pose proof (Unseal_token s (map (rand.stream rd) (seq 0 12)) u t
                ltac:(now rewrite length_map, length_seq)) as U1.
  pose proof (Unseal_token s (map (rand.stream rd') (seq 0 12)) u' t'
                ltac:(now rewrite length_map, length_seq)) as U2.
  rewrite <- E1 in U1. rewrite <- E2, U1 in U2. injection U2 as Eu Et.
  split; [exact Eu|]. split; [exact Et|].
  intros Hu Ht Hu' Ht'.
  now rewrite !coerce_valid in Eu, Et by assumption.
Qed.

End SealerMore.

Section CacheMore.
Import rest.

Variable engine : text_template.Engine.

Ltac split_template H :=
  unfold template in H;
  match type of H with
  | context [match ?x with Some _ => _ | None => _ end] =>
      let Hc := fresh "Hc" in destruct x eqn:Hc
  end;
  [|match type of H with
    | context [match ?x with Ok _ => _ | Err _ => _ end] => destruct x
    end];
  try discriminate H; injection H as <- <-.

(** A template found or stored is found from then on. *)
Lemma template_stored (c : cache engine) (url tstr : string)
    (c' : cache engine) (tmpl : text_template.Template engine) :
  template engine c url tstr = (c', Ok tmpl) ->
  c' !! fingerprint url tstr = Some tmpl.
Proof.
  intros H. split_template H; [assumption|].
  unfold cache. apply lookup_insert_eq.
Qed.

Lemma template_found (c : cache engine) (url tstr : string)
    (tmpl : text_template.Template engine) :
  c !! fingerprint url tstr = Some tmpl ->
  template engine c url tstr = (c, Ok tmpl).
Proof. unfold template. now intros ->. Qed.

(** Whatever [template] returns, the cache it leaves holds every entry of
    the one it got, and differs from it at its own key at most. *)
Lemma template_keeps (c : cache engine) (url tstr : string) (k : string)
    (t : text_template.Template engine) :
  c !! k = Some t -> fst (template engine c url tstr) !! k = Some t.
Proof.
  intros Hk. unfold template.
  destruct (c !! fingerprint url tstr) as [t0|] eqn:Hc; [exact Hk|].
  destruct (text_template.Parse engine tstr) as [t0|e]; [|exact Hk].
  cbn [fst]. destruct (decide (k = fingerprint url tstr)) as [->|Hne].
  - unfold cache in *. rewrite Hc in Hk. discriminate.
  - unfold cache in *. now rewrite lookup_insert_ne.
Qed.

Lemma template_other (c : cache engine) (url tstr : string) (k : string) :
  k <> fingerprint url tstr -> fst (template engine c url tstr) !! k = c !! k.
Proof.
  intros Hne. unfold template.
  destruct (c !! fingerprint url tstr) as [t0|] eqn:Hc; [reflexivity|].
  destruct (text_template.Parse engine tstr) as [t0|e]; [|reflexivity].
  cbn [fst]. unfold cache in *. now rewrite lookup_insert_ne.
Qed.

Lemma template_Err (c : cache engine) (url tstr : string) (c' : cache engine)
    (err : error) :
  template engine c url tstr = (c', Err err) -> c' = c.
Proof.
  unfold template.
  destruct (c !! fingerprint url tstr) as [t0|]; [discriminate|].
  destruct (text_template.Parse engine tstr) as [t0|e]; [discriminate|].
  intros H. now injection H as <- _.
Qed.

(** X5 (the template cache).  When [Server.template] fails the cache is as
    it was.  When it returns a template, the cache holds it under the key
    of the URL and the template text, keeps every entry it had, differs
    from the old cache at that key at most, and a second call returns the
    same template and leaves the cache as it is. *)
Theorem template_cache (c : cache engine) (url tstr : string) :
  match template engine c url tstr with
  | (c', Ok tmpl) =>
      c' !! fingerprint url tstr = Some tmpl
      /\ (forall k t, c !! k = Some t -> c' !! k = Some t)
      /\ (forall k, k <> fingerprint url tstr -> c' !! k = c !! k)
      /\ template engine c' url tstr = (c', Ok tmpl)
  | (c', Err _) => c' = c
  end.
Proof.
  pose proof (template_keeps c url tstr) as Hkeep.
  pose proof (template_other c url tstr) as Hother.
  destruct (template engine c url tstr) as [c' [tmpl|err]] eqn:H.
  - pose proof (template_stored c url tstr c' tmpl H) as Hs.
    split; [exact Hs|]. split; [exact Hkeep|]. split; [exact Hother|].
    now apply template_found.
  - exact (template_Err c url tstr c' err H).
Qed.

(** X6 (one key for one concatenation).  Two configurations whose URL and
    template text concatenate to the same text share their cache key: once
    [Server.template] returned a template for the one, it returns that
    template for the other. *)
Theorem template_shared_key (c : cache engine) (url1 t1 url2 t2 : string)
    (c' : cache engine) (tmpl : text_template.Template engine) :
  (url1 ++ t1)%string = (url2 ++ t2)%string ->
  template engine c url1 t1 = (c', Ok tmpl) ->
  template engine c' url2 t2 = (c', Ok tmpl).
Proof.
  intros E H. apply template_found.
  replace (fingerprint url2 t2) with (fingerprint url1 t1)
    by (now rewrite !fingerprint_append, E).
  exact (template_stored c url1 t1 c' tmpl H).
Qed.

End CacheMore.

Section RelayMore.
Import rest.

Variable engine : text_template.Engine.
Variable net : http.Package.

(** The relay proxies the answer of the target.  When the token
    unseals, the body decodes, the template compiles and executes and the
    target answers with a status from 100 to 999, the handler answers with
    that status, whatever it is, and the bytes read from its body, after
    one outbound request: the inbound method (GET when empty), the sealed
    URL and the output of the template. *)
Theorem handleWebhook_proxies (s : Server) (c : cache engine) (r : Request)
    (url tmpl : string) (body : list byte) (data : json.object)
    (c' : cache engine) (t : text_template.Template engine) (buf : list byte)
    (resp : http.Response) :
  Unseal (Sealer_ s) (PathValue_token r) = Return (url, tmpl, None) ->
  Body r = (body, None) ->
  (if (0 <? length body)%nat then json.UnmarshalMap body None
   else (None, None)) = (data, None) ->
  template engine c url tmpl = (c', Ok t) ->
  text_template.Execute engine t data = (buf, None) ->
  http.refuse net (Method r) url = None ->
  http.Do net {| http.Method := if String.eqb (Method r) "" then "GET"%string
                                else Method r;
                 http.URL := url;
                 http.Body := buf |} = Ok resp ->
  (100 <= http.StatusCode resp <= 999)%N ->
  handleWebhook engine net s c r
  = Return {| templates := c';
              response := {| Code := http.StatusCode resp;
                             Written := Copied (fst (http.ResponseBody resp)) |};
              sent := [{| http.Method := if String.eqb (Method r) "" then "GET"%string
                                         else Method r;
                          http.URL := url;
                          http.Body := buf |}] |}.
Proof.
  intros HU Hb Hd Ht Hx Hr Hdo Hcode.
  rewrite (handleWebhook_delivers engine net s c r url tmpl body data c' t buf
             HU Hb Hd Ht Hx Hr).
  cbv zeta. rewrite Hdo. unfold http.checkWriteHeaderCode.
  replace ((http.StatusCode resp <? 100) || (999 <? http.StatusCode resp))%N
    with false; [reflexivity|].
  symmetry. apply orb_false_iff. split; apply N.ltb_ge; lia.
Qed.

(** The two failures the status mapping leaves out.  When the token
    unseals: a body that cannot be read is answered 400 and a request that
    [http.NewRequestWithContext] refuses is answered 500; in both cases
    nothing is sent. *)
Theorem handleWebhook_early_failures (s : Server) (c : cache engine) (r : Request)
    (url tmpl : string) :
  Unseal (Sealer_ s) (PathValue_token r) = Return (url, tmpl, None) ->
  (forall partial err,
      Body r = (partial, Some err) ->
      handleWebhook engine net s c r
      = Return (error_ engine c 400 "failed to read request body: " err []))
  /\ (forall body data c' t buf err,
        Body r = (body, None) ->
        (if (0 <? length body)%nat then json.UnmarshalMap body None
         else (None, None)) = (data, None) ->
        template engine c url tmpl = (c', Ok t) ->
        text_template.Execute engine t data = (buf, None) ->
        http.refuse net (Method r) url = Some err ->
        handleWebhook engine net s c r
        = Return (error_ engine c' 500 "failed to create request: " err [])).
Proof.
  intros HU. split.
  - intros partial err Hb. unfold handleWebhook. rewrite HU.
    cbn [bind]. now rewrite Hb.
  - intros body data c' t buf err Hb Hd Ht Hx Hr.
    unfold handleWebhook. rewrite HU. cbn [bind].
    rewrite Hb, Hd, Ht, Hx. unfold http.NewRequestWithContext.
    now rewrite Hr.
Qed.

(** The cache a return of the handler leaves. *)
Lemma handleWebhook_templates (s : Server) (c : cache engine) (r : Request)
    (url tmpl : string) (h : handled engine) :
  Unseal (Sealer_ s) (PathValue_token r) = Return (url, tmpl, None) ->
  handleWebhook engine net s c r = Return h ->
  templates h = c \/ templates h = fst (template engine c url tmpl).
Proof.
  intros HU H. unfold handleWebhook, error_ in H. rewrite HU in H. cbn [bind] in H.
  destruct (Body r) as [body [e|]]; [injection H as <-; now left|].
  destruct (if (0 <? length body)%nat then _ else _) as [data [e|]];
    [injection H as <-; now left|].
  destruct (template engine c url tmpl) as [c' [t|e]]; [|injection H as <-; now right].
  destruct (text_template.Execute engine t data) as [buf [e|]];
    [injection H as <-; now right|].
  destruct (http.NewRequestWithContext net (Method r) url buf) as [req|e];
    [|injection H as <-; now right].
  destruct (http.Do net req) as [resp|e]; [|injection H as <-; now right].
  destruct (http.checkWriteHeaderCode (http.StatusCode resp)); [|discriminate H].
  injection H as <-. now right.
Qed.

(** X7 (the relay and the cache).  When its sealer returns, the handler
    returns, or it panics in [WriteHeader] on a status of the target
    outside 100..999.  The cache a return leaves holds every entry of the
    one it got; it differs from it at the key of the unsealed configuration
    at most; and a token that fails to unseal is a return that leaves the
    cache as it was. *)
Theorem handleWebhook_cache (s : Server) (c : cache engine) (r : Request) :
  (exists res, Unseal (Sealer_ s) (PathValue_token r) = Return res) ->
  ((exists h, handleWebhook engine net s c r = Return h)
   \/ (exists req resp,
         http.Do net req = Ok resp
         /\ ((http.StatusCode resp <? 100) || (999 <? http.StatusCode resp))%N = true
         /\ handleWebhook engine net s c r
            = Panic ("invalid WriteHeader code " ++ itoa (http.StatusCode resp))))
  /\ (forall h,
        handleWebhook engine net s c r = Return h ->
        (forall k t, c !! k = Some t -> templates h !! k = Some t)
        /\ (forall url tmpl k,
              Unseal (Sealer_ s) (PathValue_token r) = Return (url, tmpl, None) ->
              k <> fingerprint url tmpl -> templates h !! k = c !! k))
  /\ (forall url tmpl err,
        Unseal (Sealer_ s) (PathValue_token r) = Return (url, tmpl, Some err) ->
        exists h, handleWebhook engine net s c r = Return h /\ templates h = c).
Proof.
  intros Hres. split; [exact (handleWebhook_outcome engine net s c r Hres)|]. split.
  - intros h H.
    destruct (Unseal (Sealer_ s) (PathValue_token r)) as [[[url tmpl] [err|]]|] eqn:HU.
    + rewrite (handleWebhook_bad_token engine net s c r url tmpl err HU) in H.
      injection H as <-. cbn [templates]. split; intros; congruence.
    + destruct (handleWebhook_templates s c r url tmpl h HU H) as [Hc|Hc];
        rewrite Hc; split.
      * intros k t Hk. exact Hk.
      * reflexivity.
      * intros k t Hk. now apply template_keeps.
      * intros url' tmpl' k E Hne. injection E as <- <-. now apply template_other.
    + destruct Hres as [res Hres]. discriminate Hres.
  - intros url tmpl err HU.
    rewrite (handleWebhook_bad_token engine net s c r url tmpl err HU).
    eexists. split; reflexivity.
Qed.

End RelayMore.

Section Count.

Lemma count_app (b : byte) (l1 l2 : list byte) :
  count b (l1 ++ l2) = (count b l1 + count b l2)%nat.
Proof. induction l1 as [|c l1 IH]; [reflexivity|]. cbn [app count]. rewrite IH. lia. Qed.

Lemma count_no_markup (b : byte) (l : list byte) :
  markup b = true -> forallb (fun c => negb (markup c)) l = true -> count b l = 0%nat.
Proof.
  intros Hb H. induction l as [|c l IH]; [reflexivity|].
  cbn [forallb] in H. apply andb_true_iff in H as [Hc Hl].
  cbn [count]. destruct (Byte.eqb b c) eqn:E.
  - apply byte_eqb_eq in E. subst c. rewrite Hb in Hc. discriminate.
  - now rewrite IH.
Qed.

Lemma count_EscapeString (b : byte) (s : string) :
  markup b = true -> count b (list_byte_of_string (html.EscapeString s)) = 0%nat.
Proof. intros Hb. apply count_no_markup; [exact Hb|apply EscapeString_no_markup]. Qed.

End Count.

Section WebUI.
Import rest web.

Variable engine : text_template.Engine.

(** X15 (the answers of [handleRender]).  Every request is answered 200,
    errors included; the answer holds at most two [<], two [>] and two
    double quotes, those of its own markup, and no single quote: the output
    of the template and the error texts add none. *)
Theorem handleRender_markup (r : Request) :
  let body := text_of (Written (handleRender engine r)) in
  Code (handleRender engine r) = 200%N
  /\ (count "<" body <= 2)%nat /\ (count ">" body <= 2)%nat
  /\ (count x22 body <= 2)%nat /\ count "'" body = 0%nat.
Proof.
  assert (Hspan : forall label text,
    count "<" (list_byte_of_string label) = 0%nat ->
    count ">" (list_byte_of_string label) = 0%nat ->
    count x22 (list_byte_of_string label) = 0%nat ->
    count "'" (list_byte_of_string label) = 0%nat ->
    let body := text_of (Written (span_error label text)) in
    Code (span_error label text) = 200%N
    /\ (count "<" body <= 2)%nat /\ (count ">" body <= 2)%nat
    /\ (count x22 body <= 2)%nat /\ count "'" body = 0%nat).
  { intros label text H1 H2 H3 H4. cbn [span_error Written Code text_of].
    split; [reflexivity|].
    rewrite !count_app, H1, H2, H3, H4, !count_EscapeString by reflexivity.
    cbn. lia. }
  cbv zeta. unfold handleRender.
  destruct (ParseForm r) as [err|]; [now apply Hspan|].
  destruct (String.eqb (FormValue r "template") ""); [cbn; lia|].
  destruct (if negb _ then _ else _) as [data [err|]]; [now apply Hspan|].
  destruct (text_template.Parse engine _) as [tmpl|err]; [|now apply Hspan].
  destruct (text_template.Execute engine tmpl data) as [buf [err|]]; [now apply Hspan|].
  cbn [Written Code text_of]. split; [reflexivity|].
  rewrite !count_app, !count_EscapeString by reflexivity. cbn. lia.
Qed.

(** [handleUnseal] and [handleConfigure] under the sealer of [config]. *)
Lemma Encode_cons (a : byte) (l : list byte) : base64.Encode (a :: l) <> [].
Proof. destruct l as [|b [|c l]]; discriminate. Qed.

Lemma token_of_not_empty (cs : config.Sealer) (nonce : list byte) (u t : string) :
  length nonce = 12%nat -> token_of cs nonce u t <> ""%string.
Proof.
  intros Hn E. unfold token_of, base64.EncodeToString in E.
  apply (f_equal list_byte_of_string) in E.
  rewrite list_byte_of_string_of_list_byte in E.
  destruct nonce as [|a nonce]; [discriminate Hn|].
  now apply Encode_cons in E.
Qed.

Lemma token_of_no_slash (cs : config.Sealer) (nonce : list byte) (u t : string) :
  ~ In "/"%byte (list_byte_of_string (token_of cs nonce u t)).
Proof. apply urlSafe_no_slash. apply urlSafe_EncodeToString. Qed.

Lemma eqb_false_app (a : string) (b : string) :
  b <> ""%string -> String.eqb (a ++ b) "" = false.
Proof.
  intros Hb. apply String.eqb_neq. intros E. apply Hb.
  destruct a; [exact E|discriminate E].
Qed.

(** [handleUnseal] on the token of a configuration, bare or in a URL. *)
Lemma handleUnseal_token_of (cs : config.Sealer) (base : string)
    (nonce : list byte) (u t : string) (prefix : string) (r : Request) :
  length nonce = 12%nat ->
  ParseForm r = None ->
  FormValue r "token" = token_of cs nonce u t
  \/ FormValue r "token" = (prefix ++ "/wh/" ++ token_of cs nonce u t)%string ->
  handleUnseal {| BaseURL := base; Sealer_ := config_Sealer cs |} r
  = Return {| Code := 200;
              ContentType := "text/html; charset=utf-8";
              Written :=
                Text (field "Target URL" (html.EscapeString (utf8.coerce u))
                      ++ field "Template" (html.EscapeString (utf8.coerce t))) |}.
Proof.
  intros Hn Hp Hraw. unfold handleUnseal. rewrite Hp.
  destruct (token_of_raw_webhook_URL prefix _ (token_of_no_slash cs nonce u t))
    as [Hfull Hbare].
  assert (Hne : String.eqb (FormValue r "token") "" = false).
  { destruct Hraw as [-> | ->].
    - apply String.eqb_neq. now apply token_of_not_empty.
    - apply eqb_false_app. discriminate. }
  assert (Htok : token_of_raw (FormValue r "token") = Return (token_of cs nonce u t)).
  { destruct Hraw as [-> | ->]; assumption. }
  rewrite Hne, Htok. cbn [bind Sealer_ config_Sealer Unseal].
  rewrite (Unseal_token cs nonce u t Hn). reflexivity.
Qed.

(** X13 (a sealed configuration in the unseal form).  The token [Seal]
    returns, bare or after [/wh/] and any prefix, is unsealed by
    [handleUnseal] to the two fields of the configuration, coerced to valid
    UTF-8 and escaped. *)
Theorem Seal_then_handleUnseal (cs : config.Sealer) (base : string) (u t : string)
    (rd : rand.Reader) :
  rand.failure rd = None ->
  exists token rd',
    config.Seal cs u t rd = (Return (token, None), rd')
    /\ forall (r : Request) (prefix : string),
         ParseForm r = None ->
         FormValue r "token" = token
         \/ FormValue r "token" = (prefix ++ "/wh/" ++ token)%string ->
         handleUnseal {| BaseURL := base; Sealer_ := config_Sealer cs |} r
         = Return {| Code := 200;
                     ContentType := "text/html; charset=utf-8";
                     Written :=
                       Text (field "Target URL" (html.EscapeString (utf8.coerce u))
                             ++ field "Template"
                                  (html.EscapeString (utf8.coerce t))) |}.
Proof.
  intros Hrd. eexists _, _. split; [apply Seal_token; exact Hrd|].
  intros r prefix Hp Hraw.
  apply (handleUnseal_token_of cs base (map (rand.stream rd) (seq 0 12)) u t
           prefix r); [|exact Hp|exact Hraw].
  now rewrite length_map, length_seq.
Qed.

(** X14 (the answers of [handleUnseal]).  Under the sealer of [config]
    every request is answered 200, errors included, without a panic; the
    answer holds at most the 16 opening angle brackets and 12 double quotes
    of its own markup and no single quote: the unsealed URL, the template
    and the error text add none. *)
Theorem handleUnseal_markup (cs : config.Sealer) (base : string) (r : Request) :
  exists resp,
    handleUnseal {| BaseURL := base; Sealer_ := config_Sealer cs |} r = Return resp
    /\ Code resp = 200%N
    /\ (count "<" (text_of (Written resp)) <= 16)%nat
    /\ (count x22 (text_of (Written resp)) <= 12)%nat
    /\ count "'" (text_of (Written resp)) = 0%nat.
Proof.
  unfold handleUnseal.
  destruct (ParseForm r) as [err|].
  { eexists. split; [reflexivity|]. cbn [span_error Written Code text_of].
    split; [reflexivity|].
    rewrite !count_app, !count_EscapeString by reflexivity. cbn. lia. }
  destruct (String.eqb (FormValue r "token") "").
  { eexists. split; [reflexivity|]. cbn. lia. }
  destruct (token_of_raw_suffix (FormValue r "token")) as (token & -> & _).
  cbn [bind Sealer_ config_Sealer Unseal].
  destruct (Unseal_returns cs token) as [[[u t] [err|]] ->]; cbn [bind].
  - eexists. split; [reflexivity|]. cbn [span_error Written Code text_of].
    split; [reflexivity|].
    rewrite !count_app, !count_EscapeString by reflexivity. cbn. lia.
  - eexists. split; [reflexivity|]. cbn [Written Code text_of]. split; [reflexivity|].
    unfold field. rewrite !count_app, !count_EscapeString by reflexivity. cbn. lia.
Qed.

End WebUI.

Section Configure.
Import rest web.

Variable engine : text_template.Engine.
Variable net : http.Package.

(** The JSON answer of [handleConfigure] read back. *)
Lemma parse_Encode (w : string) :
  json.parse (Encode w)
  = Ok (json.Object [("webhook_url"%string, json.String (utf8.coerce w))]).
Proof.
  unfold Encode. rewrite appendString_quoted.
  change ([x7b; x22] ++ list_byte_of_string "webhook_url" ++ [x22; x3a])
    with ([x7b] ++ quoted "webhook_url" ++ [x3a]).
  replace ((([x7b] ++ quoted "webhook_url" ++ [x3a]) ++ quoted w) ++ [x7d; x0a])
    with ([x7b] ++ member "webhook_url" w "}" ++ [x0a])
    by (unfold member; now rewrite <- !app_assoc).
  unfold json.parse.
  set (data := [x7b] ++ _).
  assert (Hlen : (1 <= length data)%nat) by (unfold data; cbn [app length]; lia).
  replace (2 * length data + 2)%nat with (S (S (S (2 * length data - 1))))%nat by lia.
  unfold data.
  assert (Hhd : exists tl, member "webhook_url" w "}" ++ [x0a] = x22 :: tl)
    by (eexists; reflexivity).
  destruct Hhd as [tl Htl].
  cbn [app json.parse_value json.skip_space].
  change (json.isSpace x7b) with false. cbv iota.
  change (Byte.eqb x7b "{") with true. cbv iota.
  change (json.maxNestingDepth <? 0 + 1)%N with false. cbv iota.
  rewrite Htl. cbn [json.skip_space]. change (json.isSpace x22) with false. cbv iota.
  change (Byte.eqb x22 "}") with false. cbv iota.
  rewrite <- Htl.
  rewrite parse_members_step by reflexivity.
  change (Byte.eqb "}" ",") with false. change (Byte.eqb "}" "}") with true.
  cbv iota. reflexivity.
Qed.

(** What [handleConfigure] answers when the form is good, the template
    compiles and the sealer returns a token. *)
Lemma handleConfigure_sealed (s : Server) (c : cache engine) (rd : rand.Reader)
    (r : Request) (c' : cache engine) (t : text_template.Template engine)
    (token : string) (rd' : rand.Reader) :
  ParseForm r = None ->
  FormValue r "url" <> ""%string ->
  FormValue r "template" <> ""%string ->
  template engine c (FormValue r "url") (FormValue r "template") = (c', Ok t) ->
  Seal (Sealer_ s) (FormValue r "url") (FormValue r "template") rd
  = (Return (token, None), rd') ->
  handleConfigure engine s c rd r
  = Return (if String.eqb (Header_Get r "HX-Request") "true"
            then {| Code := 200;
                    ContentType := "text/html; charset=utf-8";
                    Written :=
                      Text (input_fragment
                              (html.EscapeString (BaseURL s ++ "/wh/" ++ token))) |}
            else {| Code := 200;
                    ContentType := "application/json";
                    Written := Text (Encode (BaseURL s ++ "/wh/" ++ token)) |},
            c', rd').
Proof.
  intros Hp Hu Ht Htm Hs. unfold handleConfigure. rewrite Hp.
  apply String.eqb_neq in Hu, Ht. rewrite Hu, Ht. cbn [orb].
  rewrite Htm, Hs. now destruct (String.eqb (Header_Get r "HX-Request") "true").
Qed.

(** X8 (what [handleConfigure] rejects).  A form that does not parse, an
    empty URL, an empty template and a template that does not compile are
    answered 400; the cache is left as it was and the random source is not
    read: no token is minted. *)
Theorem handleConfigure_bad_request (s : Server) (c : cache engine)
    (rd : rand.Reader) (r : Request) :
  (exists err, ParseForm r = Some err)
  \/ FormValue r "url" = ""%string
  \/ FormValue r "template" = ""%string
  \/ (exists c' err,
        template engine c (FormValue r "url") (FormValue r "template")
        = (c', Err err)) ->
  exists resp,
    handleConfigure engine s c rd r = Return (resp, c, rd)
    /\ Code resp = 400%N.
Proof.
  intros H. unfold handleConfigure.
  destruct (ParseForm r) as [err|] eqn:Hp; [eexists; split; reflexivity|].
  destruct H as [[err H]|H]; [discriminate H|].
  destruct (String.eqb (FormValue r "url") "") eqn:Hu;
    [eexists; split; reflexivity|].
  destruct (String.eqb (FormValue r "template") "") eqn:Ht;
    [eexists; split; reflexivity|].
  apply String.eqb_neq in Hu, Ht.
  destruct H as [H|[H|(c' & err & H)]]; [contradiction|contradiction|].
  cbn [orb]. rewrite H. rewrite (template_Err engine c _ _ c' err H).
  eexists; split; reflexivity.
Qed.

(** X9 (the answer of a configuration).  For a good form whose template
    compiles, under a random source that does not fail, [handleConfigure]
    seals the two fields and answers 200.  Its JSON answer parses to an
    object of the one member [webhook_url], the base URL, [/wh/] and the
    token; in its HTMX answer the angle brackets and the quotes are those
    of the fragment alone, three and eight: the escaped URL adds none. *)
Theorem handleConfigure_reply (cs : config.Sealer) (base : string)
    (c : cache engine) (rd : rand.Reader) (r : Request)
    (c' : cache engine) (t : text_template.Template engine) :
  ParseForm r = None ->
  FormValue r "url" <> ""%string ->
  FormValue r "template" <> ""%string ->
  template engine c (FormValue r "url") (FormValue r "template") = (c', Ok t) ->
  rand.failure rd = None ->
  exists token rd' resp,
    config.Seal cs (FormValue r "url") (FormValue r "template") rd
    = (Return (token, None), rd')
    /\ handleConfigure engine {| BaseURL := base; Sealer_ := config_Sealer cs |}
         c rd r = Return (resp, c', rd')
    /\ Code resp = 200%N
    /\ if String.eqb (Header_Get r "HX-Request") "true"
       then ContentType resp = "text/html; charset=utf-8"%string
            /\ count "<" (text_of (Written resp)) = 3%nat
            /\ count x22 (text_of (Written resp)) = 8%nat
            /\ count "'" (text_of (Written resp)) = 0%nat
       else ContentType resp = "application/json"%string
            /\ json.parse (text_of (Written resp))
               = Ok (json.Object
                       [("webhook_url"%string,
                         json.String (utf8.coerce (base ++ "/wh/" ++ token)))]).
Proof.
  intros Hp Hu Ht Htm Hrd.
  pose proof (Seal_token cs (FormValue r "url") (FormValue r "template") rd Hrd) as Hs.
  eexists _, _, _. split; [exact Hs|].
  split; [exact (handleConfigure_sealed {| BaseURL := base; Sealer_ := config_Sealer cs |}
                  c rd r c' t _ _ Hp Hu Ht Htm Hs)|].
  cbn [BaseURL].
  destruct (String.eqb (Header_Get r "HX-Request") "true");
    cbn [Code ContentType Written text_of].
  - split; [reflexivity|]. split; [reflexivity|]. unfold input_fragment.
    rewrite !count_app, !count_EscapeString by reflexivity. cbn. lia.
  - split; [reflexivity|]. split; [reflexivity|]. apply parse_Encode.
Qed.


(** X11 (a configuration and then the unseal form).  The webhook URL
    [handleConfigure] answers with, pasted into the form of [handleUnseal],
    is shown as the configured URL and template, coerced to valid UTF-8 and
    escaped, whatever the base URL is. *)
Theorem handleConfigure_then_handleUnseal (cs : config.Sealer) (base : string)
    (c : cache engine) (rd : rand.Reader) (r : Request)
    (c' : cache engine) (t : text_template.Template engine) :
  ParseForm r = None ->
  FormValue r "url" <> ""%string ->
  FormValue r "template" <> ""%string ->
  template engine c (FormValue r "url") (FormValue r "template") = (c', Ok t) ->
  rand.failure rd = None ->
  exists token rd' resp,
    handleConfigure engine {| BaseURL := base; Sealer_ := config_Sealer cs |}
      c rd r = Return (resp, c', rd')
    /\ text_of (Written resp)
       = (if String.eqb (Header_Get r "HX-Request") "true"
          then input_fragment (html.EscapeString (base ++ "/wh/" ++ token))
          else Encode (base ++ "/wh/" ++ token))
    /\ forall r2 : Request,
         ParseForm r2 = None ->
         FormValue r2 "token" = (base ++ "/wh/" ++ token)%string ->
         handleUnseal {| BaseURL := base; Sealer_ := config_Sealer cs |} r2
         = Return {| Code := 200;
                     ContentType := "text/html; charset=utf-8";
                     Written :=
                       Text (field "Target URL"
                               (html.EscapeString (utf8.coerce (FormValue r "url")))
                             ++ field "Template"
                                  (html.EscapeString
                                     (utf8.coerce (FormValue r "template")))) |}.
Proof.
  intros Hp Hu Ht Htm Hrd.
  pose proof (Seal_token cs (FormValue r "url") (FormValue r "template") rd Hrd) as Hs.
  eexists _, _, _.
  split; [exact (handleConfigure_sealed {| BaseURL := base; Sealer_ := config_Sealer cs |}
                  c rd r c' t _ _ Hp Hu Ht Htm Hs)|].
  cbn [BaseURL].
  split; [now destruct (String.eqb (Header_Get r "HX-Request") "true")|].
  intros r2 Hp2 Hraw.
  apply (handleUnseal_token_of cs base (map (rand.stream rd) (seq 0 12))
           (FormValue r "url") (FormValue r "template") base r2);
    [now rewrite length_map, length_seq|exact Hp2|now right].
Qed.

End Configure.

Section Preview.
Import rest web.

Variable engine : text_template.Engine.
Variable net : http.Package.

Lemma eqb_empty_length (s : string) :
  negb (String.eqb s "") = (0 <? length (list_byte_of_string s))%nat.
Proof. destruct s; reflexivity. Qed.

(** X16 (the preview is the delivery).  For a template that is not in the
    cache and one JSON text, as the [data] of the preview form and as the
    body of a webhook request: whatever a return of the webhook handler
    sent is what the preview shows, escaped, and when the preview shows an
    error it sent nothing; and the webhook handler returns, or it panics in
    [WriteHeader] on a status outside 100..999 that the target gave to a
    request with the body the preview shows. *)
Theorem handleRender_previews_delivery (s : Server) (c : cache engine)
    (r : Request) (r' : rest.Request) (url : string) :
  ParseForm r = None ->
  FormValue r "template" <> ""%string ->
  Unseal (Sealer_ s) (PathValue_token r')
  = Return (url, FormValue r "template", None) ->
  Body r' = (list_byte_of_string (FormValue r "data"), None) ->
  c !! fingerprint url (FormValue r "template") = None ->
  (forall h,
      handleWebhook engine net s c r' = Return h ->
      (forall req, In req (sent h) ->
         handleRender engine r = preview (http.Body req))
      /\ (forall label text,
            handleRender engine r = span_error label text -> sent h = []))
  /\ ((exists h, handleWebhook engine net s c r' = Return h)
      \/ (exists req resp,
            handleRender engine r = preview (http.Body req)
            /\ http.Do net req = Ok resp
            /\ ((http.StatusCode resp <? 100) || (999 <? http.StatusCode resp))%N = true
            /\ handleWebhook engine net s c r'
               = Panic ("invalid WriteHeader code " ++ itoa (http.StatusCode resp)))).
Proof.
  intros Hp Ht HU Hb Hc.
  unfold handleWebhook, handleRender, rest.error_. rewrite HU, Hp, Hb. cbn [bind].
  apply String.eqb_neq in Ht. rewrite Ht.
  rewrite eqb_empty_length.
  assert (Hret : forall (X : handled engine) (out : Response) (P : Prop),
             (forall req, In req (sent X) -> out = preview (http.Body req)) ->
             (forall label text, out = span_error label text -> sent X = []) ->
             (forall h, Return X = Return h ->
                (forall req, In req (sent h) -> out = preview (http.Body req))
                /\ (forall label text, out = span_error label text -> sent h = []))
             /\ ((exists h, Return X = Return h) \/ P)).
  { intros X out P H1 H2. split; [|left; eexists; reflexivity].
    intros h E. injection E as <-. split; assumption. }
  destruct (if (0 <? length _)%nat then _ else _) as [data [e|]];
    [apply Hret; [intros req []|reflexivity]|].
  unfold template. rewrite Hc.
  destruct (text_template.Parse engine (FormValue r "template")) as [t|e];
    [|apply Hret; [intros req []|reflexivity]].
  destruct (text_template.Execute engine t data) as [buf [e|]];
    [apply Hret; [intros req []|reflexivity]|].
  unfold http.NewRequestWithContext.
  destruct (http.refuse net (rest.Method r') url) as [e|];
    [apply Hret; [intros req []|reflexivity]|].
  destruct (http.Do net _) as [resp|e] eqn:Hdo.
  - unfold http.checkWriteHeaderCode.
    destruct ((http.StatusCode resp <? 100) || (999 <? http.StatusCode resp))%N eqn:Hcode;
      cbn [bind].
    + split; [intros h E; discriminate E|]. right.
      eexists _, resp. split; [|split; [exact Hdo|split; [exact Hcode|reflexivity]]].
      reflexivity.
    + apply Hret; [intros req [<-|[]]; reflexivity|intros label text E; discriminate E].
  - apply Hret; [intros req [<-|[]]; reflexivity|intros label text E; discriminate E].
Qed.

End Preview.

Section Log.
Import gostrings main.

Lemma lastIndex_single_None (l : list byte) (c : byte) :
  lastIndex l [c] = None -> ~ In c l.
Proof.
  induction l as [|d l IH]; intros H; [intros []|].
  cbn [lastIndex] in H. destruct (lastIndex l [c]); [discriminate|].
  cbn [hasPrefix] in H. rewrite andb_true_r in H.
  destruct (Byte.eqb d c) eqn:E; [discriminate|].
  apply byte_eqb_neq in E. intros [->|Hin]; [now apply E|now apply IH].
Qed.

Lemma firstn_repeat_le (x : byte) (k n : nat) :
  (k <= n)%nat -> firstn k (repeat x n) = repeat x k.
Proof.
  revert n. induction k as [|k IH]; intros n H; [now rewrite firstn_O|].
  destruct n as [|n]; [lia|]. cbn [repeat firstn]. now rewrite IH by lia.
Qed.

(** The file of a source: what follows the last slash of its path. *)
Lemma basename (File : string) :
  exists base,
    substr_from File (LastIndex File "/" + 1) = Return base
    /\ ~ In "/"%byte (list_byte_of_string base)
    /\ (File = base \/ exists dir, File = (dir ++ "/" ++ base)%string).
Proof.
  unfold LastIndex, substr_from. rewrite <- length_list_byte_of_string.
  change (list_byte_of_string "/") with ["/"%byte].
  destruct (lastIndex (list_byte_of_string File) ["/"%byte]) as [i|] eqn:Hi.
  - destruct (lastIndex_Some _ _ _ Hi) as (Hle & Hpre & Hlast).
    apply hasPrefix_true in Hpre as [rest Hrest].
    assert (Hraw : list_byte_of_string File
                   = firstn i (list_byte_of_string File) ++ ["/"%byte] ++ rest).
    { rewrite <- Hrest. symmetry. apply firstn_skipn. }
    assert (Hlen : (i + 1 <= length (list_byte_of_string File))%nat).
    { rewrite Hraw at 1. rewrite !length_app, length_firstn. cbn [length]. lia. }
    assert (Hsk : skipn (S i) (list_byte_of_string File) = rest).
    { replace (S i) with (1 + i)%nat by lia. now rewrite <- skipn_skipn, Hrest. }
    exists (string_of_list_byte rest).
    replace ((0 <=? _) && (_ <=? _))%Z with true
      by (symmetry; apply andb_true_iff; split; apply Z.leb_le; lia).
    rewrite list_byte_of_string_of_list_byte.
    split; [|split].
    + do 2 f_equal. rewrite <- Hsk. f_equal. lia.
    + apply lastIndex_single_None. rewrite <- Hsk. apply Hlast. lia.
    + right. exists (string_of_list_byte (firstn i (list_byte_of_string File))).
      apply list_byte_of_string_inj.
      rewrite !list_byte_of_string_app, !list_byte_of_string_of_list_byte.
      exact Hraw.
  - exists File. cbn [Z.add Z.leb Z.compare andb Z.to_nat skipn].
    replace (0 <=? Z.of_nat _)%Z with true by (symmetry; apply Z.leb_le; lia).
    rewrite skipn_O, string_of_list_byte_of_string.
    split; [reflexivity|]. split; [now apply lastIndex_single_None|now left].
Qed.

(** X19 (the source attribute of the debug logger).  The source attribute
    becomes the attribute [s] of the file without its directories, a colon
    and the line; in the text format it is cut or padded with spaces to
    exactly 15 bytes.  No slice is out of range. *)
Theorem ReplaceAttr_source (json : bool) (File : string) (Line : Z) :
  exists base s,
    ReplaceAttr json {| Key := SourceKey; Value_ := SourceValue File Line |}
    = Return {| Key := "s"; Value_ := StringValue s |}
    /\ ~ In "/"%byte (list_byte_of_string base)
    /\ (File = base \/ exists dir, File = (dir ++ "/" ++ base)%string)
    /\ if json then s = (base ++ ":" ++ Itoa Line)%string
       else String.length s = 15%nat
            /\ list_byte_of_string s
               = firstn 15 (list_byte_of_string (base ++ ":" ++ Itoa Line)
                            ++ repeat " "%byte 15).
Proof.
  destruct (basename File) as (base & Hbase & Hslash & Hfile).
  exists base. unfold ReplaceAttr. cbn [Key Value_].
  change (negb (String.eqb SourceKey SourceKey)) with false. cbv iota.
  rewrite Hbase. cbn [bind].
  set (full := (base ++ ":" ++ Itoa Line)%string).
  destruct json.
  { exists full. repeat split; assumption. }
  destruct (15 <? String.length full)%nat eqn:Hgt.
  { apply Nat.ltb_lt in Hgt. unfold substr_to.
    replace ((0 <=? 15) && (15 <=? Z.of_nat (String.length full)))%Z with true
      by (symmetry; apply andb_true_iff; split; apply Z.leb_le; lia).
    cbn [bind]. eexists. split; [reflexivity|]. split; [exact Hslash|].
    split; [exact Hfile|].
    rewrite length_string_of_list_byte, list_byte_of_string_of_list_byte.
    rewrite <- length_list_byte_of_string in Hgt.
    change (Z.to_nat 15) with 15%nat.
    split; [rewrite length_firstn; lia|].
    rewrite firstn_app.
    replace (15 - length (list_byte_of_string full))%nat with 0%nat by lia.
    now rewrite firstn_O, app_nil_r. }
  apply Nat.ltb_ge in Hgt.
  destruct (String.length full <? 15)%nat eqn:Hlt.
  { apply Nat.ltb_lt in Hlt. unfold Repeat.
    replace (15 - Z.of_nat (String.length full) <? 0)%Z with false
      by (symmetry; apply Z.ltb_ge; lia).
    cbn [bind]. eexists. split; [reflexivity|]. split; [exact Hslash|].
    split; [exact Hfile|].
    change (list_byte_of_string " ") with [" "%byte].
    assert (Hpad : forall n, concat (repeat [" "%byte] n) = repeat " "%byte n).
    { induction n as [|n IH]; [reflexivity|]. cbn. now rewrite IH. }
    rewrite Hpad.
    assert (Hn : Z.to_nat (15 - Z.of_nat (String.length full))
                 = (15 - String.length full)%nat) by lia.
    rewrite Hn.
    rewrite <- length_list_byte_of_string, list_byte_of_string_app,
      list_byte_of_string_of_list_byte, length_app, repeat_length.
    rewrite <- length_list_byte_of_string in Hlt.
    rewrite <- (length_list_byte_of_string full).
    split; [lia|].
    rewrite firstn_app, firstn_all2 by lia. f_equal.
    symmetry. apply firstn_repeat_le. lia. }
  apply Nat.ltb_ge in Hlt.
  exists full. split; [reflexivity|]. split; [exact Hslash|]. split; [exact Hfile|].
  split; [lia|].
  rewrite firstn_app, firstn_all2 by (rewrite length_list_byte_of_string; lia).
  rewrite length_list_byte_of_string.
  replace (15 - String.length full)%nat with 0%nat by lia.
  now rewrite firstn_O, app_nil_r.
Qed.

(** Every other attribute is left as it is; the source key with a value of
    another kind is the failed type assertion. *)
Theorem ReplaceAttr_other (json : bool) (a : Attr) :
  (Key a <> SourceKey -> ReplaceAttr json a = Return a)
  /\ (Key a = SourceKey ->
      (forall File Line, Value_ a <> SourceValue File Line) ->
      exists msg, ReplaceAttr json a = Panic msg).
Proof.
  unfold ReplaceAttr. split.
  - intros H. apply String.eqb_neq in H. now rewrite H.
  - intros H Hv. rewrite H.
    change (negb (String.eqb SourceKey SourceKey)) with false. cbv iota.
    destruct (Value_ a) as [File Line| |]; [now destruct (Hv File Line)| |]; eauto.
Qed.

End Log.

Section Command.
Import gostrings.

Lemma HasSuffix_slash (b : string) : HasSuffix (b ++ "/") "/" = true.
Proof.
  unfold HasSuffix. rewrite list_byte_of_string_app, length_app.
  change (list_byte_of_string "/") with ["/"%byte]. cbn [length].
  replace (1 <=? _)%nat with true by (symmetry; apply Nat.leb_le; lia).
  replace (length (list_byte_of_string b) + 1 - 1)%nat
    with (length (list_byte_of_string b)) by lia.
  rewrite skipn_app, skipn_all, Nat.sub_diag. cbn [app skipn hasPrefix].
  now rewrite byte_eqb_refl.
Qed.

Lemma TrimSuffix_slash (b : string) : TrimSuffix (b ++ "/") "/" = b.
Proof.
  unfold TrimSuffix. rewrite HasSuffix_slash.
  rewrite <- !length_list_byte_of_string, list_byte_of_string_app, length_app.
  change (list_byte_of_string "/") with ["/"%byte]. cbn [length].
  replace (length (list_byte_of_string b) + 1 - 1)%nat
    with (length (list_byte_of_string b)) by lia.
  rewrite firstn_app, firstn_all, Nat.sub_diag, firstn_O, app_nil_r.
  apply string_of_list_byte_of_string.
Qed.

(** X17 (the base URL of the server).  [Server.Execute] builds the same
    server from a base URL with one trailing slash and from the base URL
    without it; a base URL that ends in no slash is taken as it is. *)
Theorem srv_trailing_slash (b secret : string) :
  cmd.srv {| cmd.BaseURL := b ++ "/"; cmd.Secret := secret |}
  = {| rest.BaseURL := b;
       rest.Sealer_ := rest.config_Sealer {| config.Secret := secret |} |}
  /\ (HasSuffix b "/" = false ->
      cmd.srv {| cmd.BaseURL := b; cmd.Secret := secret |}
      = {| rest.BaseURL := b;
           rest.Sealer_ := rest.config_Sealer {| config.Secret := secret |} |}).
Proof.
  unfold cmd.srv. cbn [cmd.BaseURL cmd.Secret]. split.
  - now rewrite TrimSuffix_slash.
  - intros H. unfold TrimSuffix. now rewrite H.
Qed.

End Command.

Section LineBreaks.
Import base64.
Local Open Scope N_scope.

Lemma newline_decodeMap (c : byte) : is_newline c = true -> decodeMap c = None.
Proof. destruct c; try discriminate; reflexivity. Qed.

Lemma newline_not_pad (c : byte) : is_newline c = true -> Byte.eqb c padChar = false.
Proof. destruct c; try discriminate; reflexivity. Qed.

Lemma skip_newlines_fst (src : list byte) (si si' : N) :
  fst (skip_newlines src si) = fst (skip_newlines src si').
Proof.
  revert si si'. induction src as [|c src IH]; intros si si'; [reflexivity|].
  cbn [skip_newlines]. destruct (is_newline c); [apply IH|reflexivity].
Qed.

Lemma trailing_garbage_None (src : list byte) (si : N) :
  trailing_garbage src si = None <-> forallb is_newline src = true.
Proof.
  unfold trailing_garbage. revert si.
  induction src as [|c src IH]; intros si; [cbn; tauto|].
  cbn [skip_newlines forallb]. destruct (is_newline c) eqn:E.
  - cbn [andb]. apply IH.
  - cbn [andb]. split; discriminate.
Qed.

(** A line break put into a text, seen after the line breaks at its head
    are skipped: gone, or put into what is left. *)
Lemma skip_newlines_insert (c : byte) (a b : list byte) (si si' : N) :
  is_newline c = true ->
  fst (skip_newlines (a ++ c :: b) si') = fst (skip_newlines (a ++ b) si)
  \/ exists d a',
       fst (skip_newlines (a ++ b) si) = d :: a' ++ b
       /\ fst (skip_newlines (a ++ c :: b) si') = d :: a' ++ c :: b.
Proof.
  intros Hc. revert si si'. induction a as [|d a IH]; intros si si'.
  - left. cbn [app skip_newlines]. rewrite Hc. apply skip_newlines_fst.
  - cbn [app skip_newlines]. destruct (is_newline d); [apply IH|].
    right. exists d, a. split; reflexivity.
Qed.

(** A decoding that succeeds does not depend on the index it starts at. *)
Lemma decode_index (src : list byte) :
  forall si si' dbuf out,
    decode src si dbuf = (out, None) -> decode src si' dbuf = (out, None).
Proof.
  induction src as [|c src IH]; intros si si' dbuf out H.
  - cbn [decode] in *. destruct dbuf; [exact H|discriminate H].
  - cbn [decode] in *. destruct (decodeMap c) as [v|].
    + destruct dbuf as [|v0 [|v1 [|v2 [|v3 dbuf]]]];
        try (exact (IH _ _ _ _ H)).
      destruct (decode src (si + 1) []) as [o [e|]] eqn:E; [discriminate H|].
      rewrite (IH _ (si' + 1) _ _ E). exact H.
    + destruct (is_newline c); [exact (IH _ _ _ _ H)|].
      destruct (negb (Byte.eqb c padChar)); [discriminate H|].
      destruct dbuf as [|v0 [|v1 [|v2 [|v3 dbuf]]]]; try discriminate H.
      * pose proof (skip_newlines_fst src (si + 1) (si' + 1)) as Hf.
        destruct (skip_newlines src (si + 1)) as [r1 s1].
        destruct (skip_newlines src (si' + 1)) as [r2 s2].
        cbn [fst] in Hf. subst r2.
        destruct r1 as [|c' r1]; [discriminate H|].
        destruct (negb (Byte.eqb c' padChar)); [discriminate H|].
        injection H as <- Ht. f_equal.
        apply trailing_garbage_None. now apply trailing_garbage_None in Ht.
      * injection H as <- Ht. f_equal.
        apply trailing_garbage_None. now apply trailing_garbage_None in Ht.
Qed.

(** A line break anywhere in a text that decodes is ignored. *)
Lemma decode_insert (c : byte) (a b : list byte) :
  is_newline c = true ->
  forall si dbuf out,
    decode (a ++ b) si dbuf = (out, None) ->
    decode (a ++ c :: b) si dbuf = (out, None).
Proof.
  intros Hc. induction a as [|d a IH]; intros si dbuf out H.
  - cbn [app decode]. rewrite (newline_decodeMap c Hc), Hc.
    exact (decode_index _ _ _ _ _ H).
  - cbn [app decode] in *. destruct (decodeMap d) as [v|].
    + destruct dbuf as [|v0 [|v1 [|v2 [|v3 dbuf]]]];
        try (exact (IH _ _ _ H)).
      destruct (decode (a ++ b) (si + 1) []) as [o [e|]] eqn:E; [discriminate H|].
      rewrite (IH _ _ _ E). exact H.
    + destruct (is_newline d); [exact (IH _ _ _ H)|].
      destruct (negb (Byte.eqb d padChar)); [discriminate H|].
      destruct dbuf as [|v0 [|v1 [|v2 [|v3 dbuf]]]]; try discriminate H.
      * destruct (skip_newlines_insert c a b (si + 1) (si + 1) Hc)
          as [Hsame|(d' & a' & H1 & H2)].
        -- destruct (skip_newlines (a ++ b) (si + 1)) as [r1 s1].
           destruct (skip_newlines (a ++ c :: b) (si + 1)) as [r2 s2].
           cbn [fst] in Hsame. subst r2.
           destruct r1 as [|c' r1]; [discriminate H|].
           destruct (negb (Byte.eqb c' padChar)); [discriminate H|].
           injection H as <- Ht. f_equal.
           apply trailing_garbage_None. now apply trailing_garbage_None in Ht.
        -- destruct (skip_newlines (a ++ b) (si + 1)) as [r1 s1].
           destruct (skip_newlines (a ++ c :: b) (si + 1)) as [r2 s2].
           cbn [fst] in H1, H2. subst r1 r2.
           destruct (negb (Byte.eqb d' padChar)); [discriminate H|].
           injection H as <- Ht. f_equal.
           apply trailing_garbage_None. apply trailing_garbage_None in Ht.
           rewrite forallb_app in *. cbn [forallb]. now rewrite Hc.
      * injection H as <- Ht. f_equal.
        apply trailing_garbage_None. apply trailing_garbage_None in Ht.
        rewrite forallb_app in *. cbn [forallb]. now rewrite Hc.
Qed.

End LineBreaks.

Section Malleable.
Import config.

(** X4 (line breaks in a token).  A carriage return or a line feed put
    anywhere into a token that decodes gives another token, which [Unseal]
    treats as the first: the decoder of [URLEncoding] skips line breaks. *)
Theorem Unseal_ignores_line_breaks (s : Sealer) (a b : string) (c : byte)
    (data : list byte) :
  base64.is_newline c = true ->
  base64.DecodeString (a ++ b) = (data, None) ->
  (a ++ string_of_list_byte [c] ++ b)%string <> (a ++ b)%string
  /\ Unseal s (a ++ string_of_list_byte [c] ++ b) = Unseal s (a ++ b).
Proof.
  intros Hc Hd. split.
  - intros E. apply (f_equal (fun x => length (list_byte_of_string x))) in E.
    rewrite !list_byte_of_string_app, list_byte_of_string_of_list_byte in E.
    rewrite !length_app in E. cbn [length] in E. lia.
  - assert (Hd' : base64.DecodeString (a ++ string_of_list_byte [c] ++ b)
                  = (data, None)).
    { unfold base64.DecodeString in *.
      rewrite !list_byte_of_string_app, list_byte_of_string_of_list_byte.
      rewrite list_byte_of_string_app in Hd.
      exact (decode_insert c _ _ Hc _ _ _ Hd). }
    unfold Unseal. now rewrite Hd, Hd'.
Qed.

End Malleable.

Section Wiring.
Import rest web.

Lemma Seal_returns (cs : config.Sealer) (u t : string) (rd : rand.Reader) :
  exists res rd', config.Seal cs u t rd = (Return res, rd').
Proof.
  destruct (rand.failure rd) as [err|] eqn:Hrd.
  - rewrite Seal_unfold. unfold rand.Read. rewrite Hrd. eauto.
  - rewrite (Seal_token cs u t rd Hrd). eauto.
Qed.

(** X18 (the one panic of the handlers).  On the server [Server.Execute]
    builds: the webhook handler returns for every request, cache, template
    engine and transport, unless the target answered with a status outside
    100..999, on which it panics in [WriteHeader]; the unseal handler
    returns for every request; the configure handler returns for every
    request, cache and template engine when the random source delivers. *)
Theorem srv_handlers_outcome (c : cmd.Server) :
  (forall engine net (cache : cache engine) (r : rest.Request),
      (exists h, handleWebhook engine net (cmd.srv c) cache r = Return h)
      \/ (exists req resp,
            http.Do net req = Ok resp
            /\ ((http.StatusCode resp <? 100) || (999 <? http.StatusCode resp))%N = true
            /\ handleWebhook engine net (cmd.srv c) cache r
               = Panic ("invalid WriteHeader code " ++ itoa (http.StatusCode resp))))
  /\ (forall r : Request, exists resp, handleUnseal (cmd.srv c) r = Return resp)
  /\ (forall engine (cache : cache engine) (rd : rand.Reader) (r : Request),
        rand.failure rd = None ->
        exists res, handleConfigure engine (cmd.srv c) cache rd r = Return res).
Proof.
  split; [|split].
  - intros engine net cache r. apply handleWebhook_outcome.
    cbn [cmd.srv Sealer_ config_Sealer Unseal]. apply Unseal_returns.
  - intros r. unfold handleUnseal.
    destruct (ParseForm r); [eauto|].
    destruct (String.eqb (FormValue r "token") ""); [eauto|].
    destruct (token_of_raw_suffix (FormValue r "token")) as (token & -> & _).
    cbn [bind cmd.srv Sealer_ config_Sealer Unseal].
    destruct (Unseal_returns {| config.Secret := cmd.Secret c |} token)
      as [[[u t] [err|]] ->]; cbn [bind]; eauto.
  - intros engine cache rd r Hrd. unfold handleConfigure.
    destruct (ParseForm r); [eauto|].
    destruct (_ || _); [eauto|].
    destruct (template engine cache _ _) as [c' [t|err]]; [|eauto].
    cbn [cmd.srv Sealer_ config_Sealer Seal].
    rewrite (Seal_token {| config.Secret := cmd.Secret c |}
               (FormValue r "url") (FormValue r "template") rd Hrd).
    destruct (String.eqb (Header_Get r "HX-Request") "true"); eauto.
Qed.

(** X18 for the configure handler and a source of zero bytes. *)
Lemma srv_handleConfigure_zeros :
  exists res,
    handleConfigure text_template.text_only
      (cmd.srv {| cmd.BaseURL := "http://localhost:8080/"; cmd.Secret := "test-secret" |})
      ∅ zeros static_form = Return res.
Proof.
  exact (proj2 (proj2 (srv_handlers_outcome
                         {| cmd.BaseURL := "http://localhost:8080/";
                            cmd.Secret := "test-secret" |}))
           text_template.text_only ∅ zeros static_form eq_refl).
Defined.

(** X12 (the token of the unseal form).  For any text of the form field
    the cut after the last [/wh/] is in range; the token holds no [/wh/];
    and the text is the token itself or ends in [/wh/] and the token. *)
Theorem token_of_raw_last (raw : string) :
  exists token,
    token_of_raw raw = Return token
    /\ gostrings.LastIndex token "/wh/" = (-1)%Z
    /\ (raw = token \/ exists pre, raw = (pre ++ "/wh/" ++ token)%string).
Proof. exact (token_of_raw_suffix raw). Qed.

End Wiring.

Section MoreWitnesses.
Import rest web.

(** X1 for the static scenario. *)
Lemma Seal_static_alphabet :
  exists token rd',
    config.Seal test_sealer hook "static-payload" zeros = (Return (token, None), rd')
    /\ forall b, In b (list_byte_of_string token) ->
         In b base64.encodeURL \/ b = base64.padChar.
Proof. exact (Seal_token_alphabet test_sealer hook "static-payload" zeros eq_refl). Defined.

(** X3 for the twelve zero bytes of sixteen letters A. *)
Lemma Unseal_twelve_bytes :
  config.Unseal test_sealer "AAAAAAAAAAAAAAAA"
  = Return (""%string, ""%string, Some (fmt_Errorf "decrypt token: " cipher.errOpen)).
Proof.
  exact (Unseal_short test_sealer "AAAAAAAAAAAAAAAA" (repeat x00 12) eq_refl
           ltac:(cbn; lia)).
Defined.

Lemma token_of_invalid_bytes :
  token_of test_sealer (repeat x00 12) (string_of_list_byte [xff]) "x"
  = token_of test_sealer (repeat x00 12) (string_of_list_byte [xfe]) "x".
Proof.
  unfold token_of.
  replace (fst (config.Marshal {| config.URL := string_of_list_byte [xff];
                                  config.Tmpl := "x" |}))
    with (fst (config.Marshal {| config.URL := string_of_list_byte [xfe];
                                 config.Tmpl := "x" |}))
    by (vm_compute; reflexivity).
  reflexivity.
Defined.

(** X2 for two URLs of one invalid byte each, sealed with one nonce: one
    token, and one coerced URL. *)
Lemma Seal_invalid_bytes_injective :
  utf8.coerce (string_of_list_byte [xff]) = utf8.coerce (string_of_list_byte [xfe])
  /\ utf8.coerce "x" = utf8.coerce "x"
  /\ (utf8.ValidString (string_of_list_byte [xff]) = true ->
      utf8.ValidString "x" = true ->
      utf8.ValidString (string_of_list_byte [xfe]) = true ->
      utf8.ValidString "x" = true ->
      string_of_list_byte [xff] = string_of_list_byte [xfe]
      /\ "x"%string = "x"%string).
Proof.
  refine (Seal_injective test_sealer (string_of_list_byte [xff]) "x"
            (string_of_list_byte [xfe]) "x" zeros zeros
            (token_of test_sealer (repeat x00 12) (string_of_list_byte [xff]) "x")
            (f_equal fst (Seal_token test_sealer _ "x" zeros eq_refl)) _).
  rewrite token_of_invalid_bytes.
  exact (f_equal fst (Seal_token test_sealer _ "x" zeros eq_refl)).
Defined.

(** X6 for the URL [https://example.com/a] with the template [bc] and the
    URL [https://example.com/ab] with the template [c]. *)
Lemma template_shared_key_example :
  template text_template.text_only
    (<[fingerprint "https://example.com/a" "bc" := "bc"%string]> ∅)
    "https://example.com/ab" "c"
  = (<[fingerprint "https://example.com/a" "bc" := "bc"%string]> ∅, Ok "bc"%string).
Proof.
  apply (template_shared_key text_template.text_only ∅
           "https://example.com/a" "bc" "https://example.com/ab" "c");
    [reflexivity|].
  unfold template, cache. now rewrite lookup_empty.
Defined.

(** For a target that answers 503: the relay answers 503 with its body. *)
Lemma handleWebhook_proxies_503 :
  handleWebhook text_template.text_only (answering 503 (list_byte_of_string "busy"))
    test_server ∅ (post static_token [])
  = Return {| templates := static_cache;
              response := {| rest.Code := 503;
                             rest.Written := Copied (list_byte_of_string "busy") |};
              sent := [static_request] |}.
Proof.
  exact (handleWebhook_proxies text_template.text_only
           (answering 503 (list_byte_of_string "busy")) test_server ∅
           (post static_token []) hook "static-payload" [] None static_cache
           "static-payload"%string (list_byte_of_string "static-payload")
           {| http.StatusCode := 503;
              http.ResponseBody := (list_byte_of_string "busy", None) |}
           Unseal_static_token eq_refl eq_refl template_static eq_refl eq_refl
           eq_refl ltac:(cbn; lia)).
Defined.

(** For a body whose reading fails: 400, nothing sent. *)
Lemma handleWebhook_unread_body :
  handleWebhook text_template.text_only echo test_server ∅
    {| rest.Method := "POST"; PathValue_token := static_token;
       Body := ([], Some (errors_New "unexpected EOF")) |}
  = Return (rest.error_ text_template.text_only ∅ 400 "failed to read request body: "
              (errors_New "unexpected EOF") []).
Proof.
  exact (proj1 (handleWebhook_early_failures text_template.text_only echo test_server ∅
                  {| rest.Method := "POST"; PathValue_token := static_token;
                     Body := ([], Some (errors_New "unexpected EOF")) |}
                  hook "static-payload" Unseal_static_token) [] _ eq_refl).
Defined.

(** X7 for the static delivery on an empty cache. *)
Lemma handleWebhook_static_cache :
  exists h,
    handleWebhook text_template.text_only echo test_server ∅ (post static_token [])
    = Return h
    /\ forall k, k <> fingerprint hook "static-payload" ->
         templates h !! k = (∅ : cache text_template.text_only) !! k.
Proof.
  destruct (handleWebhook_cache text_template.text_only echo test_server ∅
              (post static_token []) (ex_intro _ _ Unseal_static_token))
    as ([[h H]|(req & resp & Hdo & Hcode & _)] & Hkeeps & _).
  - exists h. split; [exact H|].
    intros k Hk.
    exact (proj2 (Hkeeps h H) hook "static-payload"%string k Unseal_static_token Hk).
  - exfalso. cbn [echo http.Do] in Hdo. injection Hdo as <-. discriminate Hcode.
Defined.

(** X13 for the static scenario. *)
Lemma Seal_then_handleUnseal_static :
  exists token rd',
    config.Seal test_sealer hook "static-payload" zeros = (Return (token, None), rd')
    /\ forall (r : Request) (prefix : string),
         ParseForm r = None ->
         FormValue r "token" = token
         \/ FormValue r "token" = (prefix ++ "/wh/" ++ token)%string ->
         handleUnseal test_server r
         = Return {| Code := 200;
                     ContentType := "text/html; charset=utf-8";
                     Written :=
                       Text (field "Target URL" (html.EscapeString (utf8.coerce hook))
                             ++ field "Template"
                                  (html.EscapeString
                                     (utf8.coerce "static-payload"))) |}.
Proof.
  exact (Seal_then_handleUnseal test_sealer "http://localhost:8080" hook
           "static-payload" zeros eq_refl).
Defined.

(** X8 for a form without a URL. *)
Lemma handleConfigure_missing_URL :
  exists resp,
    handleConfigure text_template.text_only test_server ∅ zeros
      (form [("template"%string, "{{.v}}"%string)] "") = Return (resp, ∅, zeros)
    /\ Code resp = 400%N.
Proof.
  exact (handleConfigure_bad_request text_template.text_only test_server ∅ zeros
           (form [("template"%string, "{{.v}}"%string)] "")
           (or_intror (or_introl eq_refl))).
Defined.

Lemma static_form_url : FormValue static_form "url" <> ""%string.
Proof. discriminate. Defined.

Lemma static_form_template : FormValue static_form "template" <> ""%string.
Proof. discriminate. Defined.

(** X9 for the form of the static scenario. *)
Lemma handleConfigure_static_reply :
  exists token rd' resp,
    config.Seal test_sealer hook "static-payload" zeros = (Return (token, None), rd')
    /\ handleConfigure text_template.text_only test_server ∅ zeros static_form
       = Return (resp, static_cache, rd')
    /\ Code resp = 200%N
    /\ ContentType resp = "application/json"%string
    /\ json.parse (text_of (Written resp))
       = Ok (json.Object
               [("webhook_url"%string,
                 json.String
                   (utf8.coerce ("http://localhost:8080" ++ "/wh/" ++ token)))]).
Proof.
  destruct (handleConfigure_reply text_template.text_only test_sealer
              "http://localhost:8080" ∅ zeros static_form static_cache
              "static-payload"%string eq_refl static_form_url static_form_template
              template_static eq_refl)
    as (token & rd' & resp & Hs & Hc & Hcode & Hct & Hparse).
  exists token, rd', resp. repeat split; assumption.
Defined.


(** X11 for the form of the static scenario. *)
Lemma handleConfigure_static_then_handleUnseal :
  exists token rd' resp,
    handleConfigure text_template.text_only test_server ∅ zeros static_form
    = Return (resp, static_cache, rd')
    /\ text_of (Written resp) = Encode ("http://localhost:8080" ++ "/wh/" ++ token)
    /\ handleUnseal test_server
         (form [("token"%string, ("http://localhost:8080" ++ "/wh/" ++ token)%string)] "")
       = Return {| Code := 200;
                   ContentType := "text/html; charset=utf-8";
                   Written :=
                     Text (field "Target URL" (html.EscapeString (utf8.coerce hook))
                           ++ field "Template"
                                (html.EscapeString (utf8.coerce "static-payload"))) |}.
Proof.
  destruct (handleConfigure_then_handleUnseal text_template.text_only
              test_sealer "http://localhost:8080" ∅ zeros static_form static_cache
              "static-payload"%string eq_refl static_form_url static_form_template
              template_static eq_refl)
    as (token & rd' & resp & Hc & Hbody & Hun).
  exists token, rd', resp. split; [exact Hc|]. split; [exact Hbody|].
  exact (Hun (form [("token"%string, ("http://localhost:8080" ++ "/wh/" ++ token)%string)] "")
             eq_refl eq_refl).
Defined.

(** X16 for the static template and no data. *)
Lemma handleRender_static_preview :
  exists h,
    handleWebhook text_template.text_only echo test_server ∅ (post static_token [])
    = Return h
    /\ forall req, In req (sent h) ->
         handleRender text_template.text_only
           (form [("template"%string, "static-payload"%string)] "")
         = preview (http.Body req).
Proof.
  destruct (handleRender_previews_delivery text_template.text_only echo test_server ∅
              (form [("template"%string, "static-payload"%string)] "")
              (post static_token []) hook eq_refl ltac:(discriminate)
              Unseal_static_token eq_refl (lookup_empty _))
    as (Hret & [[h H]|(req & resp & _ & Hdo & Hcode & _)]).
  - exists h. split; [exact H|exact (proj1 (Hret h H))].
  - exfalso. cbn [echo http.Do] in Hdo. injection Hdo as <-. discriminate Hcode.
Defined.

(** X4 for a line feed before four letters A. *)
Lemma Unseal_line_feed :
  (("" ++ string_of_list_byte [x0a] ++ "AAAA")%string <> ("" ++ "AAAA")%string)
  /\ config.Unseal test_sealer ("" ++ string_of_list_byte [x0a] ++ "AAAA")
     = config.Unseal test_sealer ("" ++ "AAAA").
Proof.
  exact (Unseal_ignores_line_breaks test_sealer "" "AAAA" x0a [x00; x00; x00]
           eq_refl eq_refl).
Defined.

(** X17 for the base URL [http://localhost:8080], with and without the slash. *)
Lemma srv_static_base_URL :
  cmd.srv {| cmd.BaseURL := "http://localhost:8080" ++ "/"; cmd.Secret := "test-secret" |}
  = {| rest.BaseURL := "http://localhost:8080";
       rest.Sealer_ := rest.config_Sealer {| config.Secret := "test-secret" |} |}
  /\ cmd.srv {| cmd.BaseURL := "http://localhost:8080"; cmd.Secret := "test-secret" |}
     = {| rest.BaseURL := "http://localhost:8080";
          rest.Sealer_ := rest.config_Sealer {| config.Secret := "test-secret" |} |}.
Proof.
  destruct (srv_trailing_slash "http://localhost:8080" "test-secret") as [H1 H2].
  split; [exact H1|exact (H2 eq_refl)].
Defined.

End MoreWitnesses.
